(** * Christmas-tree scene: gesture classification, pointer fallback,
      formation generators and spring choreography

    A shallow embedding of the interaction core of the repository:

    - [Gesture]        src/hooks/useHandGesture.ts
                       ([calculateFingerDistance], [detectGesture], [onResults]);
    - [MouseFallback]  the pointer hook [useMouseFallback]
                       ([handleMouseDown], [handleTouchStart]);
    - [Formation]      the generators of ParticleSystem.tsx and PhotoCards
                       ([generateTreePosition], [generateGalaxyPosition], ...);
    - [Particles]      the component [ParticleSystem]: the memoised particle
                       table, [positionsRef] and the retargeting effect, over
                       a heap of position arrays;
    - [PhotoCards]     the component [PhotoCards]: the memoised [photoData],
                       the effect that builds the cards and the per-frame
                       spring integrator.

    Numbers.  The classifier only adds, multiplies, takes a square root and
    compares, so it is embedded over IEEE binary64 ([PrimFloat]), which is
    what a JavaScript number is.  The generators call [Math.cos], [Math.sin],
    [Math.acos] and [Math.pow], and the integrator is compared with an
    algebraic formula; both are embedded over the real numbers, that is,
    up to rounding. *)

From Stdlib Require Import List Bool Arith ZArith Lia.
From Stdlib Require String.
From Stdlib Require Import Floats Reals Lra.
Import ListNotations.

(* ------------------------------------------------------------------ *)
(** ** JavaScript evaluation that may throw *)

Module Js.

Inductive error : Type := TypeError.

(** The outcome of running a piece of JavaScript: a value, or a thrown
    exception. *)
Inductive t (A : Type) : Type :=
| Return (a : A)
| Raise (e : error).
Arguments Return {A} a.
Arguments Raise {A} e.

Definition bind {A B : Type} (c : t A) (k : A -> t B) : t B :=
  match c with
  | Return a => k a
  | Raise e => Raise e
  end.

(** [o.f] where [o] may be [undefined]: reading a property of
    [undefined] throws a TypeError. *)
Definition prop {O A : Type} (f : O -> A) (o : option O) : t A :=
  match o with
  | Some v => Return (f v)
  | None => Raise TypeError
  end.

Definition returns {A : Type} (c : t A) : Prop := exists a, c = Return a.

End Js.

Notation "x <- c ;; k" := (Js.bind c (fun x => k))
  (at level 61, c at next level, right associativity).

(* ------------------------------------------------------------------ *)
(** ** types/christmas.ts *)

Inductive TreeState : Type := tree | galaxy | focus.

Inductive GestureType : Type := none | fist | open | pinch | pointing.

Definition TreeState_eqb (a b : TreeState) : bool :=
  match a, b with
  | tree, tree | galaxy, galaxy | focus, focus => true
  | _, _ => false
  end.

Definition GestureType_eqb (a b : GestureType) : bool :=
  match a, b with
  | none, none | fist, fist | open, open
  | pinch, pinch | pointing, pointing => true
  | _, _ => false
  end.

(* ------------------------------------------------------------------ *)
(** ** hooks/useHandGesture.ts *)

Module Gesture.

Import Js.

(** One hand landmark as the tracking library delivers it. *)
Module Landmark.
Record t : Type := mk { x : float; y : float; z : float }.
End Landmark.

(** A hand: the array of its landmarks.  The source types these arrays
    as [any[]]: an entry is a landmark object, read with the numbers its
    [x], [y] and [z] convert to (NaN for a missing one), or it is
    [undefined] or [null], which is [None] here. *)
Definition Hand : Type := list (option Landmark.t).

(** [landmarks[i]]: the entry at [i], [undefined] past the end of the
    array. *)
Definition at_ (landmarks : Hand) (i : nat) : option Landmark.t :=
  match nth_error landmarks i with
  | Some entry => entry
  | None => None
  end.

(** [Math.pow(d, 2)]: the square. *)
Definition pow2 (d : float) : float := (d * d)%float.

(** [landmarks] is [None] for an argument that is [undefined] or [null],
    on which [landmarks[finger1]] throws. *)
Definition calculateFingerDistance
    (landmarks : option Hand) (finger1 finger2 : nat) : Js.t float :=
  p1 <- prop (fun l => at_ l finger1) landmarks ;;
  p2 <- prop (fun l => at_ l finger2) landmarks ;;
  x1 <- prop Landmark.x p1 ;;
  x2 <- prop Landmark.x p2 ;;
  y1 <- prop Landmark.y p1 ;;
  y2 <- prop Landmark.y p2 ;;
  z1 <- prop Landmark.z p1 ;;
  z2 <- prop Landmark.z p2 ;;
  Return (PrimFloat.sqrt (pow2 (x1 - x2) + pow2 (y1 - y2) + pow2 (z1 - z2)))%float.

(** The Euclidean distance between two landmarks, in binary64. *)
Definition distance (p1 p2 : Landmark.t) : float :=
  PrimFloat.sqrt
    (pow2 (Landmark.x p1 - Landmark.x p2) +
     pow2 (Landmark.y p1 - Landmark.y p2) +
     pow2 (Landmark.z p1 - Landmark.z p2))%float.

(** The literal [0.06] of the pinch test: the binary64 value nearest to
    6/100, as the JavaScript parser reads it. *)
Definition pinchThreshold : float := 0x1.eb851eb851eb8p-5%float.

(** [[a, b, c, d].filter(Boolean).length] *)
Definition countTrue (bs : list bool) : nat :=
  length (filter (fun b => b) bs).

(** The part of [detectGesture] after the pinch test, on the four
    extended flags. *)
Definition classifyFingers
    (indexExtended middleExtended ringExtended pinkyExtended : bool)
    : GestureType :=
  let extendedCount :=
    countTrue [indexExtended; middleExtended; ringExtended; pinkyExtended] in
  if 3 <=? extendedCount then open
  else if extendedCount <=? 1 then fist
  else if indexExtended && negb middleExtended
          && negb ringExtended && negb pinkyExtended then pointing
  else none.

(** [landmarks] is [None] for a [null]/[undefined] argument. *)
Definition detectGesture (landmarks : option Hand)
    : Js.t GestureType :=
  match landmarks with
  | None => Return none
  | Some l =>
    if (length l <? 21)%nat then Return none
    else
      let thumbTip := at_ l 4 in
      let indexTip := at_ l 8 in
      let middleTip := at_ l 12 in
      let ringTip := at_ l 16 in
      let pinkyTip := at_ l 20 in
      let indexMcp := at_ l 5 in
      let middleMcp := at_ l 9 in
      let ringMcp := at_ l 13 in
      let pinkyMcp := at_ l 17 in
      let wrist := at_ l 0 in
      pinchDist <- calculateFingerDistance landmarks 4 8 ;;
      if (pinchDist <? pinchThreshold)%float then Return pinch
      else
        iT <- prop Landmark.y indexTip ;;
        iM <- prop Landmark.y indexMcp ;;
        let indexExtended := (iT <? iM)%float in
        mT <- prop Landmark.y middleTip ;;
        mM <- prop Landmark.y middleMcp ;;
        let middleExtended := (mT <? mM)%float in
        rT <- prop Landmark.y ringTip ;;
        rM <- prop Landmark.y ringMcp ;;
        let ringExtended := (rT <? rM)%float in
        pT <- prop Landmark.y pinkyTip ;;
        pM <- prop Landmark.y pinkyMcp ;;
        let pinkyExtended := (pT <? pM)%float in
        Return (classifyFingers indexExtended middleExtended
                                ringExtended pinkyExtended)
  end.

(** [handPosition]: the mirrored palm centre. *)
Module HandPosition.
Record t : Type := mk { x : float; y : float }.
End HandPosition.

Record HandGestureState : Type := {
  gesture : GestureType;
  handPosition : option HandPosition.t;
  pinchDistance : float;
  isTracking : bool
}.

(** What the tracking library passes to [onResults]; the field is absent
    or empty when no hand is in view.  An entry of the array is a hand,
    or [None] for an entry that is [undefined] or [null]. *)
Record Results : Type := {
  multiHandLandmarks : option (list (option Hand))
}.

(** One mounted [useHandGesture]: the React state, [lastGestureRef.current],
    and the arguments [onGestureChange] has been called with so far, oldest
    first. *)
Record Hook : Type := {
  state : HandGestureState;
  lastGestureRef : GestureType;
  onGestureChangeCalls : list GestureType
}.

Definition initialHook : Hook := {|
  state := {| gesture := none; handPosition := None;
              pinchDistance := 1%float; isTracking := false |};
  lastGestureRef := none;
  onGestureChangeCalls := []
|}.

(** [onResults].  [hasCallback] says whether the optional [onGestureChange]
    was supplied.  The guard [results.multiHandLandmarks &&
    results.multiHandLandmarks.length > 0] followed by
    [results.multiHandLandmarks[0]] is the first pattern. *)
Definition onResults (hasCallback : bool) (results : Results) (h : Hook)
    : Js.t Hook :=
  match multiHandLandmarks results with
  | Some (landmarks :: _) =>
    gesture <- detectGesture landmarks ;;
    palmCenter <- prop (fun l => at_ l 9) landmarks ;;
    px <- prop Landmark.x palmCenter ;;
    py <- prop Landmark.y palmCenter ;;
    let handPosition := HandPosition.mk (1 - px)%float py in
    pinchDistance <- calculateFingerDistance landmarks 4 8 ;;
    let changed := negb (GestureType_eqb gesture (lastGestureRef h)) in
    Return {|
      state := {| gesture := gesture; handPosition := Some handPosition;
                  pinchDistance := pinchDistance; isTracking := true |};
      lastGestureRef := if changed then gesture else lastGestureRef h;
      onGestureChangeCalls :=
        if changed && hasCallback
        then onGestureChangeCalls h ++ [gesture]
        else onGestureChangeCalls h
    |}
  | _ =>
    Return {|
      state := {| gesture := gesture (state h); handPosition := None;
                  pinchDistance := pinchDistance (state h);
                  isTracking := false |};
      lastGestureRef := lastGestureRef h;
      onGestureChangeCalls := onGestureChangeCalls h
    |}
  end.

(** One delivery by the tracking library.  Every read that can throw in
    [onResults] comes before its first write, so a throwing delivery
    leaves the hook as it was. *)
Definition deliver (hasCallback : bool) (h : Hook) (results : Results) : Hook :=
  match onResults hasCallback results h with
  | Return h' => h'
  | Raise _ => h
  end.

Definition run (hasCallback : bool) (h : Hook) (frames : list Results) : Hook :=
  fold_left (deliver hasCallback) frames h.

(** The gesture a delivery classifies to, when it carries a hand. *)
Definition frameGesture (results : Results) : option GestureType :=
  match multiHandLandmarks results with
  | Some (landmarks :: _) =>
    match detectGesture landmarks with
    | Return g => Some g
    | Raise _ => None
    end
  | _ => None
  end.

(** No hand in view: [results.multiHandLandmarks] is missing or has
    length 0. *)
Definition noHand (results : Results) : bool :=
  match multiHandLandmarks results with
  | Some hands => (length hands =? 0)%nat
  | None => true
  end.

(** The inputs [detectGesture] answers before looking at any landmark. *)
Definition degenerate (landmarks : option Hand) : bool :=
  match landmarks with
  | None => true
  | Some l => (length l <? 21)%nat
  end.

End Gesture.

(* ------------------------------------------------------------------ *)
(** ** The pointer fallback hook, [useMouseFallback] *)

Module MouseFallback.

Local Open Scope Z_scope.

(** A mouse event or one touch point: only the client coordinates are
    read. *)
Record Pointer : Type := { clientX : Z; clientY : Z }.

Definition MouseEvent : Type := Pointer.

Record TouchEvent : Type := { touches : list Pointer }.

(** The refs and state of one mounted hook that the press handlers touch. *)
Record Hook : Type := {
  isDragging : bool;
  lastClickRef : Z;
  dragStartRef : Z * Z
}.

Definition initialHook : Hook := {|
  isDragging := false;
  lastClickRef := 0;
  dragStartRef := (0, 0)
|}.

(** [currentState === 'tree' ? 'galaxy' : 'tree'] *)
Definition toggled (currentState : TreeState) : TreeState :=
  if TreeState_eqb currentState tree then galaxy else tree.

(** [handleMouseDown].  [now] is the value of [Date.now()], in
    milliseconds; the second component is the argument of the call to
    [onStateChange], if the handler makes one. *)
Definition handleMouseDown (enabled : bool) (currentState : TreeState)
    (now : Z) (e : MouseEvent) (h : Hook) : Hook * option TreeState :=
  if negb enabled then (h, None)
  else
    let timeSinceLastClick := now - lastClickRef h in
    if timeSinceLastClick <? 300 then
      ({| isDragging := isDragging h;
          lastClickRef := 0;
          dragStartRef := dragStartRef h |},
       Some (toggled currentState))
    else
      ({| isDragging := true;
          lastClickRef := now;
          dragStartRef := (clientX e, clientY e) |},
       None).

(** [handleTouchStart] *)
Definition handleTouchStart (enabled : bool) (currentState : TreeState)
    (now : Z) (e : TouchEvent) (h : Hook) : Hook * option TreeState :=
  if negb enabled || negb (length (touches e) =? 1)%nat then (h, None)
  else
    match touches e with
    | [] => (h, None)
    | touch :: _ =>
      let timeSinceLastClick := now - lastClickRef h in
      if timeSinceLastClick <? 300 then
        ({| isDragging := isDragging h;
            lastClickRef := 0;
            dragStartRef := dragStartRef h |},
         Some (toggled currentState))
      else
        ({| isDragging := true;
            lastClickRef := now;
            dragStartRef := (clientX touch, clientY touch) |},
         None)
    end.

(** A press: a mouse-down, or a touch-start with its touch list. *)
Inductive Press : Type :=
| MouseDown (e : MouseEvent)
| TouchStart (e : TouchEvent).

Definition handlePress (enabled : bool) (currentState : TreeState)
    (now : Z) (p : Press) (h : Hook) : Hook * option TreeState :=
  match p with
  | MouseDown e => handleMouseDown enabled currentState now e h
  | TouchStart e => handleTouchStart enabled currentState now e h
  end.

(** A mouse-down, or a touch-start with exactly one touch. *)
Definition singlePointer (p : Press) : bool :=
  match p with
  | MouseDown _ => true
  | TouchStart e => (length (touches e) =? 1)%nat
  end.

End MouseFallback.

(* ------------------------------------------------------------------ *)
(** ** [Math.random] and the formation generators

    From here on a JavaScript number is a real number. *)

(** [[number, number, number]] *)
Definition Vec3 : Type := (R * R * R)%type.

(** The source of [Math.random]: the sequence of values it will return,
    and how many have been taken. *)
Module Random.

Record t : Type := mk { draws : nat -> R; cursor : nat }.

Definition Math_random (s : t) : R * t :=
  (draws s (cursor s), mk (draws s) (S (cursor s))).

(** [Math.random] returns values in [0, 1). *)
Definition unit_interval (s : t) : Prop :=
  forall n, (0 <= draws s n < 1)%R.

End Random.

Module Formation.

Import Random.
Local Open Scope R_scope.

(** [Math.pow(x, y)] at a base [x >= 0] and an exponent [y > 0], which is
    where the generators call it. *)
Definition Math_pow (x y : R) : R :=
  if Req_dec_T x 0 then 0 else Rpower x y.

(** ParticleSystem.tsx, [generateTreePosition]; the component calls it
    with [0 <= index < total]. *)
Definition generateTreePosition (index total : R) (s : Random.t)
    : Vec3 * Random.t :=
  let height := 8 in
  let maxRadius := 3.5 in
  let t := Math_pow (index / total) 0.8 in
  let y := t * height - height / 2 in
  let layerRadius := maxRadius * (1 - t * 0.95) in
  let '(u1, s) := Math_random s in
  let angle := u1 * PI * 2 in
  let '(u2, s) := Math_random s in
  let radiusVariation := 0.7 + u2 * 0.3 in
  let radius := layerRadius * radiusVariation in
  let x := cos angle * radius in
  let z := sin angle * radius in
  ((x, y, z), s).

(** ParticleSystem.tsx, [generateGalaxyPosition] *)
Definition generateGalaxyPosition (s : Random.t) : Vec3 * Random.t :=
  let '(u1, s) := Math_random s in
  let radius := 5 + u1 * 10 in
  let '(u2, s) := Math_random s in
  let theta := u2 * PI * 2 in
  let '(u3, s) := Math_random s in
  let phi := acos (2 * u3 - 1) in
  ((radius * sin phi * cos theta,
    radius * sin phi * sin theta * 0.5,
    radius * cos phi), s).

(** PhotoCards, [generateTreePhotoPosition] *)
Definition generateTreePhotoPosition (index total : R) : Vec3 :=
  let height := 7 in
  let maxRadius := 2.8 in
  let t := (index + 0.5) / total in
  let y := t * height - height / 2 + 0.5 in
  let radius := maxRadius * (1 - t * 0.85) in
  let angle := t * PI * 10 + index * PI * 0.5 in
  (cos angle * radius, y, sin angle * radius).

(** PhotoCards, [generateGalaxyPhotoPosition] *)
Definition generateGalaxyPhotoPosition (s : Random.t) : Vec3 * Random.t :=
  let '(u1, s) := Math_random s in
  let radius := 4 + u1 * 6 in
  let '(u2, s) := Math_random s in
  let theta := u2 * PI * 2 in
  let '(u3, s) := Math_random s in
  let phi := acos (2 * u3 - 1) in
  ((radius * sin phi * cos theta,
    radius * sin phi * sin theta * 0.5,
    radius * cos phi), s).

(** Distance of a point from the origin. *)
Definition norm (p : Vec3) : R :=
  let '(x, y, z) := p in R_sqrt.sqrt (x * x + y * y + z * z).

(** The point before the vertical compression: [y] divided by the factor
    [0.5] the generator multiplied it with. *)
Definition uncompressed (p : Vec3) : Vec3 :=
  let '(x, y, z) := p in (x, y / 0.5, z).

Definition height_of (p : Vec3) : R := snd (fst p).

End Formation.

(* ------------------------------------------------------------------ *)
(** ** The heap of position arrays

    A position array [[x, y, z]] is an object: the particle table, the
    [positionsRef] list and the tweens hold references to arrays, and a
    tween writes into the array it was given. *)

Module Heap.

Definition addr : Type := nat.

Record t : Type := mk { cells : addr -> Vec3; next : addr }.

(** A new array with the given contents. *)
Definition alloc (v : Vec3) (h : t) : addr * t :=
  (next h,
   mk (fun a => if (a =? next h)%nat then v else cells h a) (S (next h))).

Definition read (h : t) (a : addr) : Vec3 := cells h a.

Definition write (a : addr) (v : Vec3) (h : t) : t :=
  mk (fun b => if (b =? a)%nat then v else cells h b) (next h).

(** [h'] is [h] after some allocations: every array of [h] is still
    there with its contents. *)
Definition extends (h h' : t) : Prop :=
  (next h <= next h')%nat /\
  forall a, (a < next h)%nat -> read h' a = read h a.

End Heap.

(* ------------------------------------------------------------------ *)
(** ** ParticleSystem.tsx, the component [ParticleSystem] *)

Module Particles.

Import Random Formation.
Local Open Scope R_scope.

(** What the component's code runs against. *)
Record World : Type := { rng : Random.t; heap : Heap.t }.

(** [new THREE.Color().setHSL(h, s, l)] *)
Record Color : Type := { hue : R; saturation : R; lightness : R }.

Record Particle : Type := {
  treePosition : Heap.addr;
  galaxyPosition : Heap.addr;
  currentPosition : Heap.addr;
  color : Color;
  scale : R;
  phase : R;
  speed : R
}.

(** The callback of [Array.from] inside [useMemo]. *)
Definition makeParticle (particleCount : nat) (i : nat) (w : World)
    : Particle * World :=
  let '(treeVal, r) :=
    generateTreePosition (INR i) (INR particleCount) (rng w) in
  let '(treePos, hp) := Heap.alloc treeVal (heap w) in
  let '(galaxyVal, r) := generateGalaxyPosition r in
  let '(galaxyPos, hp) := Heap.alloc galaxyVal hp in
  let '(colorRand, r) := Math_random r in
  let '(color, r) :=
    if Rlt_dec colorRand 0.85 then
      let '(u, r) := Math_random r in
      let hue := 0.33 + u * 0.05 in
      let '(u, r) := Math_random r in
      let saturation := 0.7 + u * 0.3 in
      let '(u, r) := Math_random r in
      let lightness := 0.25 + u * 0.2 in
      (Build_Color hue saturation lightness, r)
    else
      let '(u, r) := Math_random r in
      (Build_Color 0 0 (0.9 + u * 0.1), r) in
  let '(currentPos, hp) := Heap.alloc (Heap.read hp treePos) hp in
  let '(u, r) := Math_random r in
  let scale := 0.015 + u * 0.025 in
  let '(u, r) := Math_random r in
  let phase := u * PI * 2 in
  let '(u, r) := Math_random r in
  let speed := 0.5 + u * 0.5 in
  ({| treePosition := treePos; galaxyPosition := galaxyPos;
      currentPosition := currentPos; color := color;
      scale := scale; phase := phase; speed := speed |},
   {| rng := r; heap := hp |}).

(** [Array.from({ length }, (_, i) => f(i))], from index [i] on. *)
Fixpoint arrayFrom {A : Type} (f : nat -> World -> A * World)
    (length i : nat) (w : World) : list A * World :=
  match length with
  | O => ([], w)
  | S k =>
    let '(a, w) := f i w in
    let '(rest, w) := arrayFrom f k (S i) w in
    (a :: rest, w)
  end.

(** [particleData.map(p => [...p.treePosition])]: a fresh copy of every
    tree array. *)
Fixpoint copyTreePositions (data : list Particle) (hp : Heap.t)
    : list Heap.addr * Heap.t :=
  match data with
  | [] => ([], hp)
  | p :: rest =>
    let '(a, hp) := Heap.alloc (Heap.read hp (treePosition p)) hp in
    let '(others, hp) := copyTreePositions rest hp in
    (a :: others, hp)
  end.

Inductive Ease : Type := power2_inOut | power2_out.

(** What [gsap.to(pos, vars)] was called with: the array it animates and
    the values it animates it to. *)
Record Tween : Type := {
  object : Heap.addr;
  endValues : Vec3;
  duration : R;
  ease : Ease;
  delay : R
}.

(** The body of [positionsRef.current.forEach((pos, i) => gsap.to(...))],
    from index [i] on.  [targetPositions[i][0]] throws when
    [targetPositions] has no entry [i]. *)
Fixpoint forEachPosition (state : TreeState) (targetPositions : list Heap.addr)
    (positions : list Heap.addr) (i : nat) (w : World)
    : Js.t (list Tween * World) :=
  match positions with
  | [] => Js.Return ([], w)
  | pos :: rest =>
    target <- Js.prop (Heap.read (heap w)) (nth_error targetPositions i) ;;
    let '(u, r) := Math_random (rng w) in
    let duration := 1.5 + u * 0.5 in
    let ease := if TreeState_eqb state tree then power2_inOut else power2_out in
    let '(u, r) := Math_random r in
    let delay := u * 0.3 in
    let tween := {| object := pos; endValues := target;
                    duration := duration; ease := ease; delay := delay |} in
    res <- forEachPosition state targetPositions rest (S i)
             {| rng := r; heap := heap w |} ;;
    Js.Return (tween :: fst res, snd res)
  end.

(** The effect on [[state, particleData]]. *)
Definition retarget (state : TreeState) (particleData : list Particle)
    (positionsRef : list Heap.addr) (w : World) : Js.t (list Tween * World) :=
  let targetPositions :=
    if TreeState_eqb state tree
    then map treePosition particleData
    else map galaxyPosition particleData in
  forEachPosition state targetPositions positionsRef 0 w.

Record Props : Type := { state : TreeState; particleCount : nat }.

(** One mounted component: the [useMemo] cache with the dependency it was
    computed for, [positionsRef.current], the [state] the effect last ran
    for, and the tweens that run created. *)
Record Instance : Type := {
  particleData : list Particle;
  memoDeps : nat;
  positionsRef : list Heap.addr;
  effectState : TreeState;
  tweens : list Tween
}.

(** One render and the effects after it.  [None] is the first render. *)
Definition render (props : Props) (mounted : option Instance) (w : World)
    : Js.t (Instance * World) :=
  (* useMemo(..., [particleCount]) *)
  let '(data, fresh, w) :=
    match mounted with
    | Some inst =>
      if (memoDeps inst =? particleCount props)%nat
      then (particleData inst, false, w)
      else let '(d, w) := arrayFrom (makeParticle (particleCount props))
                            (particleCount props) 0 w in (d, true, w)
    | None =>
      let '(d, w) := arrayFrom (makeParticle (particleCount props))
                       (particleCount props) 0 w in (d, true, w)
    end in
  (* useRef(particleData.map(p => [...p.treePosition])): the argument is
     evaluated on every render and kept on the first only *)
  let '(copies, hp) := copyTreePositions data (heap w) in
  let w := {| rng := rng w; heap := hp |} in
  let positions :=
    match mounted with
    | Some inst => positionsRef inst
    | None => copies
    end in
  (* useEffect(..., [state, particleData]) *)
  let rerun :=
    match mounted with
    | Some inst => fresh || negb (TreeState_eqb (effectState inst) (state props))
    | None => true
    end in
  if rerun then
    res <- retarget (state props) data positions w ;;
    Js.Return ({| particleData := data; memoDeps := particleCount props;
                  positionsRef := positions; effectState := state props;
                  tweens := fst res |}, snd res)
  else
    Js.Return ({| particleData := data; memoDeps := particleCount props;
                  positionsRef := positions;
                  effectState :=
                    match mounted with
                    | Some inst => effectState inst
                    | None => state props
                    end;
                  tweens :=
                    match mounted with
                    | Some inst => tweens inst
                    | None => []
                    end |}, w).

(** What can happen to a mounted component: a render with new props, or
    the animation library writing a value into the array of one of the
    tweens it was given. *)
Inductive Event : Type :=
| Render (props : Props)
| TweenWrite (k : nat) (v : Vec3).

Definition step (ev : Event) (c : Instance * World) : Js.t (Instance * World) :=
  match ev with
  | Render props => render props (Some (fst c)) (snd c)
  | TweenWrite k v =>
    match nth_error (tweens (fst c)) k with
    | Some tw =>
      Js.Return (fst c, {| rng := rng (snd c);
                           heap := Heap.write (object tw) v (heap (snd c)) |})
    | None => Js.Return c
    end
  end.

Fixpoint steps (evs : list Event) (c : Instance * World)
    : Js.t (Instance * World) :=
  match evs with
  | [] => Js.Return c
  | ev :: rest => c' <- step ev c ;; steps rest c'
  end.

(** The events that leave the particle count alone: mode switches and
    animation writes. *)
Definition keepsCount (n : nat) (ev : Event) : Prop :=
  match ev with
  | Render props => particleCount props = n
  | TweenWrite _ _ => True
  end.

(** The state of the last render among the events, [s0] if there is none. *)
Fixpoint lastState (s0 : TreeState) (evs : list Event) : TreeState :=
  match evs with
  | [] => s0
  | Render props :: rest => lastState (state props) rest
  | TweenWrite _ _ :: rest => lastState s0 rest
  end.

(** The array a particle is sent to in a given mode. *)
Definition targetOf (s : TreeState) (p : Particle) : Heap.addr :=
  if TreeState_eqb s tree then treePosition p else galaxyPosition p.

(** The target arrays of a particle table. *)
Definition targetAddrs (data : list Particle) : list Heap.addr :=
  map treePosition data ++ map galaxyPosition data.

(** What holds of a mounted component between events, for the table
    [data] and the position arrays [positions] made at mount time and the
    heap [h0] right after mounting: the component still has that table
    and those position arrays, its tweens animate the position arrays,
    each towards the mount-time contents of the target of its particle in
    the mode the effect last ran for, and the target arrays still hold
    their mount-time contents. *)
Definition targetsIntact (n : nat) (data : list Particle)
    (positions : list Heap.addr) (h0 : Heap.t) (c : Instance * World) : Prop :=
  particleData (fst c) = data /\
  memoDeps (fst c) = n /\
  positionsRef (fst c) = positions /\
  map object (tweens (fst c)) = positions /\
  map endValues (tweens (fst c)) =
    map (fun p => Heap.read h0 (targetOf (effectState (fst c)) p)) data /\
  (forall a, In a (targetAddrs data) ->
     (a < Heap.next (heap (snd c)))%nat /\
     Heap.read (heap (snd c)) a = Heap.read h0 a).

End Particles.

(* ------------------------------------------------------------------ *)
(** ** [THREE.Vector3], as far as the integrator uses it *)

Module Vector3.

Local Open Scope R_scope.

Record t : Type := mk { x : R; y : R; z : R }.

(** [new THREE.Vector3(...array)] *)
Definition ofArray (a : Vec3) : t :=
  let '(ax, ay, az) := a in mk ax ay az.

Definition clone (v : t) : t := mk (x v) (y v) (z v).

Definition sub (v w : t) : t := mk (x v - x w) (y v - y w) (z v - z w).

Definition add (v w : t) : t := mk (x v + x w) (y v + y w) (z v + z w).

Definition multiplyScalar (v : t) (s : R) : t := mk (x v * s) (y v * s) (z v * s).

End Vector3.

(* ------------------------------------------------------------------ *)
(** ** The component [PhotoCards]: the per-frame spring integrator *)

Module PhotoCards.

Import Random Formation.
Local Open Scope R_scope.

(** An array of photo URLs as a prop: [ref] is the identity of the
    array object, which is what the dependency list of a hook compares. *)
Record PhotoArray : Type := { ref : nat; urls : list String.string }.

(** An entry of [photoData]. *)
Module Photo.
Record t : Type := mk {
  url : String.string;
  treePosition : Vec3;
  galaxyPosition : Vec3
}.
End Photo.

Definition SPRING_STIFFNESS : R := 25.
Definition SPRING_DAMPING : R := 8.
Definition SCALE_STIFFNESS : R := 30.
Definition SCALE_DAMPING : R := 10.

(** [CardData] without the texture fields, which the integrator does not
    read. *)
Record CardData : Type := {
  treePosition : Vec3;
  galaxyPosition : Vec3;
  position : Vector3.t;
  velocity : Vector3.t;
  scale : R;
  scaleVelocity : R;
  time : R
}.

(** [focusedIndex === i], with [None] for [null]. *)
Definition isFocusedAt (focusedIndex : option nat) (i : nat) : bool :=
  match focusedIndex with
  | Some j => (j =? i)%nat
  | None => false
  end.

(** The body of the loop in [useFrame] for card [i], past the
    [continue]. *)
Definition updateCard (state : TreeState) (focusedIndex : option nat)
    (dt : R) (i : nat) (card : CardData) : CardData :=
  let time := time card + dt in
  let isFocused := isFocusedAt focusedIndex i in
  let targetPos :=
    if isFocused then Vector3.mk 0 0 0.8
    else if TreeState_eqb state tree
         then Vector3.ofArray (treePosition card)
         else Vector3.ofArray (galaxyPosition card) in
  let targetScale := if isFocused then 5 else 0.4 in
  let displacement := Vector3.sub (Vector3.clone (position card)) targetPos in
  let springForce := Vector3.multiplyScalar displacement (- SPRING_STIFFNESS) in
  let dampingForce :=
    Vector3.multiplyScalar (Vector3.clone (velocity card)) (- SPRING_DAMPING) in
  let acceleration := Vector3.add springForce dampingForce in
  let velocity :=
    Vector3.add (velocity card) (Vector3.multiplyScalar acceleration dt) in
  let position :=
    Vector3.add (position card)
      (Vector3.multiplyScalar (Vector3.clone velocity) dt) in
  let scaleDisplacement := scale card - targetScale in
  let scaleSpringForce := - SCALE_STIFFNESS * scaleDisplacement in
  let scaleDampingForce := - SCALE_DAMPING * scaleVelocity card in
  let scaleVelocity :=
    scaleVelocity card + (scaleSpringForce + scaleDampingForce) * dt in
  let scale := scale card + scaleVelocity * dt in
  {| treePosition := treePosition card;
     galaxyPosition := galaxyPosition card;
     position := position;
     velocity := velocity;
     scale := scale;
     scaleVelocity := scaleVelocity;
     time := time |}.

(** The loop of [useFrame], from index [i] on.  [meshRefs] says for each
    index whether [meshRefs.current[i]] holds a mesh group; a card without
    one is skipped. *)
Fixpoint updateCards (state : TreeState) (focusedIndex : option nat)
    (dt : R) (meshRefs : nat -> bool) (i : nat) (cards : list CardData)
    : list CardData :=
  match cards with
  | [] => []
  | card :: rest =>
    (if meshRefs i then updateCard state focusedIndex dt i card else card)
    :: updateCards state focusedIndex dt meshRefs (S i) rest
  end.

(** The [useFrame] callback: [delta] is the time since the last frame. *)
Definition useFrame (state : TreeState) (focusedIndex : option nat)
    (meshRefs : nat -> bool) (delta : R) (cards : list CardData)
    : list CardData :=
  let dt := Rmin delta 0.033 in
  updateCards state focusedIndex dt meshRefs 0 cards.

Record Props : Type := {
  state : TreeState;
  photos : option PhotoArray;
  focusedIndex : option nat
}.

(** [photos && photos.length > 0 ? photos : getDefaultPhotos()];
    [defaults] is the cached array [getDefaultPhotos] returns. *)
Definition photoUrlsOf (defaults : PhotoArray) (props : Props) : PhotoArray :=
  match photos props with
  | Some a => if (0 <? length (urls a))%nat then a else defaults
  | None => defaults
  end.

(** [urls.map((url, i) => ({ url, treePosition: ..., galaxyPosition: ... }))]
    from index [i] on, for [total] cards. *)
Fixpoint mapPhotos (total i : nat) (us : list String.string) (s : Random.t)
    : list Photo.t * Random.t :=
  match us with
  | [] => ([], s)
  | url :: rest =>
    let treePosition := generateTreePhotoPosition (INR i) (INR total) in
    let '(galaxyPosition, s) := generateGalaxyPhotoPosition s in
    let '(others, s) := mapPhotos total (S i) rest s in
    (Photo.mk url treePosition galaxyPosition :: others, s)
  end.

(** The callback of [useMemo(..., [photoUrls])]. *)
Definition makePhotoData (photoUrls : PhotoArray) (s : Random.t)
    : list Photo.t * Random.t :=
  mapPhotos (Nat.min (length (urls photoUrls)) 12) 0
            (firstn 12 (urls photoUrls)) s.

(** [existing?.f || fallback] for a number: the fallback is taken when
    there is no card or the number is 0. *)
Definition orElse (existing : option R) (fallback : R) : R :=
  match existing with
  | Some v => if Req_dec_T v 0 then fallback else v
  | None => fallback
  end.

(** [photoData.map((photo, i) => ...)] of the effect on [[photoData]],
    from index [i] on; [existing] is [cardDataRef.current] as the effect
    finds it. *)
Fixpoint initCards (existing : list CardData) (i : nat)
    (photoData : list Photo.t) (s : Random.t) : list CardData * Random.t :=
  match photoData with
  | [] => ([], s)
  | photo :: rest =>
    let old := nth_error existing i in
    let position :=
      match old with
      | Some c => position c
      | None => Vector3.ofArray (Photo.treePosition photo)
      end in
    let velocity :=
      match old with
      | Some c => velocity c
      | None => Vector3.mk 0 0 0
      end in
    let scale := orElse (option_map scale old) 0.4 in
    let scaleVelocity := orElse (option_map scaleVelocity old) 0 in
    let '(time, s) :=
      match old with
      | Some c =>
        if Req_dec_T (time c) 0
        then let '(u, s) := Math_random s in (u * PI * 2, s)
        else (time c, s)
      | None => let '(u, s) := Math_random s in (u * PI * 2, s)
      end in
    let data := {| treePosition := Photo.treePosition photo;
                   galaxyPosition := Photo.galaxyPosition photo;
                   position := position;
                   velocity := velocity;
                   scale := scale;
                   scaleVelocity := scaleVelocity;
                   time := time |} in
    let '(others, s) := initCards existing (S i) rest s in
    (data :: others, s)
  end.

(** One mounted component: the [useMemo] cache with the identity of the
    array it was computed for, [cardDataRef.current], and the props of
    the last render, which the frame callback reads. *)
Record Instance : Type := {
  photoUrlsDep : nat;
  photoData : list Photo.t;
  cardDataRef : list CardData;
  lastProps : Props
}.

(** One render and the effects after it.  [None] is the first render. *)
Definition render (defaults : PhotoArray) (props : Props)
    (mounted : option Instance) (s : Random.t) : Instance * Random.t :=
  let photoUrls := photoUrlsOf defaults props in
  (* useMemo(..., [photoUrls]) *)
  let '(data, fresh, s) :=
    match mounted with
    | Some inst =>
      if (photoUrlsDep inst =? ref photoUrls)%nat
      then (photoData inst, false, s)
      else let '(d, s) := makePhotoData photoUrls s in (d, true, s)
    | None => let '(d, s) := makePhotoData photoUrls s in (d, true, s)
    end in
  (* useEffect(..., [photoData]) *)
  let existing :=
    match mounted with
    | Some inst => cardDataRef inst
    | None => []
    end in
  let '(cards, s) :=
    if fresh then initCards existing 0 data s else (existing, s) in
  ({| photoUrlsDep := ref photoUrls; photoData := data;
      cardDataRef := cards; lastProps := props |}, s).

(** What can happen to a mounted component: a render with new props, or
    a frame. *)
Inductive Event : Type :=
| Render (props : Props)
| Frame (delta : R).

Definition step (defaults : PhotoArray) (meshRefs : nat -> bool)
    (c : Instance * Random.t) (ev : Event) : Instance * Random.t :=
  match ev with
  | Render props => render defaults props (Some (fst c)) (snd c)
  | Frame delta =>
    ({| photoUrlsDep := photoUrlsDep (fst c);
        photoData := photoData (fst c);
        cardDataRef :=
          useFrame (state (lastProps (fst c)))
                   (focusedIndex (lastProps (fst c)))
                   meshRefs delta (cardDataRef (fst c));
        lastProps := lastProps (fst c) |}, snd c)
  end.

Definition steps (defaults : PhotoArray) (meshRefs : nat -> bool)
    (evs : list Event) (c : Instance * Random.t) : Instance * Random.t :=
  fold_left (step defaults meshRefs) evs c.


(** *** The step as the specification words it *)

(** [target = focusTarget if focused else (treeTarget if mode == tree else
    galaxyTarget)] *)
Definition spec_target (mode : TreeState) (focused : bool) (card : CardData)
    : Vec3 :=
  if focused then (0, 0, 0.8)
  else match mode with
       | tree => treePosition card
       | _ => galaxyPosition card
       end.

Definition spec_targetScale (focused : bool) : R :=
  if focused then 5 else 0.4.

(** One coordinate of [velocity += (-25 (position - target) - 8 velocity) dt]. *)
Definition spec_velocity (p v target dt : R) : R :=
  v + (- 25 * (p - target) - 8 * v) * dt.

(** One coordinate of [position += velocity dt], with the new velocity. *)
Definition spec_position (p v' dt : R) : R := p + v' * dt.

Definition spec_scaleVelocity (s sv targetScale dt : R) : R :=
  sv + (- 30 * (s - targetScale) - 10 * sv) * dt.

Definition spec_scale (s sv' dt : R) : R := s + sv' * dt.

End PhotoCards.

(* ------------------------------------------------------------------ *)
(** ** Sample inputs *)

Module Samples.

Import Gesture String.StringSyntax.

(** A knuckle in the middle of the image, a fingertip above it (smaller
    [y]), one below it, and a thumb tip well away from the other tips. *)
Definition knuckle : Landmark.t := Landmark.mk 0.5 0.5 0.
Definition tipUp : Landmark.t := Landmark.mk 0.5 0.25 0.
Definition tipDown : Landmark.t := Landmark.mk 0.5 0.75 0.
Definition thumbAway : Landmark.t := Landmark.mk 0.25 0.5 0.

(** A frame of 21 landmarks with the given five fingertips (indices 4,
    8, 12, 16 and 20) and every other landmark at [knuckle]. *)
Definition hand (thumb index middle ring pinky : Landmark.t) : Hand :=
  map Some
    [knuckle; knuckle; knuckle; knuckle; thumb;
     knuckle; knuckle; knuckle; index;
     knuckle; knuckle; knuckle; middle;
     knuckle; knuckle; knuckle; ring;
     knuckle; knuckle; knuckle; pinky].

Definition pointingFrame : Hand :=
  hand thumbAway tipUp tipDown tipDown tipDown.

Definition fistFrame : Hand :=
  hand thumbAway tipDown tipDown tipDown tipDown.

Definition openFrame : Hand :=
  hand thumbAway tipUp tipUp tipUp tipUp.

Definition pinchFrame : Hand :=
  hand tipUp tipUp tipUp tipUp tipUp.

Definition shortFrame : Hand := map Some [knuckle; knuckle; knuckle].

(** [openFrame] with its thumb tip (landmark 4) [undefined]: still 21
    entries. *)
Definition holedFrame : Hand :=
  firstn 4 openFrame ++ None :: skipn 5 openFrame.

Definition tracked (landmarks : Hand) : Results :=
  {| multiHandLandmarks := Some [Some landmarks] |}.

Definition lost : Results := {| multiHandLandmarks := Some [] |}.

Definition click : MouseFallback.Press :=
  MouseFallback.MouseDown
    {| MouseFallback.clientX := 10; MouseFallback.clientY := 20 |}.

(** [Math.random] returning 0, 0, 0, 1/2 and then 0 for ever. *)
Definition rngTree : Random.t :=
  Random.mk (fun n => if (n =? 3)%nat then (1 / 2)%R else 0%R) 0.

(** [Math.random] returning 0, 1/4, 1/2 and then 0 for ever. *)
Definition rngGalaxy : Random.t :=
  Random.mk (fun n => if (n =? 1)%nat then (1 / 4)%R
                      else if (n =? 2)%nat then (1 / 2)%R else 0%R) 0.

(** [Math.random] returning 0 for ever. *)
Definition rngZero : Random.t := Random.mk (fun _ => 0%R) 0.

(** A photo card at rest on its tree position. *)
Definition cardAtRest : PhotoCards.CardData := {|
  PhotoCards.treePosition := (1, 2, 3)%R;
  PhotoCards.galaxyPosition := (4, 5, 6)%R;
  PhotoCards.position := Vector3.mk 1 2 3;
  PhotoCards.velocity := Vector3.mk 0 0 0;
  PhotoCards.scale := 0.4%R;
  PhotoCards.scaleVelocity := 0%R;
  PhotoCards.time := 0%R
|}.

Local Open Scope string_scope.

(** Two photos passed by the owner of the scene. *)
Definition twoPhotos : PhotoCards.PhotoArray :=
  {| PhotoCards.ref := 1; PhotoCards.urls := ["a.png"; "b.png"] |}.

(** The placeholder array. *)
Definition placeholders : PhotoCards.PhotoArray :=
  {| PhotoCards.ref := 0; PhotoCards.urls := ["placeholder.png"] |}.

Local Close Scope string_scope.

Definition photoProps (s : TreeState) : PhotoCards.Props :=
  {| PhotoCards.state := s; PhotoCards.photos := Some twoPhotos;
     PhotoCards.focusedIndex := None |}.


(** A world with an empty heap. *)
Definition emptyWorld : Particles.World := {|
  Particles.rng := rngZero;
  Particles.heap := Heap.mk (fun _ => (0, 0, 0)%R) 0
|}.

(** A round trip: to galaxy, an animation write, back to tree. *)
Definition roundTrip : list Particles.Event :=
  [Particles.Render {| Particles.state := galaxy; Particles.particleCount := 2 |};
   Particles.TweenWrite 0 (9, 9, 9)%R;
   Particles.Render {| Particles.state := tree; Particles.particleCount := 2 |}].

End Samples.

(* ------------------------------------------------------------------ *)
(** ** A pair of numbers [{ x, y }] *)

Module XY.
Record t : Type := mk { x : R; y : R }.
End XY.

(* ------------------------------------------------------------------ *)
(** ** The pointer fallback hook: moves and releases *)

Module Drag.

Import MouseFallback.
Local Open Scope R_scope.

(** [window.innerWidth] and [window.innerHeight] *)
Record Window : Type := { innerWidth : Z; innerHeight : Z }.

(** The press part of the hook together with what the move handlers
    touch: [mousePosition], [rotationRef.current] and the arguments
    [onOrbitChange] has been called with so far, oldest first. *)
Record State : Type := {
  hook : Hook;
  mousePosition : XY.t;
  rotationRef : XY.t;
  onOrbitChangeCalls : list XY.t
}.

Definition initialState : State := {|
  hook := initialHook;
  mousePosition := XY.mk 0.5 0.5;
  rotationRef := XY.mk 0 0;
  onOrbitChangeCalls := []
|}.

(** The block both move handlers run when the drag rotates the orbit. *)
Definition rotate (p : Pointer) (d : State) : State :=
  let deltaX := (IZR (clientX p) - IZR (fst (dragStartRef (hook d)))) * 0.005 in
  let deltaY := (IZR (clientY p) - IZR (snd (dragStartRef (hook d)))) * 0.005 in
  let rotation := XY.mk (XY.x (rotationRef d) + deltaY)
                        (XY.y (rotationRef d) + deltaX) in
  {| hook := {| isDragging := isDragging (hook d);
                lastClickRef := lastClickRef (hook d);
                dragStartRef := (clientX p, clientY p) |};
     mousePosition := mousePosition d;
     rotationRef := rotation;
     onOrbitChangeCalls := onOrbitChangeCalls d ++ [rotation] |}.

(** [handleMouseMove] *)
Definition handleMouseMove (enabled : bool) (currentState : TreeState)
    (window : Window) (e : MouseEvent) (d : State) : State :=
  if negb enabled then d
  else
    let d := {| hook := hook d;
                mousePosition :=
                  XY.mk (IZR (clientX e) / IZR (innerWidth window))
                        (IZR (clientY e) / IZR (innerHeight window));
                rotationRef := rotationRef d;
                onOrbitChangeCalls := onOrbitChangeCalls d |} in
    if isDragging (hook d) && TreeState_eqb currentState galaxy
    then rotate e d
    else d.

(** [handleTouchMove] *)
Definition handleTouchMove (enabled : bool) (currentState : TreeState)
    (e : TouchEvent) (d : State) : State :=
  if negb enabled || negb (isDragging (hook d))
     || negb (length (touches e) =? 1)%nat
  then d
  else
    match touches e with
    | [] => d
    | touch :: _ =>
      if TreeState_eqb currentState galaxy then rotate touch d else d
    end.

(** [handleMouseUp] and [handleTouchEnd] *)
Definition handleMouseUp (d : State) : State :=
  {| hook := {| isDragging := false;
                lastClickRef := lastClickRef (hook d);
                dragStartRef := dragStartRef (hook d) |};
     mousePosition := mousePosition d;
     rotationRef := rotationRef d;
     onOrbitChangeCalls := onOrbitChangeCalls d |}.

(** The press handlers on the whole state; the second component is the
    call to [onStateChange], if any. *)
Definition handleDown (enabled : bool) (currentState : TreeState)
    (now : Z) (p : Press) (d : State) : State * option TreeState :=
  let r := handlePress enabled currentState now p (hook d) in
  ({| hook := fst r;
      mousePosition := mousePosition d;
      rotationRef := rotationRef d;
      onOrbitChangeCalls := onOrbitChangeCalls d |}, snd r).

(** [simulatedGesture: isDragging ? 'open' : 'none'] *)
Definition simulatedGesture (d : State) : GestureType :=
  if isDragging (hook d) then open else none.

(** A pointer move: a mouse move or a touch move. *)
Inductive Move : Type :=
| MouseMove (e : MouseEvent)
| TouchMove (e : TouchEvent).

Definition handleMove (enabled : bool) (currentState : TreeState)
    (window : Window) (d : State) (m : Move) : State :=
  match m with
  | MouseMove e => handleMouseMove enabled currentState window e d
  | TouchMove e => handleTouchMove enabled currentState e d
  end.

Definition handleMoves (enabled : bool) (currentState : TreeState)
    (window : Window) (ms : list Move) (d : State) : State :=
  fold_left (handleMove enabled currentState window) ms d.

(** The pointer a move reports to the drag: that of a mouse move, or the
    only touch of a touch move. *)
Definition pointerOf (m : Move) : option Pointer :=
  match m with
  | MouseMove e => Some e
  | TouchMove e =>
    match touches e with
    | [touch] => Some touch
    | _ => None
    end
  end.

(** Where the drag stands after the moves, starting from [start]: the
    coordinates of the last move that reports a pointer. *)
Fixpoint lastPointer (start : Z * Z) (ms : list Move) : Z * Z :=
  match ms with
  | [] => start
  | m :: rest =>
    match pointerOf m with
    | Some p => lastPointer (clientX p, clientY p) rest
    | None => lastPointer start rest
    end
  end.

End Drag.

(* ------------------------------------------------------------------ *)
(** ** ParticleSystem.tsx: the ornament and ribbon generators *)

Module TreeShapes.

Import Random.
Local Open Scope R_scope.

(** [generateOrnamentPosition] *)
Definition generateOrnamentPosition (index total : R) (s : Random.t)
    : Vec3 * Random.t :=
  let height := 7 in
  let maxRadius := 3.2 in
  let t := (index + 0.5) / total in
  let y := t * height - height / 2 in
  let layerRadius := maxRadius * (1 - t * 0.9) in
  let '(u, s) := Math_random s in
  let angle := index * PI * 2.4 + u * 0.5 in
  ((cos angle * layerRadius * 0.85,
    y,
    sin angle * layerRadius * 0.85), s).

(** [generateRibbonPosition] *)
Definition generateRibbonPosition (index total : R) : Vec3 :=
  let height := 7.5 in
  let maxRadius := 3.3 in
  let t := index / total in
  let y := t * height - height / 2 in
  let layerRadius := maxRadius * (1 - t * 0.92) in
  let angle := t * PI * 8 in
  (cos angle * layerRadius,
   y,
   sin angle * layerRadius).

(** Distance of a point from the vertical axis. *)
Definition horizontal (p : Vec3) : R :=
  let '(x, _, z) := p in R_sqrt.sqrt (x * x + z * z).

End TreeShapes.

(* ------------------------------------------------------------------ *)
(** ** The scene component: [CameraController] *)

Module CameraController.

Local Open Scope R_scope.

(** The target the camera position is pulled towards in a frame. *)
Definition target (state : TreeState) (orbitRotation : XY.t)
    (handPosition : option XY.t) : Vector3.t :=
  let baseDistance := if TreeState_eqb state tree then 12 else 18 in
  let '(targetX, targetY) :=
    match handPosition with
    | Some hand =>
      if TreeState_eqb state galaxy
      then ((XY.x hand - 0.5) * 20, (0.5 - XY.y hand) * 10 + 2)
      else (sin (XY.y orbitRotation) * baseDistance,
            sin (XY.x orbitRotation) * 5 + 2)
    | None => (sin (XY.y orbitRotation) * baseDistance,
               sin (XY.x orbitRotation) * 5 + 2)
    end in
  let targetZ := cos (XY.y orbitRotation) * baseDistance in
  Vector3.mk targetX targetY targetZ.

(** The [useFrame] callback on [positionRef.current], which the camera
    position is then copied from. *)
Definition useFrame (state : TreeState) (orbitRotation : XY.t)
    (handPosition : option XY.t) (delta : R) (positionRef : Vector3.t)
    : Vector3.t :=
  let t := target state orbitRotation handPosition in
  let smoothFactor := 1 - exp (- 4 * delta) in
  Vector3.mk
    (Vector3.x positionRef + (Vector3.x t - Vector3.x positionRef) * smoothFactor)
    (Vector3.y positionRef + (Vector3.y t - Vector3.y positionRef) * smoothFactor)
    (Vector3.z positionRef + (Vector3.z t - Vector3.z positionRef) * smoothFactor).

End CameraController.

(* ------------------------------------------------------------------ *)
(** ** Runs of frames of the photo cards and their spring energy *)

Module Spring.

Import PhotoCards.
Local Open Scope R_scope.

(** The frames of a stretch in which mode and focus stay the same, one
    [delta] for each. *)
Definition runFrames (state : TreeState) (focusedIndex : option nat)
    (meshRefs : nat -> bool) (deltas : list R) (cards : list CardData)
    : list CardData :=
  fold_left (fun cs delta => useFrame state focusedIndex meshRefs delta cs)
            deltas cards.

(** The energy of a spring of stiffness [k] at displacement [e] and
    velocity [v]. *)
Definition energy (k e v : R) : R := k * (e * e) + v * v.

(** What a step of length [h] of a spring of stiffness [k] and damping
    [c] takes out of the velocity part of the energy: the step changes
    the coefficient of [v * v] by [- h * damp k c h]. *)
Definition damp (k c h : R) : R :=
  2 * c - (c * c + k) * h + 2 * c * k * (h * h) - k * (c * c) * (h * h * h).

(** The target of card [i], as [useFrame] computes it. *)
Definition targetPos (state : TreeState) (focusedIndex : option nat)
    (i : nat) (card : CardData) : Vector3.t :=
  Vector3.ofArray (spec_target state (isFocusedAt focusedIndex i) card).

(** The energy of the position spring of a card about a target, summed
    over the three coordinates. *)
Definition positionEnergy (t : Vector3.t) (card : CardData) : R :=
  energy SPRING_STIFFNESS
    (Vector3.x (position card) - Vector3.x t) (Vector3.x (velocity card)) +
  energy SPRING_STIFFNESS
    (Vector3.y (position card) - Vector3.y t) (Vector3.y (velocity card)) +
  energy SPRING_STIFFNESS
    (Vector3.z (position card) - Vector3.z t) (Vector3.z (velocity card)).

(** The energy of the scale spring of a card about a target scale. *)
Definition scaleEnergy (targetScale : R) (card : CardData) : R :=
  energy SCALE_STIFFNESS (scale card - targetScale) (scaleVelocity card).

(** Squared distance between two vectors. *)
Definition distance2 (a b : Vector3.t) : R :=
  (Vector3.x a - Vector3.x b) * (Vector3.x a - Vector3.x b) +
  (Vector3.y a - Vector3.y b) * (Vector3.y a - Vector3.y b) +
  (Vector3.z a - Vector3.z b) * (Vector3.z a - Vector3.z b).

End Spring.

(* ------------------------------------------------------------------ *)
(** ** What the photo cards keep of the photo table *)

Module PhotoTable.

Import Formation PhotoCards.

(** The table holds at most 12 entries, and the tree positions are
    spread over as many slots as it has entries. *)
Definition wellSpread (data : list Photo.t) : Prop :=
  (length data <= 12)%nat /\
  forall j ph,
    nth_error data j = Some ph ->
    Photo.treePosition ph
      = generateTreePhotoPosition (INR j) (INR (length data)).

(** The cards are the table's: as many, each with the tree position of
    its entry. *)
Definition cardsOfTable (c : Instance * Random.t) : Prop :=
  wellSpread (photoData (fst c)) /\
  map treePosition (cardDataRef (fst c))
    = map Photo.treePosition (photoData (fst c)).

End PhotoTable.

(* ------------------------------------------------------------------ *)
(** ** ParticleSystem.tsx, the frame callback of [ParticleSystem] *)

Module ParticleFrame.

Import Particles.
Local Open Scope R_scope.

(** What one iteration of the loop hands to the instanced mesh for
    index [i]: the position, the rotation about the vertical axis and
    the uniform scale of the matrix given to [setMatrixAt], and the
    colour given to [setColorAt]. *)
Record Drawn : Type := {
  drawnPosition : Vec3;
  rotationY : R;
  drawnScale : R;
  drawnColor : Color
}.

(** The body of [particleData.forEach((particle, i) => ...)], from index
    [i] on, at time [time].  [pos[0]] throws when [positionsRef.current]
    has no entry [i]. *)
Fixpoint forEachParticle (time : R) (positionsRef : list Heap.addr)
    (hp : Heap.t) (particleData : list Particle) (i : nat)
    : Js.t (list Drawn) :=
  match particleData with
  | [] => Js.Return []
  | particle :: rest =>
    pos <- Js.prop (Heap.read hp) (nth_error positionsRef i) ;;
    let breathe := sin (time * speed particle + phase particle) * 0.03 in
    let '(x, y, z) := pos in
    let scalePulse := 1 + sin (time * 3 + phase particle) * 0.15 in
    let drawn := {| drawnPosition := (x, y + breathe, z);
                    rotationY := time * 0.5 + phase particle;
                    drawnScale := scale particle * scalePulse;
                    drawnColor := color particle |} in
    others <- forEachParticle time positionsRef hp rest (S i) ;;
    Js.Return (drawn :: others)
  end.

(** The [useFrame] callback: [meshRef] says whether [meshRef.current]
    holds the mesh, [timeRef] is [timeRef.current].  It returns the new
    [timeRef.current] and what it drew, in the order of the indices. *)
Definition useFrame (meshRef : bool) (delta : R) (timeRef : R)
    (inst : Instance) (hp : Heap.t) : Js.t (R * list Drawn) :=
  if negb meshRef then Js.Return (timeRef, [])
  else
    let time := timeRef + delta in
    drawn <- forEachParticle time (positionsRef inst) hp
               (particleData inst) 0 ;;
    Js.Return (time, drawn).

End ParticleFrame.

(* ------------------------------------------------------------------ *)
(** ** Vocabulary for the gesture hook *)

Module GestureLog.

(** The landmarks [detectGesture] reads a coordinate of: the five tips
    it uses and the four knuckles. *)
Definition landmarksRead : list nat := [4; 8; 12; 16; 20; 5; 9; 13; 17].

(** Those of them that only the finger tests read: all but the thumb
    tip and the index tip, which the pinch test reads first. *)
Definition fingersRead : list nat := [12; 16; 20; 5; 9; 13; 17].

(** No gesture is reported twice in a row. *)
Fixpoint stutterFree (gs : list GestureType) : bool :=
  match gs with
  | [] => true
  | a :: rest =>
    match rest with
    | [] => true
    | b :: _ => negb (GestureType_eqb a b) && stutterFree rest
    end
  end.

End GestureLog.

(* ------------------------------------------------------------------ *)
(** ** More sample inputs *)

Module MoreSamples.

Import Gesture String.StringSyntax.

(** [Samples.fistFrame] with the wrist (landmark 0) moved. *)
Definition fistFrameMoved : Hand :=
  Some (Landmark.mk 0.125 0.875 0.5) :: tl Samples.fistFrame.

(** A hand of twelve landmarks. *)
Definition twelve : Hand := firstn 12 Samples.openFrame.

Definition pointer (px py : Z) : MouseFallback.Pointer :=
  {| MouseFallback.clientX := px; MouseFallback.clientY := py |}.

Definition window : Drag.Window :=
  {| Drag.innerWidth := 1000; Drag.innerHeight := 500 |}.

(** A hook in the middle of a drag that started at (100, 100). *)
Definition dragging : Drag.State := {|
  Drag.hook := {| MouseFallback.isDragging := true;
                  MouseFallback.lastClickRef := 5000;
                  MouseFallback.dragStartRef := (100, 100)%Z |};
  Drag.mousePosition := XY.mk 0.1 0.2;
  Drag.rotationRef := XY.mk 0 0;
  Drag.onOrbitChangeCalls := []
|}.

(** A photo card away from its target and moving. *)
Definition cardMoving : PhotoCards.CardData := {|
  PhotoCards.treePosition := (1, 2, 3)%R;
  PhotoCards.galaxyPosition := (4, 5, 6)%R;
  PhotoCards.position := Vector3.mk 2 0 1;
  PhotoCards.velocity := Vector3.mk 1 (-3) 0.5;
  PhotoCards.scale := 2%R;
  PhotoCards.scaleVelocity := 1%R;
  PhotoCards.time := 0.25%R
|}.

(** A card at rest on its galaxy target. *)
Definition cardAtGalaxy : PhotoCards.CardData := {|
  PhotoCards.treePosition := (1, 2, 3)%R;
  PhotoCards.galaxyPosition := (4, 5, 6)%R;
  PhotoCards.position := Vector3.mk 4 5 6;
  PhotoCards.velocity := Vector3.mk 0 0 0;
  PhotoCards.scale := 0.4%R;
  PhotoCards.scaleVelocity := 0%R;
  PhotoCards.time := 3%R
|}.

Local Open Scope string_scope.

(** Three photos in a new array. *)
Definition threePhotos : PhotoCards.PhotoArray :=
  {| PhotoCards.ref := 2; PhotoCards.urls := ["c.png"; "d.png"; "e.png"] |}.

(** A component showing the array [Samples.twoPhotos], with its first
    card in flight and its second at rest in the galaxy. *)
Definition inFlight : PhotoCards.Instance := {|
  PhotoCards.photoUrlsDep := 1;
  PhotoCards.photoData :=
    [PhotoCards.Photo.mk "a.png" (1, 2, 3)%R (4, 5, 6)%R;
     PhotoCards.Photo.mk "b.png" (1, 2, 3)%R (4, 5, 6)%R];
  PhotoCards.cardDataRef := [cardMoving; cardAtGalaxy];
  PhotoCards.lastProps := Samples.photoProps galaxy
|}.

Local Close Scope string_scope.

(** A component with one particle, whose three arrays are at the
    addresses 0, 1 and 2. *)
Definition oneParticle : Particles.Instance := {|
  Particles.particleData :=
    [{| Particles.treePosition := 0%nat;
        Particles.galaxyPosition := 1%nat;
        Particles.currentPosition := 2%nat;
        Particles.color := Particles.Build_Color 0.35 0.8 0.3;
        Particles.scale := 0.02%R;
        Particles.phase := 1%R;
        Particles.speed := 0.75%R |}];
  Particles.memoDeps := 1;
  Particles.positionsRef := [3%nat];
  Particles.effectState := tree;
  Particles.tweens := []
|}.

Definition threeMoves : list Drag.Move :=
  [Drag.MouseMove (pointer 130 90);
   Drag.TouchMove {| MouseFallback.touches := [pointer 50 60; pointer 1 2] |};
   Drag.MouseMove (pointer 300 200)].

End MoreSamples.

(* ================================================================== *)
(** * Properties *)

Lemma TreeState_eqb_spec (a b : TreeState) :
  reflect (a = b) (TreeState_eqb a b).
Proof. destruct a, b; constructor; congruence. Qed.

Lemma GestureType_eqb_spec (a b : GestureType) :
  reflect (a = b) (GestureType_eqb a b).
Proof. destruct a, b; constructor; congruence. Qed.

(* ------------------------------------------------------------------ *)
(** ** The classifier *)

Section Classifier.

Import Js Gesture GestureLog.

Lemma length_guard (l : Hand) : 21 <= length l -> (length l <? 21) = false.
Proof. intros H. apply Nat.ltb_ge. lia. Qed.

(** Past the length guard, with the thumb tip and the index tip there:
    the pinch test is on their distance, and the reads of the finger
    tests follow in the order of the source. *)
Lemma detectGesture_tips (l : Hand) (t4 t8 : Landmark.t) :
  21 <= length l ->
  at_ l 4 = Some t4 ->
  at_ l 8 = Some t8 ->
  detectGesture (Some l) =
    if (distance t4 t8 <? pinchThreshold)%float then Return pinch
    else
      iM <- prop Landmark.y (at_ l 5) ;;
      mT <- prop Landmark.y (at_ l 12) ;;
      mM <- prop Landmark.y (at_ l 9) ;;
      rT <- prop Landmark.y (at_ l 16) ;;
      rM <- prop Landmark.y (at_ l 13) ;;
      pT <- prop Landmark.y (at_ l 20) ;;
      pM <- prop Landmark.y (at_ l 17) ;;
      Return (classifyFingers (Landmark.y t8 <? iM)%float (mT <? mM)%float
                              (rT <? rM)%float (pT <? pM)%float).
Proof.
  intros Hlen H4 H8.
  unfold detectGesture, calculateFingerDistance.
  rewrite (length_guard l Hlen). cbn [prop bind].
  rewrite H4, H8. cbn [prop bind].
  fold (distance t4 t8).
  destruct (distance t4 t8 <? pinchThreshold)%float; reflexivity.
Qed.

(** A frame that passes the guard with its thumb tip or its index tip
    [undefined]: the distance of the pinch test throws. *)
Lemma detectGesture_no_tips (l : Hand) :
  21 <= length l ->
  at_ l 4 = None \/ at_ l 8 = None ->
  detectGesture (Some l) = Raise TypeError.
Proof.
  intros Hlen H.
  unfold detectGesture, calculateFingerDistance.
  rewrite (length_guard l Hlen). cbn [prop bind].
  destruct (at_ l 4) as [t4|]; [|reflexivity].
  destruct H as [H|H]; [discriminate|]. rewrite H. reflexivity.
Qed.

(** [detectGesture] on a frame that passes the guard and has the nine
    landmarks it reads, with the reads resolved. *)
Lemma detectGesture_long (l : Hand)
    (t4 t8 t12 t16 t20 m5 m9 m13 m17 : Landmark.t) :
  21 <= length l ->
  at_ l 4 = Some t4 -> at_ l 8 = Some t8 -> at_ l 12 = Some t12 ->
  at_ l 16 = Some t16 -> at_ l 20 = Some t20 ->
  at_ l 5 = Some m5 -> at_ l 9 = Some m9 ->
  at_ l 13 = Some m13 -> at_ l 17 = Some m17 ->
  detectGesture (Some l) =
    Return (if (distance t4 t8 <? pinchThreshold)%float then pinch
            else classifyFingers
                   (Landmark.y t8 <? Landmark.y m5)%float
                   (Landmark.y t12 <? Landmark.y m9)%float
                   (Landmark.y t16 <? Landmark.y m13)%float
                   (Landmark.y t20 <? Landmark.y m17)%float).
Proof.
  intros Hlen H4 H8 H12 H16 H20 H5 H9 H13 H17.
  rewrite (detectGesture_tips l t4 t8 Hlen H4 H8).
  rewrite H5, H12, H9, H16, H13, H20, H17. cbn [prop bind].
  destruct (distance t4 t8 <? pinchThreshold)%float; reflexivity.
Qed.

(** An entry that is not [undefined] is a landmark. *)
Lemma at_defined (l : Hand) (i : nat) :
  at_ l i <> None -> exists p, at_ l i = Some p.
Proof. destruct (at_ l i) as [p|]; [now exists p|congruence]. Qed.

(** With the nine landmarks it reads in place the classifier returns. *)
Lemma detectGesture_returns (l : Hand) :
  (forall i, In i landmarksRead -> at_ l i <> None) ->
  Js.returns (detectGesture (Some l)).
Proof.
  intros H.
  destruct (Nat.ltb_spec (length l) 21) as [Hs|Hl].
  - exists none. unfold detectGesture.
    now replace (length l <? 21) with true by (symmetry; apply Nat.ltb_lt; lia).
  - assert (Hat : forall i, In i landmarksRead -> exists p, at_ l i = Some p)
      by (intros i Hi; apply at_defined; now apply H).
    unfold landmarksRead in Hat.
    destruct (Hat 4) as [t4 H4]; [cbn; tauto|].
    destruct (Hat 8) as [t8 H8]; [cbn; tauto|].
    destruct (Hat 12) as [t12 H12]; [cbn; tauto|].
    destruct (Hat 16) as [t16 H16]; [cbn; tauto|].
    destruct (Hat 20) as [t20 H20]; [cbn; tauto|].
    destruct (Hat 5) as [m5 H5]; [cbn; tauto|].
    destruct (Hat 9) as [m9 H9]; [cbn; tauto|].
    destruct (Hat 13) as [m13 H13]; [cbn; tauto|].
    destruct (Hat 17) as [m17 H17]; [cbn; tauto|].
    rewrite (detectGesture_long l t4 t8 t12 t16 t20 m5 m9 m13 m17
               Hl H4 H8 H12 H16 H20 H5 H9 H13 H17).
    eexists. reflexivity.
Qed.

(** The finger pattern alone: three or four extended fingers give [open],
    none or one gives [fist], two give [none]. *)
Lemma classifyFingers_by_count (i m r p : bool) :
  let n := countTrue [i; m; r; p] in
  (3 <= n -> classifyFingers i m r p = open) /\
  (n <= 1 -> classifyFingers i m r p = fist) /\
  (n = 2 -> classifyFingers i m r p = none).
Proof. destruct i, m, r, p; cbn; repeat split; intros; try reflexivity; lia. Qed.

(** The [pointing] branch sits behind the [extendedCount <= 1] test, which
    its own condition implies: no finger pattern reaches it. *)
Lemma classifyFingers_never_pointing (i m r p : bool) :
  classifyFingers i m r p <> pointing.
Proof. destruct i, m, r, p; cbn; discriminate. Qed.

Lemma detectGesture_never_pointing (landmarks : option Hand) :
  detectGesture landmarks <> Return pointing.
Proof.
  destruct landmarks as [l|]; [|discriminate].
  destruct (Nat.ltb_spec (length l) 21) as [Hs|Hl].
  - unfold detectGesture.
    replace (length l <? 21) with true by (symmetry; apply Nat.ltb_lt; lia).
    discriminate.
  - destruct (at_ l 4) as [t4|] eqn:H4;
      [|rewrite (detectGesture_no_tips l Hl (or_introl H4)); discriminate].
    destruct (at_ l 8) as [t8|] eqn:H8;
      [|rewrite (detectGesture_no_tips l Hl (or_intror H8)); discriminate].
    rewrite (detectGesture_tips l t4 t8 Hl H4 H8).
    destruct (distance t4 t8 <? pinchThreshold)%float; [discriminate|].
    destruct (at_ l 5), (at_ l 12), (at_ l 9), (at_ l 16), (at_ l 13),
      (at_ l 20), (at_ l 17); cbn [prop bind]; try discriminate.
    intros E. injection E as E.
    now apply classifyFingers_never_pointing in E.
Qed.

(** Binary64 comparison: a number at or above another is not below it. *)
Lemma SFleb_not_SFltb (f1 f2 : SpecFloat.spec_float) :
  SpecFloat.SFleb f1 f2 = true -> SpecFloat.SFltb f2 f1 = false.
Proof.
  unfold SpecFloat.SFleb, SpecFloat.SFltb, SpecFloat.SFcompare.
  destruct f1 as [s1|s1| |s1 m1 e1], f2 as [s2|s2| |s2 m2 e2];
    try destruct s1; try destruct s2;
    try (intros; reflexivity); try discriminate.
  all: rewrite (Z.compare_antisym e1 e2).
  all: destruct (e1 ?= e2)%Z; cbn;
       try (intros; reflexivity); try discriminate.
  all: change (Pos.compare_cont Eq m1 m2) with (Pos.compare m1 m2);
       change (Pos.compare_cont Eq m2 m1) with (Pos.compare m2 m1);
       rewrite (Pos.compare_antisym m1 m2);
       destruct (Pos.compare m1 m2); cbn;
       try (intros; reflexivity); discriminate.
Qed.

Lemma leb_not_ltb (a b : float) :
  (a <=? b)%float = true -> (b <? a)%float = false.
Proof. rewrite leb_spec, ltb_spec. apply SFleb_not_SFltb. Qed.

(** With the thumb tip at or above the threshold from the index tip, a
    frame of at least 21 landmarks is classified by its finger pattern:
    [open] for three or four extended fingers, [fist] for none or one,
    [none] for two. *)
Lemma detectGesture_by_fingers (l : Hand)
    (t4 t8 t12 t16 t20 m5 m9 m13 m17 : Landmark.t) :
  21 <= length l ->
  at_ l 4 = Some t4 -> at_ l 8 = Some t8 -> at_ l 12 = Some t12 ->
  at_ l 16 = Some t16 -> at_ l 20 = Some t20 ->
  at_ l 5 = Some m5 -> at_ l 9 = Some m9 ->
  at_ l 13 = Some m13 -> at_ l 17 = Some m17 ->
  (pinchThreshold <=? distance t4 t8)%float = true ->
  let extendedCount :=
    countTrue [(Landmark.y t8 <? Landmark.y m5)%float;
               (Landmark.y t12 <? Landmark.y m9)%float;
               (Landmark.y t16 <? Landmark.y m13)%float;
               (Landmark.y t20 <? Landmark.y m17)%float] in
  (3 <= extendedCount -> detectGesture (Some l) = Return open) /\
  (extendedCount <= 1 -> detectGesture (Some l) = Return fist) /\
  (extendedCount = 2 -> detectGesture (Some l) = Return none).
Proof.
  intros Hlen H4 H8 H12 H16 H20 H5 H9 H13 H17 Hd.
  rewrite (detectGesture_long l t4 t8 t12 t16 t20 m5 m9 m13 m17
             Hlen H4 H8 H12 H16 H20 H5 H9 H13 H17).
  rewrite (leb_not_ltb _ _ Hd).
  pose proof (classifyFingers_by_count
                (Landmark.y t8 <? Landmark.y m5)%float
                (Landmark.y t12 <? Landmark.y m9)%float
                (Landmark.y t16 <? Landmark.y m13)%float
                (Landmark.y t20 <? Landmark.y m17)%float) as (Ho & Hf & Hn).
  cbv zeta.
  split; [intros Hc; now rewrite Ho|].
  split; [intros Hc; now rewrite Hf|].
  intros Hc. now rewrite Hn.
Qed.

(** C1. With the thumb tip away from the index tip (distance at or above
    the threshold), the index finger extended and the middle, ring and
    pinky fingers flexed, the classifier answers [fist]: the frame counts
    one extended finger, and the test for at most one comes before the
    test for pointing. *)
Theorem detectGesture_index_only_returns_fist :
  length Samples.pointingFrame = 21 /\
  (pinchThreshold <=? distance Samples.thumbAway Samples.tipUp)%float = true /\
  (Landmark.y Samples.tipUp <? Landmark.y Samples.knuckle)%float = true /\
  (Landmark.y Samples.tipDown <? Landmark.y Samples.knuckle)%float = false /\
  detectGesture (Some Samples.pointingFrame) = Return fist.
Proof. repeat split; vm_compute; reflexivity. Qed.

(** C3. Pinch precedence: on a frame of at least 21 landmarks whose thumb
    tip (landmark 4) and index tip (landmark 8) are closer than the
    threshold 0.06, the classifier answers [pinch], whatever the other
    landmarks are. *)
Theorem detectGesture_pinch_precedence
    (l : Hand) (thumbTip indexTip : Landmark.t) :
  21 <= length l ->
  at_ l 4 = Some thumbTip ->
  at_ l 8 = Some indexTip ->
  (distance thumbTip indexTip <? pinchThreshold)%float = true ->
  detectGesture (Some l) = Return pinch.
Proof.
  intros Hlen H4 H8 Hd.
  now rewrite (detectGesture_tips l thumbTip indexTip Hlen H4 H8), Hd.
Qed.

Lemma detectGesture_pinch_precedence_witness :
  detectGesture (Some Samples.pinchFrame) = Return pinch.
Proof.
  apply (detectGesture_pinch_precedence
           Samples.pinchFrame Samples.tipUp Samples.tipUp).
  - simpl. lia.
  - reflexivity.
  - reflexivity.
  - vm_compute. reflexivity.
Defined.

(** A frame that passes the guard throws exactly when a landmark the
    classifier gets to read is [undefined]: the thumb tip or the index
    tip, or, when these are not pinched, one that the finger tests
    read. *)
Lemma detectGesture_raises_iff (l : Hand) :
  21 <= length l ->
  detectGesture (Some l) = Raise TypeError <->
  at_ l 4 = None \/ at_ l 8 = None \/
  exists thumbTip indexTip,
    at_ l 4 = Some thumbTip /\ at_ l 8 = Some indexTip /\
    (distance thumbTip indexTip <? pinchThreshold)%float = false /\
    exists i, In i fingersRead /\ at_ l i = None.
Proof.
  intros Hlen.
  destruct (at_ l 4) as [t4|] eqn:H4;
    [|rewrite (detectGesture_no_tips l Hlen (or_introl H4)); tauto].
  destruct (at_ l 8) as [t8|] eqn:H8;
    [|rewrite (detectGesture_no_tips l Hlen (or_intror H8)); tauto].
  rewrite (detectGesture_tips l t4 t8 Hlen H4 H8).
  destruct (distance t4 t8 <? pinchThreshold)%float eqn:Hd.
  - split; [discriminate|].
    intros [H|[H|(a & b & Ha & Hb & Hab & _)]]; try discriminate.
    injection Ha as <-. injection Hb as <-. congruence.
  - match goal with
    | |- _ <-> ?P =>
      assert (Hthrow : forall i, In i fingersRead -> at_ l i = None -> P)
    end.
    { intros i Hi Hn. right. right. exists t4, t8.
      repeat split; try assumption. now exists i. }
    destruct (at_ l 5) as [m5|] eqn:H5; cbn [prop bind];
      [|split; [intros _; apply (Hthrow 5); [cbn; tauto|assumption]
               |reflexivity]].
    destruct (at_ l 12) as [t12|] eqn:H12; cbn [prop bind];
      [|split; [intros _; apply (Hthrow 12); [cbn; tauto|assumption]
               |reflexivity]].
    destruct (at_ l 9) as [m9|] eqn:H9; cbn [prop bind];
      [|split; [intros _; apply (Hthrow 9); [cbn; tauto|assumption]
               |reflexivity]].
    destruct (at_ l 16) as [t16|] eqn:H16; cbn [prop bind];
      [|split; [intros _; apply (Hthrow 16); [cbn; tauto|assumption]
               |reflexivity]].
    destruct (at_ l 13) as [m13|] eqn:H13; cbn [prop bind];
      [|split; [intros _; apply (Hthrow 13); [cbn; tauto|assumption]
               |reflexivity]].
    destruct (at_ l 20) as [t20|] eqn:H20; cbn [prop bind];
      [|split; [intros _; apply (Hthrow 20); [cbn; tauto|assumption]
               |reflexivity]].
    destruct (at_ l 17) as [m17|] eqn:H17; cbn [prop bind];
      [|split; [intros _; apply (Hthrow 17); [cbn; tauto|assumption]
               |reflexivity]].
    split; [discriminate|].
    intros [H|[H|(a & b & _ & _ & _ & i & Hi & Hn)]]; try discriminate.
    cbn in Hi.
    repeat (destruct Hi as [<-|Hi]; [congruence|]). contradiction.
Qed.

(** A frame of 21 entries whose thumb tip is [undefined] passes the
    length guard, and the distance of the pinch test throws on it. *)
Lemma detectGesture_throws_on_undefined_entry :
  length Samples.holedFrame = 21 /\
  at_ Samples.holedFrame 4 = None /\
  detectGesture (Some Samples.holedFrame) = Raise TypeError.
Proof. repeat split; vm_compute; reflexivity. Qed.

(** C4. Degenerate input: a missing frame, or one with fewer than 21
    entries, classifies as [none], whatever the entries are; a frame
    that has the nine landmarks the classifier reads (4, 8, 12, 16, 20,
    5, 9, 13, 17) gets a gesture; and the classifier throws, a
    TypeError, exactly on a frame of at least 21 entries in which the
    thumb tip or the index tip is [undefined] or [null], or these two
    are not pinched and a landmark of the finger tests is [undefined] or
    [null]. *)
Theorem detectGesture_degenerate_and_total (landmarks : option Hand) :
  (degenerate landmarks = true -> detectGesture landmarks = Return none) /\
  ((forall l, landmarks = Some l ->
      forall i, In i landmarksRead -> at_ l i <> None) ->
   Js.returns (detectGesture landmarks)) /\
  (detectGesture landmarks = Raise TypeError <->
   exists l,
     landmarks = Some l /\ 21 <= length l /\
     (at_ l 4 = None \/ at_ l 8 = None \/
      exists thumbTip indexTip,
        at_ l 4 = Some thumbTip /\ at_ l 8 = Some indexTip /\
        (distance thumbTip indexTip <? pinchThreshold)%float = false /\
        exists i, In i fingersRead /\ at_ l i = None)).
Proof.
  split; [|split].
  - destruct landmarks as [l|]; cbn [degenerate detectGesture].
    + now intros ->.
    + reflexivity.
  - intros H. destruct landmarks as [l|]; [|now exists none].
    apply detectGesture_returns. now apply H.
  - destruct landmarks as [l|].
    + destruct (Nat.ltb_spec (length l) 21) as [Hs|Hl].
      * unfold detectGesture.
        replace (length l <? 21) with true
          by (symmetry; apply Nat.ltb_lt; lia).
        split; [discriminate|].
        intros (l' & E & Hlen & _). injection E as <-. lia.
      * rewrite (detectGesture_raises_iff l Hl). split.
        -- intros H. now exists l.
        -- intros (l' & E & _ & H). now injection E as <-.
    + split; [discriminate|]. intros (l' & E & _). discriminate.
Qed.

Lemma detectGesture_degenerate_and_total_witness :
  detectGesture (Some Samples.shortFrame) = Return none /\
  detectGesture None = Return none /\
  Js.returns (detectGesture (Some Samples.openFrame)).
Proof.
  split; [|split].
  - apply (detectGesture_degenerate_and_total (Some Samples.shortFrame)).
    reflexivity.
  - apply (detectGesture_degenerate_and_total None).
    reflexivity.
  - apply (detectGesture_degenerate_and_total (Some Samples.openFrame)).
    intros l [= <-] i Hi. cbn in Hi.
    repeat (destruct Hi as [<-|Hi]; [discriminate|]). contradiction.
Defined.

End Classifier.

(* ------------------------------------------------------------------ *)
(** ** The results callback *)

Section ResultsCallback.

Import Js Gesture.

Variable hasCallback : bool.

(** A delivery with a hand in view, when it returns: the ref and the
    published gesture are the classified gesture, and the callback was
    called exactly if it is there and that gesture is not the one in the
    ref. *)
Lemma onResults_tracked (r : Results) (h h' : Hook) (g : GestureType) :
  frameGesture r = Some g ->
  onResults hasCallback r h = Return h' ->
  lastGestureRef h' = g /\
  gesture (state h') = g /\
  onGestureChangeCalls h' =
    if negb (GestureType_eqb g (lastGestureRef h)) && hasCallback
    then onGestureChangeCalls h ++ [g]
    else onGestureChangeCalls h.
Proof.
  unfold frameGesture, onResults.
  destruct (multiHandLandmarks r) as [[|l ls]|]; try discriminate.
  destruct (detectGesture l) as [g0|e]; [|discriminate].
  intros [= ->]. cbn [bind].
  destruct (prop (fun hand => at_ hand 9) l) as [palm|]; [|discriminate].
  cbn [bind].
  destruct (prop Landmark.x palm) as [px|]; [|discriminate].
  destruct (prop Landmark.y palm) as [py|]; [|discriminate].
  destruct (calculateFingerDistance l 4 8) as [d|]; [|discriminate].
  cbn [bind]. intros [= <-]. cbn.
  destruct (GestureType_eqb_spec g (lastGestureRef h)) as [->|Hne]; cbn; auto.
Qed.

(** A delivery without a hand calls nothing and leaves the ref alone. *)
Lemma onResults_untracked (r : Results) (h : Hook) :
  noHand r = true ->
  onResults hasCallback r h =
    Return {| state := {| gesture := gesture (state h);
                          handPosition := None;
                          pinchDistance := pinchDistance (state h);
                          isTracking := false |};
              lastGestureRef := lastGestureRef h;
              onGestureChangeCalls := onGestureChangeCalls h |}.
Proof.
  unfold noHand, onResults.
  destruct (multiHandLandmarks r) as [[|l ls]|]; try discriminate; reflexivity.
Qed.

(** A delivery with a hand in view that returns has classified the
    hand. *)
Lemma tracked_frame_classified (r : Results) (h h' : Hook) :
  noHand r = false ->
  onResults hasCallback r h = Return h' ->
  exists g, frameGesture r = Some g.
Proof.
  unfold noHand, frameGesture, onResults.
  destruct (multiHandLandmarks r) as [[|l ls]|]; try discriminate.
  intros _. destruct (detectGesture l) as [g|e]; [now exists g|discriminate].
Qed.

(** The ref always holds the gesture that is published. *)
Lemma lastGestureRef_is_published (frames : list Results) :
  let h := run hasCallback initialHook frames in
  lastGestureRef h = gesture (state h).
Proof.
  cbv zeta. unfold run.
  assert (G : forall h, lastGestureRef h = gesture (state h) ->
            lastGestureRef (fold_left (deliver hasCallback) frames h) =
            gesture (state (fold_left (deliver hasCallback) frames h))).
  { induction frames as [|r rest IH]; intros h Hh; [exact Hh|].
    cbn [fold_left]. apply IH. unfold deliver.
    destruct (onResults hasCallback r h) as [h'|e] eqn:E; [|exact Hh].
    destruct (noHand r) eqn:Hn.
    - rewrite (onResults_untracked r h Hn) in E. injection E as <-. exact Hh.
    - destruct (tracked_frame_classified r h h' Hn E) as [g Hg].
      destruct (onResults_tracked r h h' g Hg E) as (-> & -> & _).
      reflexivity. }
  apply G. reflexivity.
Qed.

(** The calls made over a run of deliveries that all carry a hand
    classified as [g]. *)
Lemma run_same_gesture (g : GestureType) (frames : list Results) :
  Forall (fun r => frameGesture r = Some g) frames ->
  forall h,
  exists fired,
    onGestureChangeCalls (run hasCallback h frames) =
      onGestureChangeCalls h ++ fired /\
    (fired = [] \/ fired = [g] /\ g <> lastGestureRef h).
Proof.
  induction 1 as [|r rest Hr _ IH]; intros h.
  - exists []. cbn. rewrite app_nil_r. auto.
  - unfold run in *. cbn [fold_left]. unfold deliver at 2.
    destruct (onResults hasCallback r h) as [h'|e] eqn:E; [|apply IH].
    destruct (onResults_tracked r h h' g Hr E) as (Hl & _ & Hc).
    destruct (IH h') as (fired & Hf & Hcase).
    assert (fired = []) as ->.
    { destruct Hcase as [?|[_ Hne]]; [assumption|congruence]. }
    rewrite app_nil_r in Hf. rewrite Hf, Hc.
    destruct (GestureType_eqb_spec g (lastGestureRef h)) as [Heq|Hne]; cbn.
    + exists []. rewrite app_nil_r. auto.
    + destruct hasCallback.
      * exists [g]. auto.
      * exists []. rewrite app_nil_r. auto.
Qed.

(** C7. Edge triggering.  A delivery calls [onGestureChange] at most
    once, and only with a newly classified gesture that differs from the
    one kept in [lastGestureRef] from the tick before (which is also the
    gesture published then, [lastGestureRef_is_published]); and over any
    run of deliveries that all carry a hand classified as the same
    gesture [g], the callback is called at most once. *)
Theorem onGestureChange_edge_triggered (h : Hook) :
  (forall r h',
     onResults hasCallback r h = Return h' ->
     onGestureChangeCalls h' = onGestureChangeCalls h \/
     exists g,
       frameGesture r = Some g /\ g <> lastGestureRef h /\
       onGestureChangeCalls h' = onGestureChangeCalls h ++ [g]) /\
  (forall frames g,
     Forall (fun r => frameGesture r = Some g) frames ->
     exists fired,
       onGestureChangeCalls (run hasCallback h frames) =
         onGestureChangeCalls h ++ fired /\
       length fired <= 1 /\
       (forall g', In g' fired -> g' = g /\ g <> lastGestureRef h)).
Proof.
  split.
  - intros r h' E.
    destruct (noHand r) eqn:Hn.
    + rewrite (onResults_untracked r h Hn) in E. injection E as <-. now left.
    + destruct (tracked_frame_classified r h h' Hn E) as [g Hg].
      destruct (onResults_tracked r h h' g Hg E) as (_ & _ & Hc).
      rewrite Hc.
      destruct (GestureType_eqb_spec g (lastGestureRef h)) as [Heq|Hne]; cbn;
        [now left|].
      destruct hasCallback; [right; exists g; auto | now left].
  - intros frames g Hall.
    destruct (run_same_gesture g frames Hall h) as (fired & Hf & Hcase).
    exists fired. split; [exact Hf|].
    destruct Hcase as [->|[-> Hne]]; cbn.
    + split; [lia|]. intros g' [].
    + split; [lia|]. intros g' [<-|[]]. auto.
Qed.

(** C10. A delivery without a detected hand keeps the published gesture
    (and the pinch distance), sets [isTracking] to [false] and
    [handPosition] to [null]; the ref is untouched and the callback is
    not called. *)
Theorem onResults_no_hand_keeps_gesture (r : Results) (h : Hook) :
  noHand r = true ->
  exists h',
    onResults hasCallback r h = Return h' /\
    gesture (state h') = gesture (state h) /\
    pinchDistance (state h') = pinchDistance (state h) /\
    isTracking (state h') = false /\
    handPosition (state h') = None /\
    lastGestureRef h' = lastGestureRef h /\
    onGestureChangeCalls h' = onGestureChangeCalls h.
Proof.
  intros Hn. eexists. split; [apply (onResults_untracked r h Hn)|].
  cbn. repeat split.
Qed.

End ResultsCallback.

Lemma onGestureChange_edge_triggered_witness :
  exists fired,
    Gesture.onGestureChangeCalls
      (Gesture.run true Gesture.initialHook
         [Samples.tracked Samples.fistFrame;
          Samples.tracked Samples.fistFrame;
          Samples.tracked Samples.fistFrame]) =
      Gesture.onGestureChangeCalls Gesture.initialHook ++ fired /\
    length fired <= 1 /\
    (forall g', In g' fired ->
       g' = fist /\ fist <> Gesture.lastGestureRef Gesture.initialHook).
Proof.
  apply (proj2 (onGestureChange_edge_triggered true Gesture.initialHook)
           [Samples.tracked Samples.fistFrame;
            Samples.tracked Samples.fistFrame;
            Samples.tracked Samples.fistFrame] fist).
  repeat constructor.
Defined.

(** The run of the witness does call the callback, once. *)
Example hold_fist_three_ticks :
  Gesture.onGestureChangeCalls
    (Gesture.run true Gesture.initialHook
       [Samples.tracked Samples.fistFrame;
        Samples.tracked Samples.fistFrame;
        Samples.tracked Samples.fistFrame]) = [fist].
Proof. vm_compute. reflexivity. Qed.

(** A hook that has published [open]. *)
Example published_open :
  Gesture.gesture
    (Gesture.state
       (Gesture.run true Gesture.initialHook
          [Samples.tracked Samples.openFrame])) = open.
Proof. vm_compute. reflexivity. Qed.

Lemma onResults_no_hand_keeps_gesture_witness :
  let h := Gesture.run true Gesture.initialHook
             [Samples.tracked Samples.openFrame] in
  exists h',
    Gesture.onResults true Samples.lost h = Js.Return h' /\
    Gesture.gesture (Gesture.state h') = Gesture.gesture (Gesture.state h) /\
    Gesture.pinchDistance (Gesture.state h') =
      Gesture.pinchDistance (Gesture.state h) /\
    Gesture.isTracking (Gesture.state h') = false /\
    Gesture.handPosition (Gesture.state h') = None /\
    Gesture.lastGestureRef h' = Gesture.lastGestureRef h /\
    Gesture.onGestureChangeCalls h' = Gesture.onGestureChangeCalls h.
Proof.
  intros h.
  apply (onResults_no_hand_keeps_gesture true Samples.lost h).
  reflexivity.
Defined.

(** A delivery with a hand of fewer than ten landmarks: the classifier
    answers [none], and [onResults] then throws on [landmarks[9].x]. *)
Example onResults_short_frame_throws :
  Gesture.detectGesture (Some Samples.shortFrame) = Js.Return none /\
  Gesture.onResults true (Samples.tracked Samples.shortFrame)
    Gesture.initialHook = Js.Raise Js.TypeError.
Proof. split; reflexivity. Qed.

(* ------------------------------------------------------------------ *)
(** ** Double press *)

Section DoublePress.

Import MouseFallback.
Local Open Scope Z_scope.

(** What an enabled press handler does with a mouse-down or a
    single-touch touch-start. *)
Lemma handlePress_enabled (currentState : TreeState) (now : Z)
    (p : Press) (h : Hook) :
  singlePointer p = true ->
  handlePress true currentState now p h =
    if now - lastClickRef h <? 300
    then ({| isDragging := isDragging h; lastClickRef := 0;
             dragStartRef := dragStartRef h |}, Some (toggled currentState))
    else (fst (handlePress true currentState now p h), None).
Proof.
  destruct p as [e|e]; cbn [singlePointer handlePress].
  - intros _. unfold handleMouseDown. cbn [negb].
    destruct (now - lastClickRef h <? 300); reflexivity.
  - intros Hone. unfold handleTouchStart. rewrite Hone. cbn [negb orb].
    destruct (touches e) as [|touch rest]; [discriminate|].
    destruct (now - lastClickRef h <? 300); reflexivity.
Qed.

(** A third press 100 ms after the second, which itself came 100 ms
    after the first: the second press toggles and resets the recorded
    time, so the third does not toggle. *)
Lemma third_quick_press_does_not_toggle :
  let h1 := fst (handlePress true tree 1000 Samples.click initialHook) in
  let second := handlePress true tree 1100 Samples.click h1 in
  let third := handlePress true galaxy 1200 Samples.click (fst second) in
  snd second = Some galaxy /\
  1200 - 1100 < 300 /\
  singlePointer Samples.click = true /\
  snd third = None.
Proof. cbv zeta. repeat split. Qed.

(** C9, as the code has it.  An enabled press handler that receives a
    mouse-down or a single-touch touch-start less than 300 ms after the
    recorded time of the last press calls [onStateChange] with the other
    mode ([galaxy] for [tree], [tree] otherwise) and resets the recorded
    time; the recorded time is that of the previous press unless that
    press completed a double press. *)
Theorem double_press_toggles (currentState : TreeState) (now : Z)
    (p : Press) (h : Hook) :
  singlePointer p = true ->
  (now - lastClickRef h < 300 ->
   snd (handlePress true currentState now p h) = Some (toggled currentState) /\
   lastClickRef (fst (handlePress true currentState now p h)) = 0) /\
  (300 <= now - lastClickRef h ->
   snd (handlePress true currentState now p h) = None /\
   lastClickRef (fst (handlePress true currentState now p h)) = now) /\
  toggled tree = galaxy /\ toggled galaxy = tree.
Proof.
  intros Hp. repeat split.
  - rewrite (handlePress_enabled _ _ _ _ Hp).
    now replace (now - lastClickRef h <? 300) with true
      by (symmetry; apply Z.ltb_lt; assumption).
  - rewrite (handlePress_enabled _ _ _ _ Hp).
    now replace (now - lastClickRef h <? 300) with true
      by (symmetry; apply Z.ltb_lt; assumption).
  - rewrite (handlePress_enabled _ _ _ _ Hp).
    now replace (now - lastClickRef h <? 300) with false
      by (symmetry; apply Z.ltb_ge; assumption).
  - destruct p as [e|e]; cbn [singlePointer handlePress] in *.
    + unfold handleMouseDown. cbn [negb].
      now replace (now - lastClickRef h <? 300) with false
        by (symmetry; apply Z.ltb_ge; assumption).
    + unfold handleTouchStart. rewrite Hp. cbn [negb orb].
      destruct (touches e) as [|touch rest]; [discriminate|].
      now replace (now - lastClickRef h <? 300) with false
        by (symmetry; apply Z.ltb_ge; assumption).
Qed.

Lemma double_press_toggles_witness :
  let h1 := fst (handlePress true tree 1000 Samples.click initialHook) in
  snd (handlePress true tree 1100 Samples.click h1) = Some galaxy /\
  lastClickRef (fst (handlePress true tree 1100 Samples.click h1)) = 0.
Proof.
  intros h1.
  apply (double_press_toggles tree 1100 Samples.click h1).
  - reflexivity.
  - reflexivity.
Defined.

End DoublePress.

(* ------------------------------------------------------------------ *)
(** ** Formation generators *)

Section Generators.

Import Random Formation.
Local Open Scope R_scope.

Lemma Math_pow_zero (x y : R) : x = 0 -> Math_pow x y = 0.
Proof. intros ->. unfold Math_pow. now destruct (Req_dec_T 0 0). Qed.

(** The position is a function of the arguments and of the two values
    [Math.random] hands out during the call. *)
Lemma generateTreePosition_value (index total : R) (s : Random.t) :
  fst (generateTreePosition index total s) =
    let t := Math_pow (index / total) 0.8 in
    let radius :=
      3.5 * (1 - t * 0.95) * (0.7 + draws s (S (cursor s)) * 0.3) in
    (cos (draws s (cursor s) * PI * 2) * radius,
     t * 8 - 8 / 2,
     sin (draws s (cursor s) * PI * 2) * radius).
Proof. reflexivity. Qed.

(** Each call takes two values from [Math.random]. *)
Lemma generateTreePosition_draws (index total : R) (s : Random.t) :
  snd (generateTreePosition index total s) =
    Random.mk (draws s) (S (S (cursor s))).
Proof. reflexivity. Qed.

Lemma rngTree_unit_interval : unit_interval Samples.rngTree.
Proof.
  intros n. unfold Samples.rngTree. cbn [draws].
  destruct (n =? 3)%nat; lra.
Qed.

(** Two calls in a row for the first of 4000 particles: [Math.random]
    gives the second call another radius variation, and the two
    positions differ. *)
Lemma generateTreePosition_not_deterministic :
  let first := generateTreePosition 0 4000 Samples.rngTree in
  let second := generateTreePosition 0 4000 (snd first) in
  unit_interval Samples.rngTree /\ fst first <> fst second.
Proof.
  cbv zeta. split; [apply rngTree_unit_interval|].
  rewrite generateTreePosition_draws, !generateTreePosition_value.
  cbv zeta. cbn [draws cursor Samples.rngTree Nat.eqb].
  rewrite (Math_pow_zero (0 / 4000) 0.8) by lra.
  replace (0 * PI * 2) with 0 by ring. rewrite cos_0.
  intros E. injection E as Ex _. lra.
Qed.

(** C2, as the code has it.  Two calls of the tree-position generator
    with the same (index, total) yield the same height; the other two
    coordinates are computed from an angle and a radius variation drawn
    with [Math.random], and the positions are identical when the two
    calls are handed the same two random values. *)
Theorem generateTreePosition_deterministic_up_to_draws
    (index total : R) (s s' : Random.t) :
  height_of (fst (generateTreePosition index total s)) =
  height_of (fst (generateTreePosition index total s')) /\
  (draws s (cursor s) = draws s' (cursor s') ->
   draws s (S (cursor s)) = draws s' (S (cursor s')) ->
   fst (generateTreePosition index total s) =
   fst (generateTreePosition index total s')).
Proof.
  rewrite !generateTreePosition_value. cbv zeta. split.
  - reflexivity.
  - intros -> ->. reflexivity.
Qed.

Lemma generateTreePosition_deterministic_up_to_draws_witness :
  fst (generateTreePosition 0 4000 Samples.rngZero) =
  fst (generateTreePosition 0 4000
         (snd (generateTreePosition 0 4000 Samples.rngZero))).
Proof.
  apply (generateTreePosition_deterministic_up_to_draws 0 4000
           Samples.rngZero
           (snd (generateTreePosition 0 4000 Samples.rngZero))).
  - reflexivity.
  - reflexivity.
Defined.

(** *** Galaxy shell *)

Lemma generateGalaxyPosition_value (s : Random.t) :
  fst (generateGalaxyPosition s) =
    let radius := 5 + draws s (cursor s) * 10 in
    let theta := draws s (S (cursor s)) * PI * 2 in
    let phi := acos (2 * draws s (S (S (cursor s))) - 1) in
    (radius * sin phi * cos theta,
     radius * sin phi * sin theta * 0.5,
     radius * cos phi).
Proof. reflexivity. Qed.

Lemma sin_cos_square (a : R) : sin a * sin a + cos a * cos a = 1.
Proof. exact (sin2_cos2 a). Qed.

(** Before the compression the point is at distance [radius] exactly. *)
Lemma shell_norm (radius phi theta : R) :
  0 <= radius ->
  norm (uncompressed (radius * sin phi * cos theta,
                      radius * sin phi * sin theta * 0.5,
                      radius * cos phi)) = radius.
Proof.
  intros Hr. unfold norm, uncompressed.
  pose proof (sin_cos_square phi) as Hp.
  pose proof (sin_cos_square theta) as Ht.
  replace (_ + _ + _) with
    (radius * radius *
       (sin phi * sin phi * (sin theta * sin theta + cos theta * cos theta)
        + cos phi * cos phi)) by (field; lra).
  rewrite Ht, Rmult_1_r, Hp, Rmult_1_r.
  now apply sqrt_square.
Qed.

(** After the compression it is between half of [radius] and [radius]. *)
Lemma compressed_norm (radius phi theta : R) :
  0 <= radius ->
  radius * 0.5 <=
    norm (radius * sin phi * cos theta,
          radius * sin phi * sin theta * 0.5,
          radius * cos phi) <= radius.
Proof.
  intros Hr. unfold norm.
  pose proof (sin_cos_square phi) as Hp.
  pose proof (sin_cos_square theta) as Ht.
  set (sp := sin phi) in *. set (cp := cos phi) in *.
  set (st := sin theta) in *. set (ct := cos theta) in *.
  set (q := radius * sp * ct * (radius * sp * ct)
            + radius * sp * st * 0.5 * (radius * sp * st * 0.5)
            + radius * cp * (radius * cp)).
  set (e := sp * sp * (ct * ct + st * st * (0.5 * 0.5)) + cp * cp).
  assert (Hq : q = radius * radius * e) by (unfold q, e; ring).
  assert (H0 : 0 <= sp * sp) by nra.
  assert (H1 : 0 <= cp * cp) by nra.
  assert (H2 : 0 <= st * st) by nra.
  assert (H3 : 0 <= ct * ct) by nra.
  assert (Hrr : 0 <= radius * radius) by nra.
  assert (Hlo : 0.5 * 0.5 <= e) by (unfold e; nra).
  assert (Hhi : e <= 1) by (unfold e; nra).
  split.
  - apply Rle_trans with (R_sqrt.sqrt (radius * 0.5 * (radius * 0.5))).
    + rewrite sqrt_square; lra.
    + apply sqrt_le_1_alt. rewrite Hq. nra.
  - apply Rle_trans with (R_sqrt.sqrt (radius * radius)).
    + apply sqrt_le_1_alt. rewrite Hq. nra.
    + rewrite sqrt_square; lra.
Qed.

Lemma rngGalaxy_unit_interval : unit_interval Samples.rngGalaxy.
Proof.
  intros n. unfold Samples.rngGalaxy. cbn [draws].
  destruct (n =? 1)%nat; [lra|]. destruct (n =? 2)%nat; lra.
Qed.

(** With the values 0, 1/4 and 1/2 from [Math.random] the generator
    returns the point (0, 2.5, 0): the radius is 5, the point lies on the
    vertical axis, and the compression halves its distance. *)
Lemma generateGalaxyPosition_inside_inner_radius :
  unit_interval Samples.rngGalaxy /\
  fst (generateGalaxyPosition Samples.rngGalaxy) = (0, 2.5, 0) /\
  norm (fst (generateGalaxyPosition Samples.rngGalaxy)) < 5.
Proof.
  split; [apply rngGalaxy_unit_interval|].
  assert (E : fst (generateGalaxyPosition Samples.rngGalaxy) = (0, 2.5, 0)).
  { rewrite generateGalaxyPosition_value. cbv zeta.
    cbn [draws cursor Samples.rngGalaxy Nat.eqb].
    replace (2 * (1 / 2) - 1) with 0 by lra.
    replace (1 / 4 * PI * 2) with (PI / 2) by lra.
    rewrite acos_0, sin_PI2, cos_PI2.
    f_equal; [f_equal|]; lra. }
  split; [exact E|].
  rewrite E. unfold norm.
  replace (0 * 0 + 2.5 * 2.5 + 0 * 0) with (2.5 * 2.5) by lra.
  rewrite sqrt_square; lra.
Qed.

Lemma generateGalaxyPhotoPosition_value (s : Random.t) :
  fst (generateGalaxyPhotoPosition s) =
    let radius := 4 + draws s (cursor s) * 6 in
    let theta := draws s (S (cursor s)) * PI * 2 in
    let phi := acos (2 * draws s (S (S (cursor s))) - 1) in
    (radius * sin phi * cos theta,
     radius * sin phi * sin theta * 0.5,
     radius * cos phi).
Proof. reflexivity. Qed.

(** C8, as the code has it.  Every point the galaxy generator returns is
    a point at distance between the inner and the outer radius from the
    origin (5 and 15 for the particles, 4 and 10 for the photo cards)
    whose vertical coordinate has then been multiplied by 0.5; the
    returned point itself is at distance between half the inner radius
    and the outer radius. *)
Theorem generateGalaxyPosition_bounds (s : Random.t) :
  unit_interval s ->
  (let p := fst (generateGalaxyPosition s) in
   5 <= norm (uncompressed p) <= 15 /\
   5 * 0.5 <= norm p <= 15) /\
  (let p := fst (generateGalaxyPhotoPosition s) in
   4 <= norm (uncompressed p) <= 10 /\
   4 * 0.5 <= norm p <= 10).
Proof.
  intros Hs. pose proof (Hs (cursor s)) as Hu.
  split; cbv zeta.
  - rewrite generateGalaxyPosition_value. cbv zeta.
    set (radius := 5 + draws s (cursor s) * 10).
    assert (Hr : 5 <= radius < 15) by (unfold radius; lra).
    split.
    + rewrite shell_norm by lra. lra.
    + pose proof (compressed_norm radius
                    (acos (2 * draws s (S (S (cursor s))) - 1))
                    (draws s (S (cursor s)) * PI * 2)) as Hc.
      lra.
  - rewrite generateGalaxyPhotoPosition_value. cbv zeta.
    set (radius := 4 + draws s (cursor s) * 6).
    assert (Hr : 4 <= radius < 10) by (unfold radius; lra).
    split.
    + rewrite shell_norm by lra. lra.
    + pose proof (compressed_norm radius
                    (acos (2 * draws s (S (S (cursor s))) - 1))
                    (draws s (S (cursor s)) * PI * 2)) as Hc.
      lra.
Qed.

Lemma generateGalaxyPosition_bounds_witness :
  let p := fst (generateGalaxyPosition Samples.rngGalaxy) in
  5 <= norm (uncompressed p) <= 15 /\
  5 * 0.5 <= norm p <= 15.
Proof.
  apply (generateGalaxyPosition_bounds Samples.rngGalaxy).
  intros n. unfold Samples.rngGalaxy. cbn [draws].
  destruct (n =? 1)%nat; [lra|]. destruct (n =? 2)%nat; lra.
Defined.

End Generators.

(* ------------------------------------------------------------------ *)
(** ** The spring integrator of the photo cards *)

Section Spring.

Import PhotoCards.
Local Open Scope R_scope.

Variable meshRefs : nat -> bool.

(** The loop visits every card once, under its own index. *)
Lemma updateCards_nth (state : TreeState) (focusedIndex : option nat)
    (dt : R) (cards : list CardData) :
  forall k j card,
    nth_error cards j = Some card ->
    nth_error (updateCards state focusedIndex dt meshRefs k cards) j =
      Some (if meshRefs (k + j)%nat
            then updateCard state focusedIndex dt (k + j) card
            else card).
Proof.
  induction cards as [|c rest IH]; intros k j card Hj.
  - destruct j; discriminate.
  - destruct j as [|j]; cbn [updateCards nth_error] in *.
    + injection Hj as ->. now rewrite Nat.add_0_r.
    + rewrite (IH (S k) j card Hj).
      now replace (S k + j)%nat with (k + S j)%nat by lia.
Qed.

(** A frame writes neither target of any card. *)
Lemma updateCards_targets (state : TreeState) (focusedIndex : option nat)
    (dt : R) (cards : list CardData) :
  forall k,
    map treePosition (updateCards state focusedIndex dt meshRefs k cards)
      = map treePosition cards /\
    map galaxyPosition (updateCards state focusedIndex dt meshRefs k cards)
      = map galaxyPosition cards.
Proof.
  induction cards as [|c rest IH]; intros k; cbn [updateCards map]; [auto|].
  destruct (IH (S k)) as [-> ->].
  destruct (meshRefs k); auto.
Qed.

(** The cards the effect builds carry the targets of [photoData]. *)
Lemma initCards_targets (existing : list CardData) (data : list Photo.t) :
  forall i s,
    map treePosition (fst (initCards existing i data s))
      = map Photo.treePosition data /\
    map galaxyPosition (fst (initCards existing i data s))
      = map Photo.galaxyPosition data.
Proof.
  induction data as [|photo rest IH]; intros i s; cbn [initCards]; [auto|].
  match goal with
  | |- context [let '(time, s0) := ?e in _] => destruct e as [time s1]
  end.
  specialize (IH (S i) s1).
  destruct (initCards existing (S i) rest s1) as [others s2].
  cbn [fst map treePosition galaxyPosition] in *.
  destruct IH as [-> ->]. auto.
Qed.

Variable defaults : PhotoArray.




(** The target vector of the source is the target of the specification. *)
Lemma target_agrees (state : TreeState) (focused : bool) (card : CardData) :
  (if focused then Vector3.mk 0 0 0.8
   else if TreeState_eqb state tree
        then Vector3.ofArray (treePosition card)
        else Vector3.ofArray (galaxyPosition card))
  = Vector3.ofArray (spec_target state focused card).
Proof. destruct focused, state; reflexivity. Qed.

(** C6. One frame of the photo-card loop, for a card that has its mesh
    group: with [dt = min(delta, 0.033)], the focus target (0, 0, 0.8)
    and scale 5 when the card is focused, otherwise the tree target in
    tree mode and else the galaxy target, with scale 0.4, the velocity
    becomes [v + (-25 (p - target) - 8 v) dt], the position
    [p + v' dt] with that new velocity, the scale velocity
    [sv + (-30 (s - targetScale) - 10 sv) dt] and the scale
    [s + sv' dt]. *)
Theorem useFrame_spring_step (state : TreeState) (focusedIndex : option nat)
    (delta : R) (cards : list CardData) (i : nat) (card : CardData) :
  nth_error cards i = Some card ->
  meshRefs i = true ->
  let dt := Rmin delta 0.033 in
  let focused := isFocusedAt focusedIndex i in
  let target := Vector3.ofArray (spec_target state focused card) in
  let targetScale := spec_targetScale focused in
  exists card',
    nth_error (useFrame state focusedIndex meshRefs delta cards) i = Some card' /\
    velocity card' =
      Vector3.mk
        (spec_velocity (Vector3.x (position card)) (Vector3.x (velocity card))
                       (Vector3.x target) dt)
        (spec_velocity (Vector3.y (position card)) (Vector3.y (velocity card))
                       (Vector3.y target) dt)
        (spec_velocity (Vector3.z (position card)) (Vector3.z (velocity card))
                       (Vector3.z target) dt) /\
    position card' =
      Vector3.mk
        (spec_position (Vector3.x (position card)) (Vector3.x (velocity card')) dt)
        (spec_position (Vector3.y (position card)) (Vector3.y (velocity card')) dt)
        (spec_position (Vector3.z (position card)) (Vector3.z (velocity card')) dt) /\
    scaleVelocity card' =
      spec_scaleVelocity (scale card) (scaleVelocity card) targetScale dt /\
    scale card' = spec_scale (scale card) (scaleVelocity card') dt.
Proof.
  intros Hi Hm dt focused target targetScale.
  exists (updateCard state focusedIndex dt i card). split.
  - unfold useFrame. fold dt.
    rewrite (updateCards_nth state focusedIndex dt cards 0 i card Hi).
    cbn [Nat.add]. now rewrite Hm.
  - unfold updateCard. fold focused. rewrite target_agrees. fold target.
    cbn [velocity position scaleVelocity scale].
    unfold Vector3.add, Vector3.sub, Vector3.multiplyScalar, Vector3.clone.
    cbn [Vector3.x Vector3.y Vector3.z].
    unfold spec_velocity, spec_position, spec_scaleVelocity, spec_scale,
      SPRING_STIFFNESS, SPRING_DAMPING, SCALE_STIFFNESS, SCALE_DAMPING.
    replace (if focused then 5 else 0.4) with targetScale by reflexivity.
    repeat split; try (f_equal; ring); ring.
Qed.

End Spring.

Lemma useFrame_spring_step_witness :
  exists card',
    nth_error (PhotoCards.useFrame galaxy None (fun _ => true) 0.05
                 [Samples.cardAtRest]) 0 = Some card' /\
    PhotoCards.scale card' =
      PhotoCards.spec_scale (PhotoCards.scale Samples.cardAtRest)
        (PhotoCards.scaleVelocity card') (Rmin 0.05 0.033).
Proof.
  destruct (useFrame_spring_step (fun _ => true) galaxy None 0.05
              [Samples.cardAtRest] 0 Samples.cardAtRest eq_refl eq_refl)
    as (card' & Hn & _ & _ & _ & Hs).
  exists card'. split; assumption.
Defined.

(* ------------------------------------------------------------------ *)
(** ** The heap *)

Section HeapFacts.

Import Heap.

Lemma extends_refl (h : Heap.t) : extends h h.
Proof. split; auto. Qed.

Lemma extends_trans (h1 h2 h3 : Heap.t) :
  extends h1 h2 -> extends h2 h3 -> extends h1 h3.
Proof.
  intros [L1 R1] [L2 R2]. split; [lia|].
  intros a Ha. rewrite R2 by lia. now apply R1.
Qed.

Lemma alloc_fresh (v : Vec3) (h : Heap.t) :
  fst (alloc v h) = next h /\
  next (snd (alloc v h)) = S (next h) /\
  read (snd (alloc v h)) (next h) = v /\
  extends h (snd (alloc v h)).
Proof.
  unfold alloc, extends, read. cbn. rewrite Nat.eqb_refl.
  repeat split; auto.
  intros a Ha. destruct (Nat.eqb_spec a (next h)); [lia|reflexivity].
Qed.

Lemma write_other (a b : addr) (v : Vec3) (h : Heap.t) :
  a <> b -> read (write a v h) b = read h b.
Proof.
  intros Hne. unfold write, read. cbn.
  destruct (Nat.eqb_spec b a); [congruence|reflexivity].
Qed.

End HeapFacts.

(* ------------------------------------------------------------------ *)
(** ** The photo table *)

Section PhotoTableSizes.

Import Random Formation PhotoCards PhotoTable.
Local Open Scope R_scope.

(** The entries [mapPhotos] builds: one for each URL, each with the tree
    position of its index. *)
Lemma mapPhotos_nth (total : nat) :
  forall us i s,
    length (fst (mapPhotos total i us s)) = length us /\
    forall j ph,
      nth_error (fst (mapPhotos total i us s)) j = Some ph ->
      Photo.treePosition ph
        = generateTreePhotoPosition (INR (i + j)) (INR total).
Proof.
  induction us as [|u rest IH]; intros i s.
  - cbn. split; [reflexivity|]. intros [|j] ph H; discriminate.
  - cbn [mapPhotos].
    destruct (generateGalaxyPhotoPosition s) as [g s1].
    specialize (IH (S i) s1).
    destruct (mapPhotos total (S i) rest s1) as [others s2].
    cbn [fst length] in *. destruct IH as [Hl Hn].
    split; [now rewrite Hl|].
    intros [|j] ph H; cbn [nth_error] in H.
    + injection H as <-. cbn [Photo.treePosition]. now rewrite Nat.add_0_r.
    + apply Hn in H. now replace (i + S j)%nat with (S i + j)%nat by lia.
Qed.

Lemma makePhotoData_spread (photoUrls : PhotoArray) (s : Random.t) :
  length (fst (makePhotoData photoUrls s))
    = Nat.min (length (urls photoUrls)) 12 /\
  wellSpread (fst (makePhotoData photoUrls s)).
Proof.
  unfold makePhotoData, wellSpread.
  destruct (mapPhotos_nth (Nat.min (length (urls photoUrls)) 12)
              (firstn 12 (urls photoUrls)) 0 s) as [Hl Hn].
  rewrite length_firstn, (Nat.min_comm 12) in Hl.
  split; [exact Hl|]. split; [lia|].
  intros j ph H. rewrite Hl. exact (Hn j ph H).
Qed.

Lemma initCards_length (existing : list CardData) (data : list Photo.t)
    (i : nat) (s : Random.t) :
  length (fst (initCards existing i data s)) = length data.
Proof.
  destruct (initCards_targets existing data i s) as [H _].
  apply (f_equal (@length Vec3)) in H. now rewrite !length_map in H.
Qed.


End PhotoTableSizes.

(* ------------------------------------------------------------------ *)
(** ** The particle table across mode switches *)

Section ParticleTargets.

Import Random Formation Particles.

(** A particle is three new arrays; nothing older is touched. *)
Lemma makeParticle_allocs (n i : nat) (w : World) :
  let r := makeParticle n i w in
  treePosition (fst r) = Heap.next (heap w) /\
  galaxyPosition (fst r) = S (Heap.next (heap w)) /\
  Heap.next (heap (snd r)) = S (S (S (Heap.next (heap w)))) /\
  Heap.extends (heap w) (heap (snd r)).
Proof.
  cbv zeta.
  unfold makeParticle, generateTreePosition, generateGalaxyPosition,
    Math_random, Heap.alloc.
  cbv beta iota zeta.
  cbn [draws cursor].
  destruct (Rlt_dec _ _);
    cbn [fst snd treePosition galaxyPosition heap Heap.next Heap.cells
         draws cursor];
    (repeat split; try reflexivity; cbn [Heap.next]; try lia);
    intros a Ha; unfold Heap.read at 1; cbn [Heap.cells Heap.next];
    repeat (match goal with
            | |- context [(a =? ?k)%nat] =>
              destruct (Nat.eqb_spec a k); [lia|]
            end); reflexivity.
Qed.

(** The table has [k] particles, all of whose target arrays are new,
    and nothing older is touched. *)
Lemma arrayFrom_makeParticle (n : nat) :
  forall k i w,
    let r := arrayFrom (makeParticle n) k i w in
    length (fst r) = k /\
    Heap.extends (heap w) (heap (snd r)) /\
    (forall a, In a (targetAddrs (fst r)) ->
       Heap.next (heap w) <= a < Heap.next (heap (snd r))).
Proof.
  induction k as [|k IH]; intros i w; cbv zeta.
  - cbn. split; [reflexivity|]. split; [apply extends_refl|]. intros a [].
  - cbn [arrayFrom].
    pose proof (makeParticle_allocs n i w) as Hm. cbv zeta in Hm.
    destruct (makeParticle n i w) as [p w1]. cbn [fst snd] in Hm.
    destruct Hm as (Ht & Hg & Hn & He).
    specialize (IH (S i) w1). cbv zeta in IH.
    destruct (arrayFrom (makeParticle n) k (S i) w1) as [rest w2].
    cbn [fst snd] in *. destruct IH as (Hlen & He2 & Hin).
    split; [cbn; now rewrite Hlen|].
    split; [eapply extends_trans; eassumption|].
    intros a H. unfold targetAddrs in *. cbn [map] in H.
    apply in_app_or in H. destruct He2 as [Hle _].
    destruct H as [[<-|H]|[<-|H]]; try lia;
      (assert (Hr : In a (map treePosition rest ++ map galaxyPosition rest))
         by (apply in_or_app; auto));
      apply Hin in Hr; lia.
Qed.

(** The copies are new arrays, one for each particle. *)
Lemma copyTreePositions_fresh (data : list Particle) :
  forall hp,
    let r := copyTreePositions data hp in
    length (fst r) = length data /\
    Heap.extends hp (snd r) /\
    (forall a, In a (fst r) -> Heap.next hp <= a < Heap.next (snd r)).
Proof.
  induction data as [|p rest IH]; intros hp; cbv zeta.
  - cbn. split; [reflexivity|]. split; [apply extends_refl|]. intros a [].
  - cbn [copyTreePositions].
    pose proof (alloc_fresh (Heap.read hp (treePosition p)) hp) as Ha.
    destruct (Heap.alloc (Heap.read hp (treePosition p)) hp) as [a1 h1].
    cbn [fst snd] in Ha. destruct Ha as (-> & Hn & _ & He).
    specialize (IH h1). cbv zeta in IH.
    destruct (copyTreePositions rest h1) as [others h2].
    cbn [fst snd] in *. destruct IH as (Hlen & He2 & Hin).
    pose proof (proj1 He2) as Hle.
    split; [cbn; now rewrite Hlen|].
    split; [eapply extends_trans; eassumption|].
    intros a [<-|H]; [lia|]. apply Hin in H. lia.
Qed.

(** With a target for every position the loop returns: it makes one
    tween for each position array, towards the current contents of the
    target array of the same index, and leaves the heap alone. *)
Lemma forEachPosition_tweens (state : TreeState) (targets : list Heap.addr) :
  forall positions pre post w,
    targets = pre ++ post ->
    length post = length positions ->
    exists tws r',
      forEachPosition state targets positions (length pre) w =
        Js.Return (tws, {| rng := r'; heap := heap w |}) /\
      map object tws = positions /\
      map endValues tws = map (Heap.read (heap w)) post.
Proof.
  induction positions as [|pos rest IH]; intros pre post w Ht Hl.
  - destruct post; [|discriminate]. exists [], (rng w).
    destruct w; cbn. auto.
  - destruct post as [|t post]; [discriminate|].
    cbn [forEachPosition].
    assert (Hn : nth_error targets (length pre) = Some t).
    { rewrite Ht, nth_error_app2 by lia. now rewrite Nat.sub_diag. }
    rewrite Hn. cbn [Js.prop Js.bind]. unfold Math_random.
    cbv beta iota zeta. cbn [draws cursor].
    destruct (IH (pre ++ [t]) post
                {| rng := Random.mk (draws (rng w)) (S (S (cursor (rng w))));
                   heap := heap w |})
      as (tws & r' & E & Ho & He).
    + rewrite Ht, <- app_assoc. reflexivity.
    + cbn in Hl. lia.
    + rewrite length_app in E. cbn [length] in E.
      rewrite Nat.add_1_r in E. rewrite E.
      cbn [Js.bind fst snd heap].
      eexists _, r'. split; [reflexivity|].
      cbn [map object endValues]. cbn [heap] in He.
      now rewrite Ho, He.
Qed.

(** The effect on a table with as many particles as position arrays. *)
Lemma retarget_tweens (state : TreeState) (data : list Particle)
    (positions : list Heap.addr) (w : World) :
  length positions = length data ->
  exists tws r',
    retarget state data positions w =
      Js.Return (tws, {| rng := r'; heap := heap w |}) /\
    map object tws = positions /\
    map endValues tws =
      map (fun p => Heap.read (heap w) (targetOf state p)) data.
Proof.
  intros Hl. unfold retarget.
  set (targets := if TreeState_eqb state tree
                  then map treePosition data else map galaxyPosition data).
  destruct (forEachPosition_tweens state targets positions [] targets w
              eq_refl)
    as (tws & r' & E & Ho & He).
  - unfold targets. destruct (TreeState_eqb state tree);
      now rewrite length_map.
  - exists tws, r'. split; [exact E|]. split; [exact Ho|].
    rewrite He. unfold targets, targetOf.
    destruct (TreeState_eqb state tree); now rewrite map_map.
Qed.

(** Mounting: the table is built, the position arrays are copies that
    share nothing with the target arrays, and the first effect aims each
    of them at the target of the initial mode. *)
Lemma mount_intact (s0 : TreeState) (n : nat) (w : World) :
  exists inst0 w0,
    render {| state := s0; particleCount := n |} None w
      = Js.Return (inst0, w0) /\
    targetsIntact n (particleData inst0) (positionsRef inst0) (heap w0) (inst0, w0) /\
    effectState inst0 = s0 /\
    length (positionsRef inst0) = length (particleData inst0) /\
    (forall a, In a (targetAddrs (particleData inst0)) ->
       ~ In a (positionsRef inst0)).
Proof.
  unfold render. cbn [particleCount state].
  pose proof (arrayFrom_makeParticle n n 0 w) as Hd. cbv zeta in Hd.
  destruct (arrayFrom (makeParticle n) n 0 w) as [d w1].
  cbn [fst snd] in Hd. destruct Hd as (Hdl & Hde & Hdin).
  pose proof (copyTreePositions_fresh d (heap w1)) as Hc. cbv zeta in Hc.
  destruct (copyTreePositions d (heap w1)) as [copies hp].
  cbn [fst snd] in Hc. destruct Hc as (Hcl & Hce & Hcin).
  cbn [rng heap].
  destruct (retarget_tweens s0 d copies {| rng := rng w1; heap := hp |} Hcl)
    as (tws & r' & E & Ho & He).
  rewrite E. cbn [Js.bind fst snd heap] in *.
  eexists _, _. split; [reflexivity|].
  cbn [particleData positionsRef effectState heap].
  split; [|split; [reflexivity|split; [exact Hcl|]]].
  - unfold targetsIntact.
    cbn [fst snd particleData memoDeps positionsRef tweens effectState heap].
    repeat (split; [first [reflexivity | assumption]|]).
    intros a Ha. split; [|reflexivity].
    apply Hdin in Ha. destruct Hce as [Hle _]. lia.
  - intros a Ha Hin. apply Hdin in Ha. apply Hcin in Hin. lia.
Qed.

(** What mounting with [n] particles leaves: a table of [n] particles
    computed for [n], and [n] position arrays. *)
Lemma mount_sizes (s0 : TreeState) (n : nat) (w : World) :
  exists inst0 w0,
    render {| state := s0; particleCount := n |} None w
      = Js.Return (inst0, w0) /\
    memoDeps inst0 = n /\
    length (particleData inst0) = n /\
    length (positionsRef inst0) = n /\
    length (tweens inst0) = n /\
    effectState inst0 = s0.
Proof.
  destruct (mount_intact s0 n w)
    as (inst0 & w0 & E & (_ & Hm & _ & Ho & _) & He & Hl & _).
  cbn [fst] in *.
  exists inst0, w0. split; [exact E|]. split; [exact Hm|].
  assert (Hd : length (particleData inst0) = n).
  { revert E. unfold render. cbn [particleCount state].
    pose proof (arrayFrom_makeParticle n n 0 w) as Hd. cbv zeta in Hd.
    destruct (arrayFrom (makeParticle n) n 0 w) as [d w1].
    cbn [fst] in Hd. destruct Hd as (Hdl & _).
    destruct (copyTreePositions d (heap w1)) as [copies hp].
    destruct (retarget s0 d copies _) as [[tws w2]|e];
      cbn [Js.bind]; [|discriminate].
    intros E. injection E as <- _. exact Hdl. }
  split; [exact Hd|]. split; [congruence|]. split; [|exact He].
  apply (f_equal (@length Heap.addr)) in Ho. rewrite length_map in Ho.
  congruence.
Qed.

Section Mounted.

Variable n : nat.
Variable data : list Particle.
Variable positions : list Heap.addr.
Variable h0 : Heap.t.

Hypothesis same_length : length positions = length data.
Hypothesis apart :
  forall a, In a (targetAddrs data) -> ~ In a positions.

Lemma targetOf_in (s : TreeState) (p : Particle) :
  In p data -> In (targetOf s p) (targetAddrs data).
Proof.
  intros Hp. unfold targetOf, targetAddrs. apply in_or_app.
  destruct (TreeState_eqb s tree); [left|right]; now apply in_map.
Qed.

(** A mode switch or an animation write keeps [targetsIntact]. *)
Lemma step_intact (ev : Event) (c : Instance * World) :
  keepsCount n ev ->
  targetsIntact n data positions h0 c ->
  exists c',
    step ev c = Js.Return c' /\
    targetsIntact n data positions h0 c' /\
    effectState (fst c') = lastState (effectState (fst c)) [ev].
Proof.
  destruct c as [inst w]. unfold targetsIntact. cbn [fst snd].
  intros Hk (Hd & Hm & Hp & Ho & He & Ht).
  destruct ev as [props|k v]; cbn [step fst snd lastState].
  - cbn in Hk. unfold render. rewrite Hm, Hk, Nat.eqb_refl.
    pose proof (copyTreePositions_fresh (particleData inst) (heap w)) as Hc.
    cbv zeta in Hc.
    destruct (copyTreePositions (particleData inst) (heap w)) as [copies hp].
    cbn [fst snd] in Hc. destruct Hc as (_ & [Hle Hrd] & _).
    cbn [rng heap orb].
    assert (Ht' : forall a, In a (targetAddrs data) ->
              a < Heap.next hp /\ Heap.read hp a = Heap.read h0 a).
    { intros a Ha. destruct (Ht a Ha) as [Hlt Hr].
      split; [lia|]. now rewrite Hrd. }
    destruct (TreeState_eqb_spec (effectState inst) (state props)) as [Hs|Hs];
      cbn [negb].
    + eexists. split; [reflexivity|]. cbn [fst snd].
      cbn [particleData memoDeps positionsRef tweens effectState heap].
      split; [|exact Hs].
      exact (conj Hd (conj eq_refl (conj Hp (conj Ho (conj He Ht'))))).
    + rewrite Hp, Hd.
      destruct (retarget_tweens (state props) data positions
                  {| rng := rng w; heap := hp |} same_length)
        as (tws & r' & E & Ho' & He').
      rewrite E. cbn [Js.bind fst snd heap] in *.
      eexists. split; [reflexivity|]. cbn [fst snd].
      cbn [particleData memoDeps positionsRef tweens effectState heap].
      split; [|reflexivity].
      refine (conj eq_refl (conj eq_refl (conj eq_refl (conj Ho' (conj _ Ht'))))).
      rewrite He'. apply map_ext_in. intros p Hin.
      apply Ht'. now apply targetOf_in.
  - destruct (nth_error (tweens inst) k) as [tw|] eqn:E.
    + eexists. split; [reflexivity|]. cbn [fst snd heap].
      split; [|reflexivity].
      refine (conj Hd (conj Hm (conj Hp (conj Ho (conj He _))))).
      intros a Ha. destruct (Ht a Ha) as [Hlt Hr].
      split; [exact Hlt|].
      rewrite write_other; [exact Hr|].
      intros <-. apply (apart _ Ha). rewrite <- Ho.
      apply in_map. eapply nth_error_In. exact E.
    + eexists. split; [reflexivity|]. cbn [fst snd].
      split; [|reflexivity].
      exact (conj Hd (conj Hm (conj Hp (conj Ho (conj He Ht))))).
Qed.

Lemma lastState_cons (s : TreeState) (ev : Event) (evs : list Event) :
  lastState s (ev :: evs) = lastState (lastState s [ev]) evs.
Proof. destruct ev; reflexivity. Qed.

Lemma steps_intact (evs : list Event) :
  Forall (keepsCount n) evs ->
  forall c,
    targetsIntact n data positions h0 c ->
    exists c',
      steps evs c = Js.Return c' /\
      targetsIntact n data positions h0 c' /\
      effectState (fst c') = lastState (effectState (fst c)) evs.
Proof.
  induction 1 as [|ev rest Hev _ IH]; intros c Hc.
  - exists c. auto.
  - destruct (step_intact ev c Hev Hc) as (c1 & E1 & Hc1 & Hs1).
    destruct (IH c1 Hc1) as (c2 & E2 & Hc2 & Hs2).
    exists c2. cbn [steps]. rewrite E1. cbn [Js.bind].
    split; [exact E2|]. split; [exact Hc2|].
    now rewrite Hs2, Hs1, <- lastState_cons.
Qed.

End Mounted.


End ParticleTargets.


(* ================================================================== *)
(** * Further properties of the code *)

(* ------------------------------------------------------------------ *)
(** ** The classifier and the results callback *)

Section GestureMore.

Import Js Gesture GestureLog.

(** X1. The classification of a frame of at least 21 landmarks depends only
    on the nine landmarks the classifier reads: two such frames that
    agree on landmarks 4, 8, 12, 16, 20, 5, 9, 13 and 17 get the same
    gesture, whatever the other landmarks and the length are. *)
Theorem detectGesture_reads_nine (l1 l2 : Hand) :
  21 <= length l1 ->
  21 <= length l2 ->
  (forall i, In i landmarksRead -> at_ l1 i = at_ l2 i) ->
  detectGesture (Some l1) = detectGesture (Some l2).
Proof.
  intros H1 H2 Hagree.
  unfold detectGesture, calculateFingerDistance.
  rewrite (length_guard l1 H1), (length_guard l2 H2).
  cbv zeta. cbn [prop bind].
  unfold landmarksRead in Hagree.
  rewrite (Hagree 4), (Hagree 8), (Hagree 12), (Hagree 16), (Hagree 20),
    (Hagree 5), (Hagree 9), (Hagree 13), (Hagree 17) by (cbn; tauto).
  reflexivity.
Qed.

Lemma detectGesture_reads_nine_witness :
  detectGesture (Some Samples.fistFrame)
  = detectGesture (Some MoreSamples.fistFrameMoved).
Proof.
  apply (detectGesture_reads_nine Samples.fistFrame MoreSamples.fistFrameMoved).
  - cbn. lia.
  - cbn. lia.
  - intros i Hi. unfold landmarksRead in Hi. cbn [In] in Hi.
    repeat (destruct Hi as [<-|Hi]; [reflexivity|]). destruct Hi.
Defined.

(** A frame that classifies as [pinch] has its thumb tip and index tip
    closer than the threshold. *)
Lemma detectGesture_pinch_close (l : Hand) :
  detectGesture (Some l) = Return pinch ->
  exists thumbTip indexTip,
    at_ l 4 = Some thumbTip /\ at_ l 8 = Some indexTip /\
    (distance thumbTip indexTip <? pinchThreshold)%float = true.
Proof.
  destruct (Nat.ltb_spec (length l) 21) as [Hs|Hl].
  - unfold detectGesture.
    replace (length l <? 21) with true by (symmetry; apply Nat.ltb_lt; lia).
    discriminate.
  - destruct (at_ l 4) as [t4|] eqn:H4;
      [|rewrite (detectGesture_no_tips l Hl (or_introl H4)); discriminate].
    destruct (at_ l 8) as [t8|] eqn:H8;
      [|rewrite (detectGesture_no_tips l Hl (or_intror H8)); discriminate].
    rewrite (detectGesture_tips l t4 t8 Hl H4 H8).
    destruct (distance t4 t8 <? pinchThreshold)%float eqn:Hd.
    + intros _. exists t4, t8. auto.
    + destruct (at_ l 5), (at_ l 12), (at_ l 9), (at_ l 16), (at_ l 13),
        (at_ l 20), (at_ l 17); cbn [prop bind]; try discriminate.
      match goal with
      | |- Return (classifyFingers ?a ?b ?c ?d) = _ -> _ =>
        destruct a, b, c, d; discriminate
      end.
Qed.

(** X2. [pinch] is answered only for a frame of at least 21 landmarks whose
    thumb tip and index tip are closer than the threshold. *)
Theorem detectGesture_pinch_only_if_close
    (landmarks : option Hand) :
  detectGesture landmarks = Return pinch ->
  exists l thumbTip indexTip,
    landmarks = Some l /\ 21 <= length l /\
    at_ l 4 = Some thumbTip /\ at_ l 8 = Some indexTip /\
    (distance thumbTip indexTip <? pinchThreshold)%float = true.
Proof.
  destruct landmarks as [l|]; [|discriminate].
  intros H.
  destruct (detectGesture_pinch_close l H) as (t4 & t8 & E4 & E8 & Hd).
  exists l, t4, t8. repeat split; try assumption.
  destruct (Nat.ltb_spec (length l) 21) as [Hs|Hl]; [|exact Hl].
  unfold detectGesture in H.
  replace (length l <? 21) with true in H
    by (symmetry; apply Nat.ltb_lt; lia).
  discriminate.
Qed.

Lemma detectGesture_pinch_only_if_close_witness :
  exists l thumbTip indexTip,
    Some Samples.pinchFrame = Some l /\ 21 <= length l /\
    at_ l 4 = Some thumbTip /\ at_ l 8 = Some indexTip /\
    (distance thumbTip indexTip <? pinchThreshold)%float = true.
Proof.
  apply (detectGesture_pinch_only_if_close (Some Samples.pinchFrame)).
  vm_compute. reflexivity.
Defined.

Variable hasCallback : bool.

(** Past the classifier, [onResults] reads landmark 9 and then landmarks
    4 and 8 of the hand. *)
Lemma onResults_reads (r : Results) (h : Hook) (l : Hand)
    (others : list (option Hand)) (g : GestureType) :
  multiHandLandmarks r = Some (Some l :: others) ->
  detectGesture (Some l) = Return g ->
  onResults hasCallback r h = Raise TypeError <->
  at_ l 4 = None \/ at_ l 8 = None \/ at_ l 9 = None.
Proof.
  intros Hr Hg. unfold onResults. rewrite Hr, Hg. cbn [bind prop].
  destruct (at_ l 9) as [palm|] eqn:H9; cbn [prop bind];
    [|split; [intros _; auto|reflexivity]].
  unfold calculateFingerDistance. cbn [prop bind].
  destruct (at_ l 4) as [t4|] eqn:H4; cbn [prop bind];
    [|split; [intros _; auto|reflexivity]].
  destruct (at_ l 8) as [t8|] eqn:H8; cbn [prop bind];
    [|split; [intros _; auto|reflexivity]].
  split; [discriminate|]. intros [H|[H|H]]; discriminate.
Qed.

(** X3. On a delivery whose [multiHandLandmarks] is absent or an array
    of hands, each hand [undefined], [null] or an array of landmark
    objects and [undefined] or [null] entries, [onResults] throws, a
    TypeError, exactly when there is a first hand and a landmark the
    callback gets to read is missing: the hand itself is [undefined] or
    [null]; or its landmark 4, 8 or 9 is missing (past the end of the
    array, [undefined] or [null]), so always when the hand has fewer
    than ten entries; or the hand has at least 21 entries, its thumb tip
    and index tip are not pinched, and a landmark of the finger tests is
    [undefined] or [null].  Every other delivery returns. *)
Theorem onResults_throws_iff_landmark_missing (r : Results) (h : Hook) :
  onResults hasCallback r h = Raise TypeError <->
  exists first others,
    multiHandLandmarks r = Some (first :: others) /\
    (first = None \/
     exists l,
       first = Some l /\
       (at_ l 4 = None \/ at_ l 8 = None \/ at_ l 9 = None \/
        21 <= length l /\
        exists thumbTip indexTip,
          at_ l 4 = Some thumbTip /\ at_ l 8 = Some indexTip /\
          (distance thumbTip indexTip <? pinchThreshold)%float = false /\
          exists i, In i fingersRead /\ at_ l i = None)).
Proof.
  destruct (multiHandLandmarks r) as [[|[l|] ls]|] eqn:Hr.
  - unfold onResults. rewrite Hr.
    split; [discriminate|]. intros (f & o & H & _). discriminate.
  - destruct (detectGesture (Some l)) as [g|e] eqn:Eg.
    + rewrite (onResults_reads r h l ls g Hr Eg). split.
      * intros H. exists (Some l), ls. split; [reflexivity|].
        right. exists l. split; [reflexivity|tauto].
      * intros (f & o & H & [Hf|(l' & Hl' & Hc)]);
          injection H as <- <-; [discriminate|].
        injection Hl' as <-.
        destruct Hc as [H4|[H8|[H9|(Hlen & Hx)]]]; auto.
        exfalso.
        assert (Et : detectGesture (Some l) = Raise TypeError)
          by (apply (detectGesture_raises_iff l Hlen); auto).
        congruence.
    + destruct e. split.
      * intros _. exists (Some l), ls. split; [reflexivity|].
        right. exists l. split; [reflexivity|].
        destruct (Nat.ltb_spec (length l) 21) as [Hs|Hl].
        -- unfold detectGesture in Eg.
           replace (length l <? 21) with true in Eg
             by (symmetry; apply Nat.ltb_lt; lia).
           discriminate.
        -- apply (detectGesture_raises_iff l Hl) in Eg.
           destruct Eg as [H4|[H8|Hx]]; auto.
      * intros _. unfold onResults. rewrite Hr, Eg. reflexivity.
  - unfold onResults. rewrite Hr. cbn [detectGesture bind prop]. split.
    + intros _. exists None, ls. auto.
    + reflexivity.
  - unfold onResults. rewrite Hr.
    split; [discriminate|]. intros (f & o & H & _). discriminate.
Qed.

(** What every hook state reached from the initial one satisfies. *)
Lemma run_invariant (P : Hook -> Prop) :
  P initialHook ->
  (forall h r h', P h -> onResults hasCallback r h = Return h' -> P h') ->
  forall frames, P (run hasCallback initialHook frames).
Proof.
  intros Hinit Hstep frames. unfold run.
  generalize initialHook Hinit.
  induction frames as [|r rest IH]; intros h Hh; [exact Hh|].
  cbn [fold_left]. apply IH. unfold deliver.
  destruct (onResults hasCallback r h) as [h'|e] eqn:E; [|exact Hh].
  now apply (Hstep h r h').
Qed.

(** A delivery that returns either carried no hand, and changed nothing
    but [isTracking] and [handPosition], or carried a hand classified as
    some gesture. *)
Lemma onResults_cases (r : Results) (h h' : Hook) :
  onResults hasCallback r h = Return h' ->
  (lastGestureRef h' = lastGestureRef h /\
   gesture (state h') = gesture (state h) /\
   pinchDistance (state h') = pinchDistance (state h) /\
   isTracking (state h') = false /\ handPosition (state h') = None /\
   onGestureChangeCalls h' = onGestureChangeCalls h) \/
  (exists g, frameGesture r = Some g /\
     lastGestureRef h' = g /\ gesture (state h') = g /\
     onGestureChangeCalls h' =
       if negb (GestureType_eqb g (lastGestureRef h)) && hasCallback
       then onGestureChangeCalls h ++ [g]
       else onGestureChangeCalls h).
Proof.
  intros E. destruct (noHand r) eqn:Hn.
  - left. rewrite (onResults_untracked hasCallback r h Hn) in E.
    injection E as <-. cbn. repeat split.
  - right. destruct (tracked_frame_classified hasCallback r h h' Hn E) as [g Hg].
    exists g. split; [exact Hg|].
    exact (onResults_tracked hasCallback r h h' g Hg E).
Qed.

Lemma stutterFree_snoc (gs : list GestureType) (g : GestureType) :
  stutterFree gs = true -> g <> last gs none ->
  stutterFree (gs ++ [g]) = true.
Proof.
  induction gs as [|a rest IH]; intros Hs Hne; [reflexivity|].
  destruct rest as [|b rest'].
  - cbn in *. destruct (GestureType_eqb_spec a g); [congruence|reflexivity].
  - cbn [app stutterFree] in *.
    apply andb_true_iff in Hs. destruct Hs as [Hab Hrest].
    rewrite Hab. cbn [andb]. now apply IH.
Qed.

(** X4. Over any sequence of deliveries from the initial hook, the calls to
    [onGestureChange] never repeat a gesture twice in a row, the first
    call (if there is one) is not with [none], and when the callback is
    supplied the last call is with the gesture the hook publishes. *)
Theorem onGestureChange_never_stutters (frames : list Results) :
  let h := run hasCallback initialHook frames in
  stutterFree (onGestureChangeCalls h) = true /\
  hd_error (onGestureChangeCalls h) <> Some none /\
  (hasCallback = true ->
   last (onGestureChangeCalls h) none = gesture (state h)).
Proof.
  cbv zeta.
  pose (P := fun h : Hook =>
    stutterFree (onGestureChangeCalls h) = true /\
    hd_error (onGestureChangeCalls h) <> Some none /\
    (hasCallback = true ->
     last (onGestureChangeCalls h) none = lastGestureRef h) /\
    (hasCallback = false -> onGestureChangeCalls h = []) /\
    lastGestureRef h = gesture (state h)).
  assert (HP : P (run hasCallback initialHook frames)).
  { apply run_invariant.
    - unfold P. cbn. repeat split; auto. discriminate.
    - intros h r h' (Hs & Hh & Hl & He & Hg) E.
      destruct (onResults_cases r h h' E)
        as [(Er & Eg & _ & _ & _ & Ec)|(g & _ & Er & Eg & Ec)]; unfold P.
      + rewrite Ec, Er, Eg. auto.
      + rewrite Er, Eg, Ec.
        destruct (GestureType_eqb_spec g (lastGestureRef h)) as [Heq|Hne];
          cbn [negb andb].
        * split; [exact Hs|]. split; [exact Hh|].
          split; [intros Hcb; rewrite (Hl Hcb); congruence|].
          split; [exact He|reflexivity].
        * destruct hasCallback eqn:Hcb.
          -- specialize (Hl eq_refl).
             split; [apply stutterFree_snoc; [exact Hs|congruence]|].
             split; [|split; [intros _; apply last_last|
                              split; [discriminate|reflexivity]]].
             destruct (onGestureChangeCalls h) as [|a rest] eqn:El.
             ++ cbn in *. congruence.
             ++ exact Hh.
          -- rewrite (He eq_refl) in *.
             split; [reflexivity|]. split; [discriminate|].
             split; [discriminate|]. split; reflexivity. }
  destruct HP as (Hs & Hh & Hl & _ & Hg).
  split; [exact Hs|]. split; [exact Hh|].
  intros Hcb. rewrite <- Hg. now apply Hl.
Qed.

(** X5. The classifier's [pointing] never gets out: over any sequence of
    deliveries from the initial hook the published gesture is not
    [pointing], and [onGestureChange] is never called with [pointing]. *)
Theorem pointing_never_published (frames : list Results) :
  let h := run hasCallback initialHook frames in
  gesture (state h) <> pointing /\
  ~ In pointing (onGestureChangeCalls h).
Proof.
  cbv zeta. apply run_invariant.
  - cbn. split; [discriminate|tauto].
  - intros h r h' (Hg & Hc) E.
    destruct (onResults_cases r h h' E)
      as [(_ & Eg & _ & _ & _ & Ec)|(g & Hf & _ & Eg & Ec)].
    + rewrite Eg, Ec. auto.
    + assert (Hp : g <> pointing).
      { unfold frameGesture in Hf.
        destruct (multiHandLandmarks r) as [[|l ls]|]; try discriminate.
        pose proof (detectGesture_never_pointing l) as Hn.
        destruct (detectGesture l) as [g0|e]; [|discriminate].
        injection Hf as <-. congruence. }
      rewrite Eg, Ec. split; [exact Hp|].
      destruct (negb (GestureType_eqb g (lastGestureRef h)) && hasCallback);
        [|exact Hc].
      intros Hin. apply in_app_or in Hin. destruct Hin as [Hin|[Heq|[]]].
      * now apply Hc.
      * now apply Hp.
Qed.

(** X6. In every state published along a sequence of deliveries from the
    initial hook: a hand position is there exactly while tracking, and
    the gesture is [pinch] only with a pinch distance below the
    threshold. *)
Theorem published_state_consistent (frames : list Results) :
  let s := state (run hasCallback initialHook frames) in
  (isTracking s = true <-> handPosition s <> None) /\
  (gesture s = pinch ->
   (pinchDistance s <? pinchThreshold)%float = true).
Proof.
  cbv zeta. apply run_invariant.
  - cbn. split; [split; [discriminate|congruence]|discriminate].
  - intros h r h' (Ht & Hp) E.
    assert (E' := E). unfold onResults in E'.
    destruct (multiHandLandmarks r) as [[|l ls]|].
    + injection E' as <-. cbn.
      split; [split; [discriminate|congruence]|exact Hp].
    + destruct (detectGesture l) as [g|e] eqn:Eg; [|discriminate].
      cbn [bind] in E'.
      destruct l as [l|]; [|discriminate]. cbn [prop bind] in E'.
      destruct (prop Landmark.x (at_ l 9)) as [px|]; [|discriminate].
      destruct (prop Landmark.y (at_ l 9)) as [py|]; [|discriminate].
      cbn [bind] in E'.
      destruct (calculateFingerDistance (Some l) 4 8) as [d|] eqn:Ed;
        [|discriminate].
      cbn [bind] in E'. injection E' as <-. cbn.
      split; [split; [discriminate|reflexivity]|].
      intros ->.
      destruct (detectGesture_pinch_close l Eg)
        as (t4 & t8 & E4 & E8 & Hd).
      unfold calculateFingerDistance in Ed. cbn [prop bind] in Ed.
      rewrite E4, E8 in Ed.
      cbn [prop bind] in Ed. injection Ed as <-. exact Hd.
    + injection E' as <-. cbn.
      split; [split; [discriminate|congruence]|exact Hp].
Qed.

End GestureMore.

Lemma onResults_throws_iff_landmark_missing_witness :
  Gesture.onResults true (Samples.tracked Samples.shortFrame)
    Gesture.initialHook = Js.Raise Js.TypeError /\
  Gesture.onResults true (Samples.tracked Samples.holedFrame)
    Gesture.initialHook = Js.Raise Js.TypeError.
Proof.
  split.
  - apply (onResults_throws_iff_landmark_missing true
             (Samples.tracked Samples.shortFrame) Gesture.initialHook).
    exists (Some Samples.shortFrame), []. split; [reflexivity|].
    right. exists Samples.shortFrame. split; [reflexivity|].
    left. reflexivity.
  - apply (onResults_throws_iff_landmark_missing true
             (Samples.tracked Samples.holedFrame) Gesture.initialHook).
    exists (Some Samples.holedFrame), []. split; [reflexivity|].
    right. exists Samples.holedFrame. split; [reflexivity|].
    left. reflexivity.
Defined.

(* ------------------------------------------------------------------ *)
(** ** Dragging with the pointer *)

Section Dragging.

Import MouseFallback Drag.
Local Open Scope R_scope.

Variable window : Window.

Lemma XY_eq (a b c d : R) : a = c -> b = d -> XY.mk a b = XY.mk c d.
Proof. now intros -> ->. Qed.

(** One move of a drag in galaxy mode. *)
Lemma handleMove_dragging (m : Move) (d : State) :
  isDragging (hook d) = true ->
  let d' := handleMove true galaxy window d m in
  let start := dragStartRef (hook d) in
  let stop := lastPointer start [m] in
  isDragging (hook d') = true /\
  dragStartRef (hook d') = stop /\
  rotationRef d' =
    XY.mk (XY.x (rotationRef d) + (IZR (snd stop) - IZR (snd start)) * 0.005)
          (XY.y (rotationRef d) + (IZR (fst stop) - IZR (fst start)) * 0.005).
Proof.
  intros Hd. cbv zeta. destruct m as [e|e]; cbn [handleMove lastPointer pointerOf].
  - unfold handleMouseMove. cbn [negb hook]. rewrite Hd. cbn [andb TreeState_eqb].
    unfold rotate. cbn [hook isDragging dragStartRef rotationRef fst snd].
    auto.
  - unfold handleTouchMove. rewrite Hd. cbn [negb orb].
    destruct (touches e) as [|touch [|t2 rest]]; cbn [length Nat.eqb negb].
    + split; [exact Hd|]. split; [reflexivity|].
      destruct (rotationRef d). apply XY_eq; cbn; ring.
    + cbn [TreeState_eqb]. unfold rotate.
      cbn [hook isDragging dragStartRef rotationRef fst snd]. auto.
    + split; [exact Hd|]. split; [reflexivity|].
      destruct (rotationRef d). apply XY_eq; cbn; ring.
Qed.

Lemma lastPointer_cons (start : Z * Z) (m : Move) (ms : list Move) :
  lastPointer start (m :: ms) = lastPointer (lastPointer start [m]) ms.
Proof. cbn. destruct (pointerOf m); reflexivity. Qed.

(** X7. While a drag goes on in galaxy mode, the orbit rotation grows by
    0.005 times the way the pointer has come since the drag started,
    whatever path it took: the vertical way goes to [x], the horizontal
    way to [y].  Touch moves that do not carry exactly one touch are
    ignored. *)
Theorem drag_rotation_telescopes (ms : list Move) (d : State) :
  isDragging (hook d) = true ->
  let d' := handleMoves true galaxy window ms d in
  let start := dragStartRef (hook d) in
  let stop := lastPointer start ms in
  isDragging (hook d') = true /\
  dragStartRef (hook d') = stop /\
  rotationRef d' =
    XY.mk (XY.x (rotationRef d) + (IZR (snd stop) - IZR (snd start)) * 0.005)
          (XY.y (rotationRef d) + (IZR (fst stop) - IZR (fst start)) * 0.005).
Proof.
  revert d. induction ms as [|m rest IH]; intros d Hd; cbv zeta.
  - cbn. split; [exact Hd|]. split; [reflexivity|].
    destruct (rotationRef d). apply XY_eq; cbn; ring.
  - unfold handleMoves. cbn [fold_left].
    destruct (handleMove_dragging m d Hd) as (Hd1 & Hs1 & Hr1).
    cbv zeta in Hd1, Hs1, Hr1.
    specialize (IH (handleMove true galaxy window d m) Hd1). cbv zeta in IH.
    destruct IH as (Hd2 & Hs2 & Hr2). unfold handleMoves in *.
    rewrite lastPointer_cons, <- Hs1.
    split; [exact Hd2|]. split; [exact Hs2|].
    rewrite Hr2, Hr1, Hs1. cbn [XY.x XY.y]. apply XY_eq; ring.
Qed.

(** A move that finds the hook disabled, the mode not galaxy, or no drag
    going on leaves the press part, the rotation and the calls alone. *)
Lemma handleMove_idle (enabled : bool) (currentState : TreeState)
    (m : Move) (d : State) :
  enabled = false \/ currentState <> galaxy \/ isDragging (hook d) = false ->
  let d' := handleMove enabled currentState window d m in
  hook d' = hook d /\ rotationRef d' = rotationRef d /\
  onOrbitChangeCalls d' = onOrbitChangeCalls d.
Proof.
  intros H. cbv zeta.
  assert (Hc : enabled = false \/
               isDragging (hook d) && TreeState_eqb currentState galaxy = false).
  { destruct H as [H|[H|H]]; [now left| |].
    - right. destruct (TreeState_eqb_spec currentState galaxy);
        [contradiction|apply andb_false_r].
    - right. now rewrite H. }
  destruct m as [e|e]; cbn [handleMove].
  - unfold handleMouseMove.
    destruct enabled; cbn [negb]; [|auto].
    destruct Hc as [Hc|Hc]; [discriminate|]. cbn [hook]. rewrite Hc. auto.
  - unfold handleTouchMove.
    destruct enabled; cbn [negb orb]; [|auto].
    destruct Hc as [Hc|Hc]; [discriminate|].
    destruct (isDragging (hook d)); cbn [negb orb andb] in *; [|auto].
    rewrite Hc.
    destruct (negb (length (touches e) =? 1)%nat); [auto|].
    destruct (touches e); auto.
Qed.

Lemma handleMoves_idle (enabled : bool) (currentState : TreeState)
    (ms : list Move) :
  forall d,
    enabled = false \/ currentState <> galaxy \/ isDragging (hook d) = false ->
    let d' := handleMoves enabled currentState window ms d in
    hook d' = hook d /\ rotationRef d' = rotationRef d /\
    onOrbitChangeCalls d' = onOrbitChangeCalls d.
Proof.
  induction ms as [|m rest IH]; intros d H; cbv zeta; [auto|].
  unfold handleMoves. cbn [fold_left].
  destruct (handleMove_idle enabled currentState m d H) as (Hh & Hr & Hc).
  cbv zeta in Hh, Hr, Hc.
  destruct (IH (handleMove enabled currentState window d m)) as (Hh2 & Hr2 & Hc2).
  - rewrite Hh. exact H.
  - unfold handleMoves in *. rewrite Hh2, Hr2, Hc2. auto.
Qed.

(** X8. Pointer moves orbit only during a drag in galaxy mode: with the hook
    disabled, in another mode, or with no drag going on, any sequence of
    mouse and touch moves leaves the rotation as it was and never calls
    [onOrbitChange]. *)
Theorem moves_orbit_only_when_dragging_in_galaxy (enabled : bool)
    (currentState : TreeState) (ms : list Move) (d : State) :
  enabled = false \/ currentState <> galaxy \/ isDragging (hook d) = false ->
  let d' := handleMoves enabled currentState window ms d in
  rotationRef d' = rotationRef d /\
  onOrbitChangeCalls d' = onOrbitChangeCalls d /\
  dragStartRef (hook d') = dragStartRef (hook d).
Proof.
  intros H. cbv zeta.
  destruct (handleMoves_idle enabled currentState ms d H) as (Hh & Hr & Hc).
  cbv zeta in Hh, Hr, Hc. now rewrite Hh, Hr, Hc.
Qed.

(** X9. A double click: a press, the release, and a second press less than
    300 ms after the first.  The first press starts a drag and calls
    nothing; the second calls [onStateChange] with the other mode and,
    coming after the release, leaves no drag going on, so the moves that
    follow it do not orbit. *)
Theorem double_click_toggles_without_drag
    (cs cs' : TreeState) (t1 t2 : Z) (p1 p2 : Press) (ms : list Move)
    (d : State) :
  singlePointer p1 = true ->
  singlePointer p2 = true ->
  (300 <= t1 - lastClickRef (hook d))%Z ->
  (t2 - t1 < 300)%Z ->
  let first := handleDown true cs t1 p1 d in
  let second := handleDown true cs' t2 p2 (handleMouseUp (fst first)) in
  snd first = None /\
  isDragging (hook (fst first)) = true /\
  snd second = Some (toggled cs') /\
  isDragging (hook (fst second)) = false /\
  rotationRef (handleMoves true galaxy window ms (fst second)) = rotationRef d /\
  onOrbitChangeCalls (handleMoves true galaxy window ms (fst second))
    = onOrbitChangeCalls d.
Proof.
  intros Hp1 Hp2 Ht1 Ht2. cbv zeta.
  unfold handleDown. cbn [fst snd hook].
  rewrite (handlePress_enabled cs t1 p1 (hook d) Hp1).
  replace (t1 - lastClickRef (hook d) <? 300)%Z with false
    by (symmetry; apply Z.ltb_ge; assumption).
  cbn [fst snd]. split; [reflexivity|].
  assert (E1 : fst (handlePress true cs t1 p1 (hook d))
               = {| isDragging := true; lastClickRef := t1;
                    dragStartRef := dragStartRef
                      (fst (handlePress true cs t1 p1 (hook d))) |}).
  { destruct p1 as [e|e]; cbn [singlePointer handlePress] in *.
    - unfold handleMouseDown. cbn [negb].
      now replace (t1 - lastClickRef (hook d) <? 300)%Z with false
        by (symmetry; apply Z.ltb_ge; assumption).
    - unfold handleTouchStart. rewrite Hp1. cbn [negb orb].
      destruct (touches e) as [|touch rest]; [discriminate|].
      now replace (t1 - lastClickRef (hook d) <? 300)%Z with false
        by (symmetry; apply Z.ltb_ge; assumption). }
  rewrite E1. cbn [isDragging]. split; [reflexivity|].
  unfold handleMouseUp. cbn [hook lastClickRef dragStartRef mousePosition
                             rotationRef onOrbitChangeCalls].
  rewrite (handlePress_enabled cs' t2 p2 _ Hp2). cbn [lastClickRef].
  replace (t2 - t1 <? 300)%Z with true
    by (symmetry; apply Z.ltb_lt; assumption).
  cbn [fst snd isDragging]. split; [reflexivity|]. split; [reflexivity|].
  match goal with
  | |- context [handleMoves true galaxy window ms ?s] =>
    destruct (handleMoves_idle true galaxy ms s) as (_ & Hr & Hc);
      [right; right; reflexivity|]
  end.
  cbv zeta in Hr, Hc. rewrite Hr, Hc. auto.
Qed.

End Dragging.

Lemma drag_rotation_telescopes_witness :
  Drag.rotationRef (Drag.handleMoves true galaxy MoreSamples.window
                      MoreSamples.threeMoves MoreSamples.dragging)
  = XY.mk (0 + (IZR 200 - IZR 100) * 0.005)%R
          (0 + (IZR 300 - IZR 100) * 0.005)%R.
Proof.
  apply (drag_rotation_telescopes MoreSamples.window MoreSamples.threeMoves MoreSamples.dragging).
  reflexivity.
Defined.

Lemma moves_orbit_only_when_dragging_in_galaxy_witness :
  let d' := Drag.handleMoves true tree MoreSamples.window
              MoreSamples.threeMoves MoreSamples.dragging in
  Drag.rotationRef d' = Drag.rotationRef MoreSamples.dragging /\
  Drag.onOrbitChangeCalls d' = Drag.onOrbitChangeCalls MoreSamples.dragging /\
  MouseFallback.dragStartRef (Drag.hook d')
    = MouseFallback.dragStartRef (Drag.hook MoreSamples.dragging).
Proof.
  apply (moves_orbit_only_when_dragging_in_galaxy MoreSamples.window true tree
           MoreSamples.threeMoves MoreSamples.dragging).
  right. left. discriminate.
Defined.

Lemma double_click_toggles_without_drag_witness :
  let first := Drag.handleDown true tree 5000 Samples.click Drag.initialState in
  let second := Drag.handleDown true tree 5100 Samples.click
                  (Drag.handleMouseUp (fst first)) in
  snd second = Some galaxy /\
  MouseFallback.isDragging (Drag.hook (fst second)) = false.
Proof.
  destruct (double_click_toggles_without_drag MoreSamples.window
              tree tree 5000 5100 Samples.click Samples.click []
              Drag.initialState eq_refl eq_refl)
    as (_ & _ & H3 & H4 & _).
  - cbn. lia.
  - cbn. lia.
  - split; [exact H3|exact H4].
Defined.

(* ------------------------------------------------------------------ *)
(** ** Where the tree formations lie *)

Section TreeFormations.

Import Random Formation TreeShapes.
Local Open Scope R_scope.

(** A sub-unity power of a number in [0, 1) is in [0, 1). *)
Lemma Math_pow_unit (x y : R) :
  0 <= x < 1 -> 0 < y -> 0 <= Math_pow x y < 1.
Proof.
  intros [H0 H1] Hy. unfold Math_pow.
  destruct (Req_dec_T x 0) as [->|Hne]; [lra|].
  assert (Hx : 0 < x) by lra.
  unfold Rpower. split; [left; apply exp_pos|].
  rewrite <- exp_0. apply exp_increasing.
  assert (Hln : ln x < 0) by (rewrite <- ln_1; apply ln_increasing; lra).
  nra.
Qed.

(** A point [(cos a * r, y, sin a * r)] is at distance [r] from the
    vertical axis. *)
Lemma horizontal_polar (a r y : R) :
  0 <= r -> horizontal (cos a * r, y, sin a * r) = r.
Proof.
  intros Hr. unfold horizontal.
  replace (cos a * r * (cos a * r) + sin a * r * (sin a * r))
    with (r * r * (sin a * sin a + cos a * cos a)) by ring.
  rewrite sin_cos_square, Rmult_1_r. now apply sqrt_square.
Qed.

(** X10. Every tree position of the main particle system lies in the cone:
    for [0 <= index < total] the height [y] is in [-4, 4), and the
    distance from the vertical axis is between 70% and 100% of the cone
    radius [3.5 (1 - 0.95 t)] at that height, where [t = (y + 4) / 8];
    so it is never more than 3.5. *)
Theorem generateTreePosition_in_cone (index total : R) (s : Random.t) :
  unit_interval s ->
  0 <= index < total ->
  let p := fst (generateTreePosition index total s) in
  let y := height_of p in
  let layerRadius := 3.5 * (1 - (y + 4) / 8 * 0.95) in
  -4 <= y < 4 /\
  0.7 * layerRadius <= horizontal p < layerRadius /\
  layerRadius <= 3.5.
Proof.
  intros Hs [Hi0 Hit]. cbv zeta.
  rewrite generateTreePosition_value. cbv zeta. unfold height_of. cbn [fst snd].
  assert (Hq : 0 <= index / total < 1).
  { split.
    - apply Rmult_le_pos; [lra|]. left. apply Rinv_0_lt_compat. lra.
    - apply Rmult_lt_reg_r with total; [lra|].
      unfold Rdiv. rewrite Rmult_assoc, Rinv_l by lra. lra. }
  pose proof (Math_pow_unit (index / total) 0.8 Hq ltac:(lra)) as Ht.
  set (t := Math_pow (index / total) 0.8) in *.
  pose proof (Hs (cursor s)) as Hu1. pose proof (Hs (S (cursor s))) as Hu2.
  set (u2 := draws s (S (cursor s))) in *.
  replace ((t * 8 - 8 / 2 + 4) / 8) with t by lra.
  rewrite horizontal_polar by nra.
  split; [lra|]. split; [|lra]. split; nra.
Qed.

Lemma generateTreePosition_in_cone_witness :
  let p := fst (generateTreePosition 0 4000 Samples.rngTree) in
  let y := height_of p in
  let layerRadius := 3.5 * (1 - (y + 4) / 8 * 0.95) in
  -4 <= y < 4 /\
  0.7 * layerRadius <= horizontal p < layerRadius /\
  layerRadius <= 3.5.
Proof.
  apply (generateTreePosition_in_cone 0 4000 Samples.rngTree).
  - intros n. unfold Samples.rngTree. cbn [draws].
    destruct (n =? 3)%nat; lra.
  - lra.
Defined.

(** X11. The ribbon lies on a cone: for [0 <= index < total] the point is at
    height [7.5 t - 3.75] in [-3.75, 3.75) and at distance exactly
    [3.3 (1 - 0.92 t)] from the vertical axis, where [t = index / total];
    that distance is more than 0.264 and at most 3.3. *)
Theorem generateRibbonPosition_on_cone (index total : R) :
  0 <= index < total ->
  let p := generateRibbonPosition index total in
  let t := index / total in
  height_of p = 7.5 * t - 3.75 /\
  -3.75 <= height_of p < 3.75 /\
  horizontal p = 3.3 * (1 - 0.92 * t) /\
  0.264 < horizontal p <= 3.3.
Proof.
  intros [Hi0 Hit]. cbv zeta.
  assert (Hq : 0 <= index / total < 1).
  { split.
    - apply Rmult_le_pos; [lra|]. left. apply Rinv_0_lt_compat. lra.
    - apply Rmult_lt_reg_r with total; [lra|].
      unfold Rdiv. rewrite Rmult_assoc, Rinv_l by lra. lra. }
  unfold generateRibbonPosition, height_of. cbv zeta. cbn [fst snd].
  set (t := index / total) in *.
  rewrite horizontal_polar by nra.
  repeat split; lra.
Qed.

Lemma generateRibbonPosition_on_cone_witness :
  let p := generateRibbonPosition 30 120 in
  let t := 30 / 120 in
  height_of p = 7.5 * t - 3.75 /\
  -3.75 <= height_of p < 3.75 /\
  horizontal p = 3.3 * (1 - 0.92 * t) /\
  0.264 < horizontal p <= 3.3.
Proof. apply (generateRibbonPosition_on_cone 30 120). lra. Defined.

(** X12. An ornament sits at a distance from the vertical axis that the random
    draw does not touch: for [0 <= index < total] it is at height
    [7 t - 3.5], strictly between -3.5 and 3.5, and at distance exactly
    [0.85 * 3.2 (1 - 0.9 t)] from the axis, where
    [t = (index + 0.5) / total <= 1] for a whole-numbered call
    ([index + 1 <= total]); the random draw only turns it around the
    axis. *)
Theorem generateOrnamentPosition_on_cone (index total : R) (s : Random.t) :
  0 <= index ->
  index + 1 <= total ->
  let p := fst (generateOrnamentPosition index total s) in
  let t := (index + 0.5) / total in
  height_of p = 7 * t - 3.5 /\
  -3.5 < height_of p < 3.5 /\
  horizontal p = 0.85 * (3.2 * (1 - 0.9 * t)) /\
  0.272 < horizontal p < 2.72.
Proof.
  intros Hi0 Hit. cbv zeta.
  assert (Hq : 0 < (index + 0.5) / total < 1).
  { split.
    - apply Rmult_lt_0_compat; [lra|]. apply Rinv_0_lt_compat. lra.
    - apply Rmult_lt_reg_r with total; [lra|].
      unfold Rdiv. rewrite Rmult_assoc, Rinv_l by lra. lra. }
  unfold generateOrnamentPosition, Math_random, height_of.
  cbv beta iota zeta. cbn [fst snd].
  set (t := (index + 0.5) / total) in *.
  replace (cos (index * PI * 2.4 + draws s (cursor s) * 0.5)
             * (3.2 * (1 - t * 0.9)) * 0.85)
    with (cos (index * PI * 2.4 + draws s (cursor s) * 0.5)
            * (0.85 * (3.2 * (1 - 0.9 * t)))) by ring.
  replace (sin (index * PI * 2.4 + draws s (cursor s) * 0.5)
             * (3.2 * (1 - t * 0.9)) * 0.85)
    with (sin (index * PI * 2.4 + draws s (cursor s) * 0.5)
            * (0.85 * (3.2 * (1 - 0.9 * t)))) by ring.
  rewrite horizontal_polar by nra.
  repeat split; lra.
Qed.

Lemma generateOrnamentPosition_on_cone_witness :
  let p := fst (generateOrnamentPosition 3 25 Samples.rngZero) in
  let t := (3 + 0.5) / 25 in
  height_of p = 7 * t - 3.5 /\
  -3.5 < height_of p < 3.5 /\
  horizontal p = 0.85 * (3.2 * (1 - 0.9 * t)) /\
  0.272 < horizontal p < 2.72.
Proof.
  apply (generateOrnamentPosition_on_cone 3 25 Samples.rngZero); lra.
Defined.

(** X13. A photo card's tree position: for [0 <= index] and
    [index + 1 <= total] it is at height [7 t - 3], strictly between -3
    and 4, and at distance exactly [2.8 (1 - 0.85 t)] from the vertical
    axis, between 0.42 and 2.8, where [t = (index + 0.5) / total]. *)
Theorem generateTreePhotoPosition_on_cone (index total : R) :
  0 <= index ->
  index + 1 <= total ->
  let p := generateTreePhotoPosition index total in
  let t := (index + 0.5) / total in
  height_of p = 7 * t - 3 /\
  -3 < height_of p < 4 /\
  horizontal p = 2.8 * (1 - 0.85 * t) /\
  0.42 < horizontal p < 2.8.
Proof.
  intros Hi0 Hit. cbv zeta.
  assert (Hq : 0 < (index + 0.5) / total < 1).
  { split.
    - apply Rmult_lt_0_compat; [lra|]. apply Rinv_0_lt_compat. lra.
    - apply Rmult_lt_reg_r with total; [lra|].
      unfold Rdiv. rewrite Rmult_assoc, Rinv_l by lra. lra. }
  unfold generateTreePhotoPosition, height_of. cbv zeta. cbn [fst snd].
  set (t := (index + 0.5) / total) in *.
  rewrite horizontal_polar by nra.
  repeat split; lra.
Qed.

Lemma generateTreePhotoPosition_on_cone_witness :
  let p := generateTreePhotoPosition 0 12 in
  let t := (0 + 0.5) / 12 in
  height_of p = 7 * t - 3 /\
  -3 < height_of p < 4 /\
  horizontal p = 2.8 * (1 - 0.85 * t) /\
  0.42 < horizontal p < 2.8.
Proof. apply (generateTreePhotoPosition_on_cone 0 12); lra. Defined.

End TreeFormations.

(* ------------------------------------------------------------------ *)
(** ** The springs of the photo cards over runs of frames *)

Section SpringRuns.

Import PhotoCards Spring.
Local Open Scope R_scope.

Lemma quad_nonpos (A B C e v : R) :
  A <= 0 -> C <= 0 -> B * B <= 4 * A * C ->
  A * (e * e) + B * (e * v) + C * (v * v) <= 0.
Proof.
  intros HA HC HD.
  pose proof (Rle_0_sqr v) as Hv. unfold Rsqr in Hv.
  destruct (Req_dec A 0) as [HA0|HA0].
  - subst A.
    pose proof (Rle_0_sqr B) as HB. unfold Rsqr in HB.
    assert (HB0 : B * B = 0) by lra.
    apply Rmult_integral in HB0. assert (B = 0) by tauto. subst B.
    pose proof (Rmult_le_pos (- C) (v * v) ltac:(lra) Hv). lra.
  - set (q := A * (e * e) + B * (e * v) + C * (v * v)).
    assert (H4 : 0 <= 4 * A * q).
    { replace (4 * A * q)
        with ((2 * A * e + B * v) * (2 * A * e + B * v)
              + (4 * A * C - B * B) * (v * v)) by (unfold q; ring).
      pose proof (Rle_0_sqr (2 * A * e + B * v)) as Hs. unfold Rsqr in Hs.
      pose proof (Rmult_le_pos (4 * A * C - B * B) (v * v) ltac:(lra) Hv).
      lra. }
    destruct (Rle_lt_dec q 0) as [Hq|Hq]; [exact Hq|].
    assert (0 < (- A) * q) by (apply Rmult_lt_0_compat; lra).
    lra.
Qed.

(** One step of a damped spring, velocity first and then position with
    the new velocity, multiplies the energy by at most [1 - l h^2] when
    the step [h] is short enough for the stiffness and the damping. *)
Lemma spring_step_contracts (k c l h e v : R) :
  0 <= h ->
  0 <= k * k - k * l - k * k * k * (h * h) ->
  0 <= damp k c h - l * h ->
  k * k * k * k * (h * h * h) * ((1 - c * h) * (1 - c * h))
    <= (k * k - k * l - k * k * k * (h * h)) * (damp k c h - l * h) ->
  let v' := v + (- k * e - c * v) * h in
  let e' := e + v' * h in
  energy k e' v' <= (1 - l * (h * h)) * energy k e v.
Proof.
  intros Hh Ha Hg Hd. cbv zeta. unfold energy.
  set (p := 1 - c * h) in *.
  set (a := k * k - k * l - k * k * k * (h * h)) in *.
  set (g := damp k c h - l * h) in *.
  set (A := - (h * h) * a).
  set (B := - 2 * (k * k) * (h * h * h) * p).
  set (C := - h * g).
  assert (E : k * ((e + (v + (- k * e - c * v) * h) * h)
                   * (e + (v + (- k * e - c * v) * h) * h))
              + (v + (- k * e - c * v) * h) * (v + (- k * e - c * v) * h)
              - (1 - l * (h * h)) * (k * (e * e) + v * v)
              = A * (e * e) + B * (e * v) + C * (v * v)).
  { unfold A, B, C, a, g, damp, p. ring. }
  pose proof (Rle_0_sqr h) as Hhh. unfold Rsqr in Hhh.
  assert (HA : A <= 0).
  { unfold A. pose proof (Rmult_le_pos (h * h) a Hhh Ha). lra. }
  assert (HC : C <= 0).
  { unfold C. pose proof (Rmult_le_pos h g Hh Hg). lra. }
  assert (HD : B * B <= 4 * A * C).
  { assert (H0 : 0 <= 4 * A * C - B * B).
    { replace (4 * A * C - B * B)
        with (4 * (h * h) * h
              * (a * g - k * k * k * k * (h * h * h) * (p * p)))
        by (unfold A, B, C; ring).
      apply Rmult_le_pos; [|lra].
      apply Rmult_le_pos; [lra|exact Hh]. }
    lra. }
  pose proof (quad_nonpos A B C e v HA HC HD). lra.
Qed.

Lemma mul_bounds (a b ha hb : R) :
  0 <= a <= ha -> 0 <= b <= hb -> 0 <= a * b <= ha * hb.
Proof.
  intros [Ha0 Ha1] [Hb0 Hb1]. split.
  - now apply Rmult_le_pos.
  - apply Rmult_le_compat; assumption.
Qed.

(** The clamp of the frame time to 0.033 makes the step short enough. *)
Lemma spring_clamp_ok (k c l a0 g0 : R) (h : R) :
  0 <= h <= 0.033 ->
  0 < c -> c * 0.033 <= 1 -> 0 < k -> 0 <= l ->
  0 <= a0 -> a0 <= k * k - k * l - k * k * k * 0.0011 ->
  0 <= g0 ->
  g0 <= 2 * c - (c * c + k) * 0.033 - k * (c * c) * 0.00004 - l * 0.033 ->
  k * k * k * k * 0.00004 <= a0 * g0 ->
  0 <= k * k - k * l - k * k * k * (h * h) /\
  0 <= damp k c h - l * h /\
  k * k * k * k * (h * h * h) * ((1 - c * h) * (1 - c * h))
    <= (k * k - k * l - k * k * k * (h * h)) * (damp k c h - l * h).
Proof.
  intros Hh Hc Hc1 Hk Hl Ha0 Ha1 Hg0 Hg1 Hag. unfold damp.
  pose proof (mul_bounds h h 0.033 0.033 Hh Hh) as Hhh.
  assert (Hhh' : 0 <= h * h <= 0.0011) by lra.
  pose proof (mul_bounds (h * h) h 0.0011 0.033 Hhh' Hh) as Hh3.
  assert (Hh3' : 0 <= h * h * h <= 0.00004) by lra.
  assert (Hch : 0 <= c * h <= 1).
  { pose proof (mul_bounds c h c 0.033 ltac:(lra) Hh). lra. }
  assert (Hp1 : 0 <= 1 - c * h <= 1) by lra.
  pose proof (mul_bounds (1 - c * h) (1 - c * h) 1 1 Hp1 Hp1) as Hpp.
  assert (Hk3 : 0 <= k * k * k) by (repeat apply Rmult_le_pos; lra).
  assert (Hk4 : 0 <= k * k * k * k) by (repeat apply Rmult_le_pos; lra).
  assert (Hkhh : 0 <= k * k * k * (h * h) <= k * k * k * 0.0011).
  { apply mul_bounds; [lra|exact Hhh']. }
  assert (Hcch : 0 <= (c * c + k) * h <= (c * c + k) * 0.033).
  { apply mul_bounds; [|exact Hh]. nra. }
  assert (Hck : 0 <= 2 * c * k * (h * h)).
  { apply Rmult_le_pos; [nra|lra]. }
  assert (Hkcc : 0 <= k * (c * c) * (h * h * h) <= k * (c * c) * 0.00004).
  { apply mul_bounds; [|exact Hh3']. nra. }
  assert (Hlh : 0 <= l * h <= l * 0.033).
  { apply mul_bounds; [lra|exact Hh]. }
  assert (Ha : a0 <= k * k - k * l - k * k * k * (h * h)) by lra.
  assert (Hg : g0 <= 2 * c - (c * c + k) * h + 2 * c * k * (h * h)
                     - k * (c * c) * (h * h * h) - l * h) by lra.
  split; [lra|]. split; [lra|].
  assert (Hl4 : 0 <= k * k * k * k * (h * h * h) * ((1 - c * h) * (1 - c * h))
               <= k * k * k * k * 0.00004 * 1).
  { apply mul_bounds; [|lra]. apply mul_bounds; [lra|exact Hh3']. }
  assert (Hr : a0 * g0 <= (k * k - k * l - k * k * k * (h * h))
                 * (2 * c - (c * c + k) * h + 2 * c * k * (h * h)
                    - k * (c * c) * (h * h * h) - l * h)).
  { apply Rmult_le_compat; lra. }
  lra.
Qed.

Lemma position_step_energy (h e v : R) :
  0 <= h <= 0.033 ->
  energy 25 (e + (v + (- 25 * e - 8 * v) * h) * h)
            (v + (- 25 * e - 8 * v) * h)
  <= (1 - 24 * (h * h)) * energy 25 e v.
Proof.
  intros Hh.
  destruct (spring_clamp_ok 25 8 24 7 12 h Hh) as (H1 & H2 & H3); try lra.
  exact (spring_step_contracts 25 8 24 h e v (proj1 Hh) H1 H2 H3).
Qed.

Lemma scale_step_energy (h e v : R) :
  0 <= h <= 0.033 ->
  energy 30 (e + (v + (- 30 * e - 10 * v) * h) * h)
            (v + (- 30 * e - 10 * v) * h)
  <= (1 - 24 * (h * h)) * energy 30 e v.
Proof.
  intros Hh.
  destruct (spring_clamp_ok 30 10 24 150 14 h Hh) as (H1 & H2 & H3); try lra.
  exact (spring_step_contracts 30 10 24 h e v (proj1 Hh) H1 H2 H3).
Qed.

Lemma energy_nonneg (k e v : R) : 0 <= k -> 0 <= energy k e v.
Proof.
  intros Hk. unfold energy.
  pose proof (Rle_0_sqr e) as He. pose proof (Rle_0_sqr v) as Hv.
  unfold Rsqr in *. pose proof (Rmult_le_pos k (e * e) Hk He). lra.
Qed.

(** A frame time of at least [slowest] gives a step between
    [min(slowest, 0.033)] and 0.033. *)
Lemma clamped (slowest delta : R) :
  0 <= slowest <= delta ->
  0 <= Rmin slowest 0.033 <= Rmin delta 0.033 /\ Rmin delta 0.033 <= 0.033.
Proof.
  intros [H0 H1]. repeat split.
  - apply Rmin_glb; lra.
  - apply Rle_min_compat_r. exact H1.
  - apply Rmin_r.
Qed.

(** A step of at least [m] shrinks a non-negative energy at least by the
    factor of [m]. *)
Lemma factor_mono (m h E E' : R) :
  0 <= m <= h -> 0 <= E -> E' <= (1 - 24 * (h * h)) * E ->
  E' <= (1 - 24 * (m * m)) * E.
Proof.
  intros [Hm Hmh] HE H.
  assert (Hsq : m * m <= h * h) by (apply Rmult_le_compat; lra).
  pose proof (Rmult_le_pos (24 * (h * h) - 24 * (m * m)) E ltac:(lra) HE).
  lra.
Qed.

Variable state : TreeState.
Variable focusedIndex : option nat.
Variable meshRefs : nat -> bool.

(** The loop body on the energies, for a step the clamp allows. *)
Lemma updateCard_energy (dt : R) (i : nat) (card : CardData) :
  0 <= dt <= 0.033 ->
  let card' := updateCard state focusedIndex dt i card in
  treePosition card' = treePosition card /\
  galaxyPosition card' = galaxyPosition card /\
  positionEnergy (targetPos state focusedIndex i card) card'
    <= (1 - 24 * (dt * dt))
       * positionEnergy (targetPos state focusedIndex i card) card /\
  scaleEnergy (spec_targetScale (isFocusedAt focusedIndex i)) card'
    <= (1 - 24 * (dt * dt))
       * scaleEnergy (spec_targetScale (isFocusedAt focusedIndex i)) card.
Proof.
  intros Hdt. cbv zeta. split; [reflexivity|]. split; [reflexivity|].
  unfold positionEnergy, scaleEnergy, targetPos, updateCard.
  rewrite target_agrees.
  set (t := Vector3.ofArray
              (spec_target state (isFocusedAt focusedIndex i) card)).
  replace (if isFocusedAt focusedIndex i then 5 else 0.4)
    with (spec_targetScale (isFocusedAt focusedIndex i)) by reflexivity.
  set (ts := spec_targetScale (isFocusedAt focusedIndex i)).
  cbn [position velocity scale scaleVelocity].
  unfold Vector3.add, Vector3.sub, Vector3.multiplyScalar, Vector3.clone,
    SPRING_STIFFNESS, SPRING_DAMPING, SCALE_STIFFNESS, SCALE_DAMPING.
  cbn [Vector3.x Vector3.y Vector3.z].
  destruct (position card) as [px py pz], (velocity card) as [vx vy vz].
  cbn [Vector3.x Vector3.y Vector3.z].
  pose proof (position_step_energy dt (px - Vector3.x t) vx Hdt) as Hx.
  pose proof (position_step_energy dt (py - Vector3.y t) vy Hdt) as Hy.
  pose proof (position_step_energy dt (pz - Vector3.z t) vz Hdt) as Hz.
  pose proof (scale_step_energy dt (scale card - ts) (scaleVelocity card) Hdt)
    as Hs.
  split.
  - replace (px + (vx + ((px - Vector3.x t) * - (25) + vx * - (8)) * dt) * dt
             - Vector3.x t)
      with (px - Vector3.x t
            + (vx + (- 25 * (px - Vector3.x t) - 8 * vx) * dt) * dt) by ring.
    replace (py + (vy + ((py - Vector3.y t) * - (25) + vy * - (8)) * dt) * dt
             - Vector3.y t)
      with (py - Vector3.y t
            + (vy + (- 25 * (py - Vector3.y t) - 8 * vy) * dt) * dt) by ring.
    replace (pz + (vz + ((pz - Vector3.z t) * - (25) + vz * - (8)) * dt) * dt
             - Vector3.z t)
      with (pz - Vector3.z t
            + (vz + (- 25 * (pz - Vector3.z t) - 8 * vz) * dt) * dt) by ring.
    replace (vx + ((px - Vector3.x t) * - (25) + vx * - (8)) * dt)
      with (vx + (- 25 * (px - Vector3.x t) - 8 * vx) * dt) by ring.
    replace (vy + ((py - Vector3.y t) * - (25) + vy * - (8)) * dt)
      with (vy + (- 25 * (py - Vector3.y t) - 8 * vy) * dt) by ring.
    replace (vz + ((pz - Vector3.z t) * - (25) + vz * - (8)) * dt)
      with (vz + (- 25 * (pz - Vector3.z t) - 8 * vz) * dt) by ring.
    lra.
  - replace (scale card
             + (scaleVelocity card
                + (- (30) * (scale card - ts) + - (10) * scaleVelocity card) * dt)
               * dt - ts)
      with (scale card - ts
            + (scaleVelocity card
               + (- 30 * (scale card - ts) - 10 * scaleVelocity card) * dt) * dt)
      by ring.
    replace (scaleVelocity card
             + (- (30) * (scale card - ts) + - (10) * scaleVelocity card) * dt)
      with (scaleVelocity card
            + (- 30 * (scale card - ts) - 10 * scaleVelocity card) * dt)
      by ring.
    exact Hs.
Qed.

Lemma targetPos_same (i : nat) (c c' : CardData) :
  treePosition c' = treePosition c ->
  galaxyPosition c' = galaxyPosition c ->
  targetPos state focusedIndex i c' = targetPos state focusedIndex i c.
Proof.
  intros Ht Hg. unfold targetPos, spec_target. now rewrite Ht, Hg.
Qed.

(** The card at index [i] after one frame. *)
Lemma useFrame_nth (delta : R) (cards : list CardData) (i : nat)
    (card : CardData) :
  nth_error cards i = Some card ->
  nth_error (useFrame state focusedIndex meshRefs delta cards) i =
    Some (if meshRefs i
          then updateCard state focusedIndex (Rmin delta 0.033) i card
          else card).
Proof.
  intros Hi. unfold useFrame.
  now rewrite (updateCards_nth meshRefs state focusedIndex
                 (Rmin delta 0.033) cards 0 i card Hi).
Qed.

Lemma positionEnergy_nonneg (t : Vector3.t) (card : CardData) :
  0 <= positionEnergy t card.
Proof.
  unfold positionEnergy, SPRING_STIFFNESS.
  pose proof (energy_nonneg 25 (Vector3.x (position card) - Vector3.x t)
                (Vector3.x (velocity card)) ltac:(lra)).
  pose proof (energy_nonneg 25 (Vector3.y (position card) - Vector3.y t)
                (Vector3.y (velocity card)) ltac:(lra)).
  pose proof (energy_nonneg 25 (Vector3.z (position card) - Vector3.z t)
                (Vector3.z (velocity card)) ltac:(lra)).
  lra.
Qed.

Lemma scaleEnergy_nonneg (ts : R) (card : CardData) :
  0 <= scaleEnergy ts card.
Proof. unfold scaleEnergy, SCALE_STIFFNESS. apply energy_nonneg. lra. Qed.

Lemma runFrames_energy (slowest : R) (deltas : list R) (i : nat) :
  0 <= slowest ->
  meshRefs i = true ->
  Forall (fun delta => slowest <= delta) deltas ->
  let rho := 1 - 24 * (Rmin slowest 0.033 * Rmin slowest 0.033) in
  forall cards card,
    nth_error cards i = Some card ->
    exists card',
      nth_error (runFrames state focusedIndex meshRefs deltas cards) i
        = Some card' /\
      treePosition card' = treePosition card /\
      galaxyPosition card' = galaxyPosition card /\
      positionEnergy (targetPos state focusedIndex i card) card'
        <= rho ^ length deltas
           * positionEnergy (targetPos state focusedIndex i card) card /\
      scaleEnergy (spec_targetScale (isFocusedAt focusedIndex i)) card'
        <= rho ^ length deltas
           * scaleEnergy (spec_targetScale (isFocusedAt focusedIndex i)) card.
Proof.
  intros Hs0 Hm Hall. cbv zeta.
  set (m := Rmin slowest 0.033).
  assert (Hm0 : 0 <= m <= 0.033) by (unfold m; split; [apply Rmin_glb; lra|apply Rmin_r]).
  assert (Hrho : 0 <= 1 - 24 * (m * m)).
  { pose proof (Rmult_le_compat m 0.033 m 0.033). lra. }
  induction Hall as [|delta rest Hd _ IH]; intros cards card Hi.
  - exists card. cbn [runFrames fold_left length pow].
    split; [exact Hi|]. repeat split; lra.
  - unfold runFrames in *. cbn [fold_left length].
    pose proof (useFrame_nth delta cards i card Hi) as Hn.
    rewrite Hm in Hn.
    set (c1 := updateCard state focusedIndex (Rmin delta 0.033) i card) in *.
    destruct (clamped slowest delta (conj Hs0 Hd)) as ((_ & Hmd) & Hd1).
    fold m in Hmd.
    destruct (updateCard_energy (Rmin delta 0.033) i card) as (Ht1 & Hg1 & Hp1 & Hs1).
    { split; [lra|exact Hd1]. }
    fold c1 in Ht1, Hg1, Hp1, Hs1.
    apply (factor_mono m) in Hp1;
      [|split; [lra|exact Hmd]|apply positionEnergy_nonneg].
    apply (factor_mono m) in Hs1;
      [|split; [lra|exact Hmd]|apply scaleEnergy_nonneg].
    destruct (IH _ c1 Hn) as (c2 & Hn2 & Ht2 & Hg2 & Hp2 & Hs2).
    rewrite (targetPos_same i card c1 Ht1 Hg1) in Hp2.
    exists c2. split; [exact Hn2|].
    split; [congruence|]. split; [congruence|].
    pose proof (pow_le (1 - 24 * (m * m)) (length rest) Hrho) as Hpow.
    cbn [pow]. split.
    + eapply Rle_trans; [exact Hp2|].
      replace ((1 - 24 * (m * m)) * (1 - 24 * (m * m)) ^ length rest
               * positionEnergy (targetPos state focusedIndex i card) card)
        with ((1 - 24 * (m * m)) ^ length rest
              * ((1 - 24 * (m * m))
                 * positionEnergy (targetPos state focusedIndex i card) card))
        by ring.
      apply Rmult_le_compat_l; assumption.
    + eapply Rle_trans; [exact Hs2|].
      replace ((1 - 24 * (m * m)) * (1 - 24 * (m * m)) ^ length rest
               * scaleEnergy (spec_targetScale (isFocusedAt focusedIndex i)) card)
        with ((1 - 24 * (m * m)) ^ length rest
              * ((1 - 24 * (m * m))
                 * scaleEnergy (spec_targetScale (isFocusedAt focusedIndex i))
                     card))
        by ring.
      apply Rmult_le_compat_l; assumption.
Qed.

(** X14. Convergence of the springs.  Over a run of [n] frames in which mode
    and focus stay the same and every frame time is at least [slowest]
    (which may be 0), a card that has its mesh group ends with the
    energy of its position spring about its target,
    [25 |p - target|^2 + |v|^2], and with that of its scale spring,
    [30 (s - targetScale)^2 + sv^2], at most [rho ^ n] times what they
    were, where [rho = 1 - 24 min(slowest, 0.033)^2] is in (0, 1]: the
    energies never grow, and they die out geometrically when the frame
    times stay away from 0.  The squared distance to the target is
    bounded by the same quantity divided by 25. *)
Theorem spring_energy_decays (slowest : R) (deltas : list R)
    (cards : list CardData) (i : nat) (card : CardData) :
  0 <= slowest ->
  Forall (fun delta => slowest <= delta) deltas ->
  meshRefs i = true ->
  nth_error cards i = Some card ->
  let t := targetPos state focusedIndex i card in
  let ts := spec_targetScale (isFocusedAt focusedIndex i) in
  let rho := 1 - 24 * (Rmin slowest 0.033 * Rmin slowest 0.033) in
  0 < rho <= 1 /\
  exists card',
    nth_error (runFrames state focusedIndex meshRefs deltas cards) i
      = Some card' /\
    positionEnergy t card' <= rho ^ length deltas * positionEnergy t card /\
    scaleEnergy ts card' <= rho ^ length deltas * scaleEnergy ts card /\
    25 * distance2 (position card') t
      <= rho ^ length deltas * positionEnergy t card.
Proof.
  intros Hs0 Hall Hm Hi. cbv zeta.
  set (m := Rmin slowest 0.033).
  assert (Hm0 : 0 <= m <= 0.033)
    by (unfold m; split; [apply Rmin_glb; lra|apply Rmin_r]).
  split.
  { pose proof (mul_bounds m m 0.033 0.033 Hm0 Hm0). lra. }
  destruct (runFrames_energy slowest deltas i Hs0 Hm Hall cards card Hi)
    as (c' & Hn & _ & _ & Hp & Hs).
  fold m in Hp, Hs.
  exists c'. split; [exact Hn|]. split; [exact Hp|]. split; [exact Hs|].
  eapply Rle_trans; [|exact Hp].
  unfold positionEnergy, energy, distance2, SPRING_STIFFNESS.
  pose proof (Rle_0_sqr (Vector3.x (velocity c'))) as Hx.
  pose proof (Rle_0_sqr (Vector3.y (velocity c'))) as Hy.
  pose proof (Rle_0_sqr (Vector3.z (velocity c'))) as Hz.
  unfold Rsqr in *. lra.
Qed.

(** A card at rest on its target is at a fixed point of the loop body. *)
Lemma updateCard_at_rest (dt : R) (i : nat) (card : CardData) :
  position card = targetPos state focusedIndex i card ->
  velocity card = Vector3.mk 0 0 0 ->
  scale card = spec_targetScale (isFocusedAt focusedIndex i) ->
  scaleVelocity card = 0 ->
  let card' := updateCard state focusedIndex dt i card in
  treePosition card' = treePosition card /\
  galaxyPosition card' = galaxyPosition card /\
  position card' = position card /\
  velocity card' = velocity card /\
  scale card' = scale card /\
  scaleVelocity card' = scaleVelocity card.
Proof.
  intros Hp Hv Hs Hsv. cbv zeta.
  split; [reflexivity|]. split; [reflexivity|].
  unfold updateCard. rewrite target_agrees.
  fold (targetPos state focusedIndex i card).
  replace (if isFocusedAt focusedIndex i then 5 else 0.4)
    with (spec_targetScale (isFocusedAt focusedIndex i)) by reflexivity.
  cbn [position velocity scale scaleVelocity].
  rewrite Hp, Hv, Hs, Hsv.
  destruct (targetPos state focusedIndex i card) as [tx ty tz].
  unfold Vector3.add, Vector3.sub, Vector3.multiplyScalar, Vector3.clone,
    SPRING_STIFFNESS, SPRING_DAMPING, SCALE_STIFFNESS, SCALE_DAMPING.
  cbn [Vector3.x Vector3.y Vector3.z].
  repeat split; try (f_equal; ring); ring.
Qed.

(** X15. A card that sits on its target with no velocity, at its target
    scale with no scale velocity, stays exactly there through any run of
    frames in which mode and focus stay the same, whatever the frame
    times. *)
Theorem rest_is_a_fixed_point (deltas : list R) :
  forall (cards : list CardData) (i : nat) (card : CardData),
  nth_error cards i = Some card ->
  position card = targetPos state focusedIndex i card ->
  velocity card = Vector3.mk 0 0 0 ->
  scale card = spec_targetScale (isFocusedAt focusedIndex i) ->
  scaleVelocity card = 0 ->
  exists card',
    nth_error (runFrames state focusedIndex meshRefs deltas cards) i
      = Some card' /\
    position card' = position card /\
    velocity card' = velocity card /\
    scale card' = scale card /\
    scaleVelocity card' = scaleVelocity card.
Proof.
  induction deltas as [|delta rest IH]; intros cards i card Hi Hp Hv Hs Hsv.
  - exists card. cbn. auto.
  - unfold runFrames in *. cbn [fold_left].
    pose proof (useFrame_nth delta cards i card Hi) as Hn.
    set (c1 := if meshRefs i
               then updateCard state focusedIndex (Rmin delta 0.033) i card
               else card) in *.
    assert (H1 : treePosition c1 = treePosition card /\
                 galaxyPosition c1 = galaxyPosition card /\
                 position c1 = position card /\
                 velocity c1 = velocity card /\
                 scale c1 = scale card /\
                 scaleVelocity c1 = scaleVelocity card).
    { unfold c1. destruct (meshRefs i).
      - now apply updateCard_at_rest.
      - repeat split. }
    destruct H1 as (Ht1 & Hg1 & Hp1 & Hv1 & Hs1 & Hsv1).
    destruct (IH _ i c1 Hn) as (c2 & Hn2 & Hp2 & Hv2 & Hs2 & Hsv2).
    + rewrite Hp1, Hp. symmetry. now apply targetPos_same.
    + congruence.
    + congruence.
    + congruence.
    + exists c2. split; [exact Hn2|]. repeat split; congruence.
Qed.

End SpringRuns.

Lemma spring_energy_decays_witness :
  exists card',
    nth_error (Spring.runFrames galaxy None (fun _ => true)
                 [0.016%R; 0.05%R; 0.02%R] [MoreSamples.cardMoving]) 0
      = Some card' /\
    (Spring.positionEnergy
       (Spring.targetPos galaxy None 0 MoreSamples.cardMoving) card'
       <= (1 - 24 * (Rmin 0.016 0.033 * Rmin 0.016 0.033)) ^ 3
          * Spring.positionEnergy
              (Spring.targetPos galaxy None 0 MoreSamples.cardMoving)
              MoreSamples.cardMoving)%R.
Proof.
  destruct (spring_energy_decays galaxy None (fun _ => true) 0.016
              [0.016%R; 0.05%R; 0.02%R] [MoreSamples.cardMoving] 0
              MoreSamples.cardMoving)
    as (_ & card' & Hn & Hp & _).
  - lra.
  - repeat constructor; lra.
  - reflexivity.
  - reflexivity.
  - exists card'. split; [exact Hn|exact Hp].
Defined.

Lemma rest_is_a_fixed_point_witness :
  exists card',
    nth_error (Spring.runFrames galaxy None (fun _ => true)
                 [0.016%R; 0.05%R; 7%R] [MoreSamples.cardAtGalaxy]) 0
      = Some card' /\
    PhotoCards.position card' = PhotoCards.position MoreSamples.cardAtGalaxy.
Proof.
  destruct (rest_is_a_fixed_point galaxy None (fun _ => true)
              [0.016%R; 0.05%R; 7%R] [MoreSamples.cardAtGalaxy] 0
              MoreSamples.cardAtGalaxy eq_refl eq_refl eq_refl eq_refl eq_refl)
    as (card' & Hn & Hp & _).
  exists card'. split; [exact Hn|exact Hp].
Defined.

(* ------------------------------------------------------------------ *)
(** ** The camera *)

Section Camera.

Import CameraController.
Local Open Scope R_scope.

Variable state : TreeState.
Variable orbitRotation : XY.t.
Variable handPosition : option XY.t.

Lemma smooth_step (p t a : R) :
  p + (t - p) * (1 - exp (- 4 * a)) - t = exp (- 4 * a) * (p - t).
Proof. ring. Qed.

Lemma exp_decay_unit (a : R) : 0 <= a -> 0 < exp (- 4 * a) <= 1.
Proof.
  intros Ha. split; [apply exp_pos|].
  rewrite <- exp_0. destruct (Req_dec a 0) as [->|Hn].
  - replace (- 4 * 0) with 0 by ring. lra.
  - left. apply exp_increasing. lra.
Qed.

(** X16. One frame of the camera multiplies its offset from the target by
    [exp(-4 delta)] in every coordinate, a factor in (0, 1] for a frame
    time [delta >= 0]: the camera closes in on the target and never
    passes it. *)
Theorem camera_closes_in (delta : R) (positionRef : Vector3.t) :
  0 <= delta ->
  let t := target state orbitRotation handPosition in
  let p' := useFrame state orbitRotation handPosition delta positionRef in
  0 < exp (- 4 * delta) <= 1 /\
  Vector3.x p' - Vector3.x t
    = exp (- 4 * delta) * (Vector3.x positionRef - Vector3.x t) /\
  Vector3.y p' - Vector3.y t
    = exp (- 4 * delta) * (Vector3.y positionRef - Vector3.y t) /\
  Vector3.z p' - Vector3.z t
    = exp (- 4 * delta) * (Vector3.z positionRef - Vector3.z t).
Proof.
  intros Hd. cbv zeta. split; [now apply exp_decay_unit|].
  unfold useFrame. cbn [Vector3.x Vector3.y Vector3.z].
  split; [apply smooth_step|]. split; apply smooth_step.
Qed.

(** X17. The camera movement does not depend on the frame rate: while mode,
    orbit and hand stay the same, two frames of [a] and [b] seconds
    leave the camera where one frame of [a + b] seconds does. *)
Theorem camera_frames_compose (a b : R) (positionRef : Vector3.t) :
  useFrame state orbitRotation handPosition b
    (useFrame state orbitRotation handPosition a positionRef)
  = useFrame state orbitRotation handPosition (a + b) positionRef.
Proof.
  unfold useFrame. cbn [Vector3.x Vector3.y Vector3.z].
  replace (- 4 * (a + b)) with (- 4 * a + - 4 * b) by ring.
  rewrite exp_plus. f_equal; ring.
Qed.

(** X18. Unless a hand steers the camera in galaxy mode, the camera target
    lies on the circle of radius 12 (tree mode) or 18 (galaxy mode)
    around the vertical axis, at a height between -3 and 7. *)
Theorem camera_target_on_orbit :
  handPosition = None \/ state <> galaxy ->
  let t := target state orbitRotation handPosition in
  let baseDistance := if TreeState_eqb state tree then 12 else 18 in
  Vector3.x t * Vector3.x t + Vector3.z t * Vector3.z t
    = baseDistance * baseDistance /\
  -3 <= Vector3.y t <= 7.
Proof.
  intros H. cbv zeta.
  assert (E : target state orbitRotation handPosition =
              Vector3.mk
                (sin (XY.y orbitRotation)
                 * (if TreeState_eqb state tree then 12 else 18))
                (sin (XY.x orbitRotation) * 5 + 2)
                (cos (XY.y orbitRotation)
                 * (if TreeState_eqb state tree then 12 else 18))).
  { unfold target. destruct H as [->|Hs]; [reflexivity|].
    destruct handPosition; [|reflexivity].
    destruct state; [reflexivity|contradiction|reflexivity]. }
  rewrite E. cbn [Vector3.x Vector3.y Vector3.z].
  pose proof (sin2_cos2 (XY.y orbitRotation)) as Hsc. unfold Rsqr in Hsc.
  pose proof (SIN_bound (XY.x orbitRotation)) as Hb.
  set (d := if TreeState_eqb state tree then 12 else 18).
  split; [|lra].
  replace (sin (XY.y orbitRotation) * d * (sin (XY.y orbitRotation) * d)
           + cos (XY.y orbitRotation) * d * (cos (XY.y orbitRotation) * d))
    with ((sin (XY.y orbitRotation) * sin (XY.y orbitRotation)
           + cos (XY.y orbitRotation) * cos (XY.y orbitRotation)) * (d * d))
    by ring.
  rewrite Hsc. ring.
Qed.

End Camera.

Lemma camera_closes_in_witness :
  (0 < exp (- 4 * 0.016) <= 1)%R.
Proof.
  exact (proj1 (camera_closes_in galaxy (XY.mk 0.5 2) None 0.016
                  (Vector3.mk 0 2 12) ltac:(lra))).
Defined.

Lemma camera_target_on_orbit_witness :
  (Vector3.x (CameraController.target galaxy (XY.mk 0.5 2) None)
   * Vector3.x (CameraController.target galaxy (XY.mk 0.5 2) None)
   + Vector3.z (CameraController.target galaxy (XY.mk 0.5 2) None)
     * Vector3.z (CameraController.target galaxy (XY.mk 0.5 2) None)
   = 18 * 18)%R.
Proof.
  exact (proj1 (camera_target_on_orbit galaxy (XY.mk 0.5 2) None
                  (or_introl eq_refl))).
Defined.

(* ------------------------------------------------------------------ *)
(** ** The photo cards: mounting and new photos *)

Section PhotoMount.

Import Random Formation PhotoCards PhotoTable.
Local Open Scope R_scope.

Variable defaults : PhotoArray.

(** The card the effect builds for entry [j]: it takes position,
    velocity, scale and scale velocity from the card that was at that
    index, with 0.4 for a scale of 0, and starts at rest on the tree
    position where there was none. *)
Lemma initCards_nth (existing : list CardData) :
  forall data i s j photo,
    nth_error data j = Some photo ->
    exists card,
      nth_error (fst (initCards existing i data s)) j = Some card /\
      treePosition card = Photo.treePosition photo /\
      galaxyPosition card = Photo.galaxyPosition photo /\
      match nth_error existing (i + j) with
      | Some old =>
        position card = position old /\
        velocity card = velocity old /\
        scale card = (if Req_dec_T (scale old) 0 then 0.4 else scale old) /\
        scaleVelocity card = scaleVelocity old
      | None =>
        position card = Vector3.ofArray (Photo.treePosition photo) /\
        velocity card = Vector3.mk 0 0 0 /\
        scale card = 0.4 /\
        scaleVelocity card = 0
      end.
Proof.
  induction data as [|ph rest IH]; intros i s j photo Hj.
  - destruct j; discriminate.
  - cbn [initCards].
    match goal with
    | |- context [let '(time, s0) := ?e in _] => destruct e as [time s1]
    end.
    specialize (IH (S i) s1).
    destruct (initCards existing (S i) rest s1) as [others s2].
    cbn [fst] in *.
    destruct j as [|j]; cbn [nth_error] in *.
    + injection Hj as ->. eexists. split; [reflexivity|].
      cbn [treePosition galaxyPosition position velocity scale scaleVelocity].
      split; [reflexivity|]. split; [reflexivity|].
      rewrite Nat.add_0_r.
      destruct (nth_error existing i) as [old|]; cbn [option_map orElse].
      * split; [reflexivity|]. split; [reflexivity|]. split; [reflexivity|].
        destruct (Req_dec_T (scaleVelocity old) 0) as [E|]; congruence.
      * auto.
    + destruct (IH j photo Hj) as (card & Hn & H).
      exists card. split; [exact Hn|].
      now replace (i + S j)%nat with (S i + j)%nat by lia.
Qed.

(** X19. Mounting the photo cards makes one card for each of the first 12
    photos (of the placeholders when no photos are passed), and every
    card starts at rest on the tree: at the tree position of its index,
    with no velocity, at scale 0.4 with no scale velocity. *)
Theorem cards_mount_at_rest_on_tree (props : Props) (s : Random.t) :
  let c0 := render defaults props None s in
  let count := Nat.min (length (urls (photoUrlsOf defaults props))) 12 in
  length (cardDataRef (fst c0)) = count /\
  forall i card,
    nth_error (cardDataRef (fst c0)) i = Some card ->
    treePosition card = generateTreePhotoPosition (INR i) (INR count) /\
    position card = Vector3.ofArray (treePosition card) /\
    velocity card = Vector3.mk 0 0 0 /\
    scale card = 0.4 /\
    scaleVelocity card = 0.
Proof.
  cbv zeta. unfold render.
  pose proof (makePhotoData_spread (photoUrlsOf defaults props) s) as Hd.
  destruct (makePhotoData (photoUrlsOf defaults props) s) as [data s1].
  cbn [fst] in Hd. destruct Hd as (Hl & _ & Hsp).
  pose proof (initCards_length [] data 0 s1) as Hcl.
  pose proof (initCards_nth [] data 0 s1) as Hcn.
  destruct (initCards [] 0 data s1) as [cards s2].
  cbn [fst cardDataRef] in *.
  split; [congruence|].
  intros i card Hi.
  assert (Hlt : (i < length data)%nat).
  { rewrite <- Hcl. apply nth_error_Some. congruence. }
  destruct (nth_error data i) as [photo|] eqn:Hp;
    [|apply nth_error_None in Hp; lia].
  destruct (Hcn i photo Hp) as (card' & Hn & Ht & _ & H).
  assert (card' = card) by congruence. subst card'.
  cbn [Nat.add] in H.
  replace (nth_error (@nil CardData) i) with (@None CardData) in H
    by (now destruct i).
  destruct H as (Hpos & Hv & Hs & Hsv).
  rewrite Ht, (Hsp i photo Hp), Hl in *.
  repeat split; assumption.
Qed.

(** X20. When a render passes a new array of photos, the card at an index
    that had a card before keeps its position and its velocities exactly
    and its scale unless that was 0: it is not put back on the tree, and
    only its targets are replaced by those of the new table. *)
Theorem new_photos_keep_cards_in_flight (props : Props) (inst : Instance)
    (s : Random.t) (i : nat) (old : CardData) :
  photoUrlsDep inst <> ref (photoUrlsOf defaults props) ->
  nth_error (cardDataRef inst) i = Some old ->
  (i < Nat.min (length (urls (photoUrlsOf defaults props))) 12)%nat ->
  let c := render defaults props (Some inst) s in
  let count := Nat.min (length (urls (photoUrlsOf defaults props))) 12 in
  length (cardDataRef (fst c)) = count /\
  exists card,
    nth_error (cardDataRef (fst c)) i = Some card /\
    position card = position old /\
    velocity card = velocity old /\
    scaleVelocity card = scaleVelocity old /\
    scale card = (if Req_dec_T (scale old) 0 then 0.4 else scale old) /\
    treePosition card = generateTreePhotoPosition (INR i) (INR count).
Proof.
  intros Hne Hold Hi. cbv zeta. unfold render.
  destruct (Nat.eqb_spec (photoUrlsDep inst)
              (ref (photoUrlsOf defaults props))) as [E|_]; [contradiction|].
  pose proof (makePhotoData_spread (photoUrlsOf defaults props) s) as Hd.
  destruct (makePhotoData (photoUrlsOf defaults props) s) as [data s1].
  cbn [fst] in Hd. destruct Hd as (Hl & _ & Hsp).
  pose proof (initCards_length (cardDataRef inst) data 0 s1) as Hcl.
  pose proof (initCards_nth (cardDataRef inst) data 0 s1) as Hcn.
  destruct (initCards (cardDataRef inst) 0 data s1) as [cards s2].
  cbn [fst cardDataRef] in *.
  split; [congruence|].
  destruct (nth_error data i) as [photo|] eqn:Hp;
    [|apply nth_error_None in Hp; lia].
  destruct (Hcn i photo Hp) as (card & Hn & Ht & _ & H).
  cbn [Nat.add] in H. rewrite Hold in H.
  destruct H as (Hpos & Hv & Hs & Hsv).
  exists card. rewrite Ht, (Hsp i photo Hp), Hl.
  repeat split; assumption.
Qed.

Variable meshRefs : nat -> bool.

Lemma render_cardsOfTable (props : Props) (mounted : option Instance)
    (s : Random.t) :
  match mounted with
  | Some inst => cardsOfTable (inst, s)
  | None => True
  end ->
  cardsOfTable (render defaults props mounted s).
Proof.
  intros Hm. unfold render, cardsOfTable.
  pose proof (makePhotoData_spread (photoUrlsOf defaults props) s) as Hd.
  destruct mounted as [inst|].
  - destruct (Nat.eqb_spec (photoUrlsDep inst)
                (ref (photoUrlsOf defaults props))) as [E|_].
    + cbn [fst photoData cardDataRef]. exact Hm.
    + destruct (makePhotoData (photoUrlsOf defaults props) s) as [data s1].
      cbn [fst] in Hd.
      pose proof (initCards_targets (cardDataRef inst) data 0 s1) as Ht.
      destruct (initCards (cardDataRef inst) 0 data s1) as [cards s2].
      cbn [fst photoData cardDataRef] in *. split; [apply Hd|apply Ht].
  - destruct (makePhotoData (photoUrlsOf defaults props) s) as [data s1].
    cbn [fst] in Hd.
    pose proof (initCards_targets [] data 0 s1) as Ht.
    destruct (initCards [] 0 data s1) as [cards s2].
    cbn [fst photoData cardDataRef] in *. split; [apply Hd|apply Ht].
Qed.

Lemma step_cardsOfTable (c : Instance * Random.t) (ev : Event) :
  cardsOfTable c -> cardsOfTable (step defaults meshRefs c ev).
Proof.
  intros Hc. destruct ev as [props|delta]; cbn [step].
  - apply (render_cardsOfTable props (Some (fst c)) (snd c)).
    now destruct c.
  - unfold cardsOfTable in *. cbn [fst photoData cardDataRef].
    unfold useFrame.
    destruct (updateCards_targets meshRefs
                (state (lastProps (fst c))) (focusedIndex (lastProps (fst c)))
                (Rmin delta 0.033) (cardDataRef (fst c)) 0) as [-> _].
    exact Hc.
Qed.

(** X21. Whatever happens to the mounted photo cards (renders with the same
    or with other photos, mode and focus changes, frames), there is
    exactly one card for each entry of the photo table, never more than
    12, and the tree target of card [i] is the tree position of index
    [i] among that many cards. *)
Theorem one_card_per_photo (props : Props) (s : Random.t)
    (evs : list Event) :
  let c := steps defaults meshRefs evs (render defaults props None s) in
  let cards := cardDataRef (fst c) in
  length cards = length (photoData (fst c)) /\
  (length cards <= 12)%nat /\
  forall i card,
    nth_error cards i = Some card ->
    treePosition card
      = generateTreePhotoPosition (INR i) (INR (length cards)).
Proof.
  cbv zeta.
  assert (H : cardsOfTable
                (steps defaults meshRefs evs (render defaults props None s))).
  { generalize (render_cardsOfTable props None s I).
    generalize (render defaults props None s).
    induction evs as [|ev rest IH]; intros c Hc; [exact Hc|].
    unfold steps. cbn [fold_left]. apply IH. now apply step_cardsOfTable. }
  destruct H as ((Hle & Hsp) & Hm).
  set (c := steps defaults meshRefs evs (render defaults props None s)) in *.
  assert (Hl : length (cardDataRef (fst c)) = length (photoData (fst c))).
  { apply (f_equal (@length Vec3)) in Hm. now rewrite !length_map in Hm. }
  split; [exact Hl|]. split; [lia|].
  intros i card Hi.
  assert (Hn : nth_error (map treePosition (cardDataRef (fst c))) i
               = Some (treePosition card))
    by (now rewrite nth_error_map, Hi).
  rewrite Hm, nth_error_map in Hn.
  destruct (nth_error (photoData (fst c)) i) as [ph|] eqn:Hp; [|discriminate].
  cbn in Hn. injection Hn as <-. rewrite Hl. exact (Hsp i ph Hp).
Qed.

End PhotoMount.

Lemma new_photos_keep_cards_in_flight_witness :
  exists card,
    nth_error
      (PhotoCards.cardDataRef
         (fst (PhotoCards.render Samples.placeholders
                 {| PhotoCards.state := galaxy;
                    PhotoCards.photos := Some MoreSamples.threePhotos;
                    PhotoCards.focusedIndex := None |}
                 (Some MoreSamples.inFlight) Samples.rngZero))) 0
      = Some card /\
    PhotoCards.position card = Vector3.mk 2 0 1.
Proof.
  destruct (new_photos_keep_cards_in_flight Samples.placeholders
              {| PhotoCards.state := galaxy;
                 PhotoCards.photos := Some MoreSamples.threePhotos;
                 PhotoCards.focusedIndex := None |}
              MoreSamples.inFlight Samples.rngZero 0 MoreSamples.cardMoving)
    as (_ & card & Hn & Hp & _).
  - cbn. lia.
  - reflexivity.
  - cbn. lia.
  - exists card. split; [exact Hn|exact Hp].
Defined.

(* ------------------------------------------------------------------ *)
(** ** The particle system: mounting, frames and a changed count *)

Section ParticleCount.

Import Random Formation Particles ParticleFrame.
Local Open Scope R_scope.

(** The loop of the effect returns exactly when every position array
    has a target: it then makes one tween for each position array and
    leaves the heap alone; with a position array past the targets it
    throws. *)
Lemma forEachPosition_outcome (state : TreeState)
    (targets : list Heap.addr) :
  forall positions i w,
    ((i + length positions <= length targets)%nat ->
     exists tws r',
       forEachPosition state targets positions i w
         = Js.Return (tws, {| rng := r'; heap := heap w |}) /\
       map object tws = positions) /\
    (positions <> [] ->
     (length targets < i + length positions)%nat ->
     forEachPosition state targets positions i w = Js.Raise Js.TypeError).
Proof.
  induction positions as [|pos rest IH]; intros i w.
  - split; [|congruence].
    intros _. exists [], (rng w). destruct w; cbn. auto.
  - cbn [forEachPosition length].
    destruct (nth_error targets i) as [t|] eqn:Hn.
    + assert (Hi : (i < length targets)%nat)
        by (apply nth_error_Some; congruence).
      cbn [Js.prop Js.bind]. unfold Math_random.
      cbv beta iota zeta. cbn [draws cursor].
      set (w1 := {| rng := Random.mk (draws (rng w)) (S (S (cursor (rng w))));
                    heap := heap w |}).
      destruct (IH (S i) w1) as [Hret Hraise]. split.
      * intros Hle. destruct Hret as (tws & r' & E & Ho); [lia|].
        rewrite E. cbn [Js.bind fst snd]. eexists _, r'.
        split; [reflexivity|]. cbn [map object]. now rewrite Ho.
      * intros _ Hlt. rewrite Hraise; [reflexivity| |lia].
        intros ->. cbn [length] in Hlt. lia.
    + apply nth_error_None in Hn. split; [intros; lia|].
      intros _ _. reflexivity.
Qed.

(** The loop of the frame callback returns exactly when every particle
    has a position array. *)
Lemma forEachParticle_outcome (time : R) (positions : list Heap.addr)
    (hp : Heap.t) :
  forall data i,
    ((i + length data <= length positions)%nat ->
     exists drawn,
       forEachParticle time positions hp data i = Js.Return drawn /\
       length drawn = length data) /\
    (data <> [] ->
     (length positions < i + length data)%nat ->
     forEachParticle time positions hp data i = Js.Raise Js.TypeError).
Proof.
  induction data as [|p rest IH]; intros i.
  - split; [|congruence]. intros _. exists []. auto.
  - cbn [forEachParticle length].
    destruct (nth_error positions i) as [a|] eqn:Hn.
    + assert (Hi : (i < length positions)%nat)
        by (apply nth_error_Some; congruence).
      cbn [Js.prop Js.bind].
      destruct (Heap.read hp a) as [[x y] z].
      destruct (IH (S i)) as [Hret Hraise]. split.
      * intros Hle. destruct Hret as (drawn & E & Hl); [lia|].
        rewrite E. cbn [Js.bind]. eexists. split; [reflexivity|].
        cbn [length]. now rewrite Hl.
      * intros _ Hlt. rewrite Hraise; [reflexivity| |lia].
        intros ->. cbn [length] in Hlt. lia.
    + apply nth_error_None in Hn. split; [intros; lia|].
      intros _ _. reflexivity.
Qed.

(** X22. A render that passes a smaller [particleCount] than the component
    was mounted with throws a TypeError: the effect runs over the
    position arrays of mount time and finds no target for the last of
    them. *)
Theorem fewer_particles_throws (s0 s1 : TreeState) (n n' : nat)
    (w : World) :
  (n' < n)%nat ->
  exists inst0 w0,
    render {| state := s0; particleCount := n |} None w
      = Js.Return (inst0, w0) /\
    render {| state := s1; particleCount := n' |} (Some inst0) w0
      = Js.Raise Js.TypeError.
Proof.
  intros Hlt.
  destruct (mount_sizes s0 n w) as (inst0 & w0 & E & Hm & Hd & Hp & _).
  exists inst0, w0. split; [exact E|].
  unfold render. cbn [particleCount state]. rewrite Hm.
  destruct (Nat.eqb_spec n n') as [->|_]; [lia|].
  pose proof (arrayFrom_makeParticle n' n' 0 w0) as Ha. cbv zeta in Ha.
  destruct (arrayFrom (makeParticle n') n' 0 w0) as [d w1].
  cbn [fst] in Ha. destruct Ha as (Hdl & _).
  destruct (copyTreePositions d (heap w1)) as [copies hp].
  cbn [orb]. unfold retarget.
  set (targets := if TreeState_eqb s1 tree
                  then map treePosition d else map galaxyPosition d).
  assert (Htl : length targets = n')
    by (unfold targets; destruct (TreeState_eqb s1 tree);
        now rewrite length_map).
  destruct (forEachPosition_outcome s1 targets (positionsRef inst0) 0
              {| rng := rng w1; heap := hp |}) as [_ Hraise].
  rewrite Hraise; [reflexivity| |lia].
  intros Hnil. rewrite Hnil in Hp. cbn in Hp. lia.
Qed.

(** X23. A render that passes a larger [particleCount] than the component
    was mounted with returns, but it makes tweens only for the position
    arrays of mount time, fewer than there are particles now, and every
    frame drawn after it with the mesh in place throws a TypeError,
    whatever the arrays hold by then. *)
Theorem more_particles_throw_on_frame (s0 s1 : TreeState) (n n' : nat)
    (w : World) :
  (n < n')%nat ->
  exists inst0 w0 inst1 w1,
    render {| state := s0; particleCount := n |} None w
      = Js.Return (inst0, w0) /\
    render {| state := s1; particleCount := n' |} (Some inst0) w0
      = Js.Return (inst1, w1) /\
    length (particleData inst1) = n' /\
    length (tweens inst1) = n /\
    forall delta timeRef h,
      useFrame true delta timeRef inst1 h = Js.Raise Js.TypeError.
Proof.
  intros Hlt.
  destruct (mount_sizes s0 n w) as (inst0 & w0 & E & Hm & Hd & Hp & _).
  exists inst0, w0.
  unfold render at 2. cbn [particleCount state]. rewrite Hm.
  destruct (Nat.eqb_spec n n') as [->|_]; [lia|].
  pose proof (arrayFrom_makeParticle n' n' 0 w0) as Ha. cbv zeta in Ha.
  destruct (arrayFrom (makeParticle n') n' 0 w0) as [d w1].
  cbn [fst] in Ha. destruct Ha as (Hdl & _).
  destruct (copyTreePositions d (heap w1)) as [copies hp].
  cbn [orb]. unfold retarget.
  set (targets := if TreeState_eqb s1 tree
                  then map treePosition d else map galaxyPosition d).
  assert (Htl : length targets = n')
    by (unfold targets; destruct (TreeState_eqb s1 tree);
        now rewrite length_map).
  destruct (forEachPosition_outcome s1 targets (positionsRef inst0) 0
              {| rng := rng w1; heap := hp |}) as [Hret _].
  destruct Hret as (tws & r' & Ef & Ho); [lia|].
  rewrite Ef. cbn [Js.bind fst snd].
  eexists _, _. split; [exact E|]. split; [reflexivity|].
  cbn [particleData tweens positionsRef heap].
  split; [exact Hdl|]. split.
  - apply (f_equal (@length Heap.addr)) in Ho. rewrite length_map in Ho.
    congruence.
  - intros delta timeRef h. unfold useFrame.
    cbn [negb particleData positionsRef].
    destruct (forEachParticle_outcome (timeRef + delta) (positionsRef inst0)
                h d 0) as [_ Hraise].
    rewrite Hraise; [reflexivity| |lia].
    intros Hnil. rewrite Hnil in Hdl. cbn in Hdl. lia.
Qed.

(** What the loop of the frame callback draws for index [j]: the
    particle of that index at its position array, moved only along the
    vertical by the breathing term. *)
Lemma forEachParticle_nth (time : R) (positions : list Heap.addr)
    (hp : Heap.t) :
  forall data i drawn,
    forEachParticle time positions hp data i = Js.Return drawn ->
    forall j d,
      nth_error drawn j = Some d ->
      exists p a,
        nth_error data j = Some p /\
        nth_error positions (i + j) = Some a /\
        drawnPosition d =
          (fst (fst (Heap.read hp a)),
           height_of (Heap.read hp a)
             + sin (time * speed p + phase p) * 0.03,
           snd (Heap.read hp a)) /\
        drawnScale d = scale p * (1 + sin (time * 3 + phase p) * 0.15) /\
        drawnColor d = color p.
Proof.
  induction data as [|p rest IH]; intros i drawn E j d Hj.
  - cbn in E. injection E as <-. destruct j; discriminate.
  - cbn [forEachParticle] in E.
    destruct (nth_error positions i) as [a|] eqn:Hn;
      cbn [Js.prop Js.bind] in E; [|discriminate].
    destruct (Heap.read hp a) as [[x y] z] eqn:Hr.
    destruct (forEachParticle time positions hp rest (S i))
      as [others|e] eqn:Er; cbn [Js.bind] in E; [|discriminate].
    injection E as <-.
    destruct j as [|j]; cbn [nth_error] in Hj.
    + injection Hj as <-. exists p, a. rewrite Nat.add_0_r, Hr.
      cbn. auto.
    + destruct (IH (S i) others Er j d Hj) as (q & b & H1 & H2 & H3).
      exists q, b. split; [exact H1|].
      split; [now replace (i + S j)%nat with (S i + j)%nat by lia|exact H3].
Qed.

(** X24. A frame of a component that has a position array for every particle
    draws every particle once, at its position array moved by at most
    0.03 along the vertical and not at all sideways, in its own colour
    and at a scale within 15 percent of its own. *)
Theorem frame_draws_particles_in_place (delta timeRef : R)
    (inst : Instance) (hp : Heap.t) :
  length (positionsRef inst) = length (particleData inst) ->
  exists drawn,
    useFrame true delta timeRef inst hp
      = Js.Return (timeRef + delta, drawn) /\
    length drawn = length (particleData inst) /\
    forall j d,
      nth_error drawn j = Some d ->
      exists p a,
        nth_error (particleData inst) j = Some p /\
        nth_error (positionsRef inst) j = Some a /\
        fst (fst (drawnPosition d)) = fst (fst (Heap.read hp a)) /\
        snd (drawnPosition d) = snd (Heap.read hp a) /\
        - 0.03 <= height_of (drawnPosition d) - height_of (Heap.read hp a)
          <= 0.03 /\
        drawnColor d = color p /\
        (0 <= scale p ->
         0.85 * scale p <= drawnScale d <= 1.15 * scale p).
Proof.
  intros Hl. unfold useFrame. cbn [negb].
  destruct (forEachParticle_outcome (timeRef + delta) (positionsRef inst) hp
              (particleData inst) 0) as [Hret _].
  destruct Hret as (drawn & E & Hdl); [lia|].
  rewrite E. cbn [Js.bind]. exists drawn.
  split; [reflexivity|]. split; [exact Hdl|].
  intros j d Hj.
  destruct (forEachParticle_nth _ _ _ _ _ _ E j d Hj)
    as (p & a & Hp & Ha & Hpos & Hsc & Hc).
  exists p, a. split; [exact Hp|]. split; [exact Ha|].
  rewrite Hpos, Hsc. unfold height_of. cbn [fst snd].
  pose proof (SIN_bound ((timeRef + delta) * speed p + phase p)) as Hb.
  pose proof (SIN_bound ((timeRef + delta) * 3 + phase p)) as Hs.
  split; [reflexivity|]. split; [reflexivity|]. split; [lra|].
  split; [exact Hc|]. intros H0.
  set (u := sin ((timeRef + delta) * 3 + phase p)) in *.
  split.
  - replace (0.85 * scale p) with (scale p * 0.85) by ring.
    apply Rmult_le_compat_l; lra.
  - replace (1.15 * scale p) with (scale p * 1.15) by ring.
    apply Rmult_le_compat_l; lra.
Qed.

(** The copies hold the contents of the tree arrays. *)
Lemma copyTreePositions_values (data : list Particle) :
  forall hp,
    (forall p, In p data -> (treePosition p < Heap.next hp)%nat) ->
    map (Heap.read (snd (copyTreePositions data hp)))
        (fst (copyTreePositions data hp))
      = map (fun p => Heap.read hp (treePosition p)) data.
Proof.
  induction data as [|p rest IH]; intros hp Hold; [reflexivity|].
  cbn [copyTreePositions].
  pose proof (alloc_fresh (Heap.read hp (treePosition p)) hp) as Ha.
  destruct (Heap.alloc (Heap.read hp (treePosition p)) hp) as [a1 h1].
  cbn [fst snd] in Ha. destruct Ha as (-> & Hn & Hv & He).
  assert (Hold1 : forall q, In q rest -> (treePosition q < Heap.next h1)%nat).
  { intros q Hq. specialize (Hold q (or_intror Hq)). lia. }
  specialize (IH h1 Hold1).
  pose proof (copyTreePositions_fresh rest h1) as Hf. cbv zeta in Hf.
  destruct (copyTreePositions rest h1) as [others h2].
  cbn [fst snd map] in *. destruct Hf as (_ & [_ Hrd] & _).
  f_equal.
  - rewrite Hrd by lia. exact Hv.
  - rewrite IH. apply map_ext_in. intros q Hq.
    apply (proj2 He). apply Hold. now right.
Qed.

(** X25. Mounting puts every particle on the tree: its position array is an
    array of its own that holds the contents of its tree array.  So a
    component mounted in tree mode starts tweens that lead each array to
    the value it already holds, and one mounted in galaxy mode starts on
    the tree and flies out. *)
Theorem mount_starts_on_tree (s0 : TreeState) (n : nat) (w : World) :
  exists inst0 w0,
    render {| state := s0; particleCount := n |} None w
      = Js.Return (inst0, w0) /\
    map (Heap.read (heap w0)) (positionsRef inst0)
      = map (fun p => Heap.read (heap w0) (treePosition p))
            (particleData inst0) /\
    (forall a, In a (positionsRef inst0) ->
       ~ In a (targetAddrs (particleData inst0))) /\
    map endValues (tweens inst0)
      = map (fun p => Heap.read (heap w0) (targetOf s0 p))
            (particleData inst0) /\
    (s0 = tree ->
     map endValues (tweens inst0)
       = map (Heap.read (heap w0)) (positionsRef inst0)).
Proof.
  unfold render. cbn [particleCount state].
  pose proof (arrayFrom_makeParticle n n 0 w) as Hd. cbv zeta in Hd.
  destruct (arrayFrom (makeParticle n) n 0 w) as [d w1].
  cbn [fst snd] in Hd. destruct Hd as (Hdl & Hde & Hdin).
  pose proof (copyTreePositions_fresh d (heap w1)) as Hc. cbv zeta in Hc.
  pose proof (copyTreePositions_values d (heap w1)) as Hv.
  destruct (copyTreePositions d (heap w1)) as [copies hp].
  cbn [fst snd] in Hc, Hv. destruct Hc as (Hcl & Hce & Hcin).
  cbn [rng heap].
  destruct (retarget_tweens s0 d copies {| rng := rng w1; heap := hp |} Hcl)
    as (tws & r' & E & Ho & He).
  rewrite E. cbn [Js.bind fst snd heap] in *.
  eexists _, _. split; [reflexivity|].
  cbn [particleData positionsRef tweens heap].
  assert (Hin : forall p, In p d -> In (treePosition p) (targetAddrs d)).
  { intros p Hp. unfold targetAddrs. apply in_or_app. left.
    now apply in_map. }
  assert (Hpos : map (Heap.read hp) copies
                 = map (fun p => Heap.read hp (treePosition p)) d).
  { rewrite Hv.
    - apply map_ext_in. intros p Hp. symmetry. apply (proj2 Hce).
      apply Hdin. now apply Hin.
    - intros p Hp. apply Hdin. now apply Hin. }
  split; [exact Hpos|]. split.
  - intros a Ha Ht. apply Hdin in Ht. apply Hcin in Ha. lia.
  - split; [exact He|]. intros ->. rewrite He, Hpos. reflexivity.
Qed.

(** X26. While the particle count stays the same, a render in the mode of the
    render before it starts no animation: it leaves the component and
    its tweens as they are and takes no random number; all it does is
    allocate the copies of the tree arrays that [useRef] then drops. *)
Theorem same_mode_render_is_idle (s0 : TreeState) (n : nat) (w : World)
    (evs : list Event) :
  Forall (keepsCount n) evs ->
  exists inst0 w0 inst w1 w2,
    render {| state := s0; particleCount := n |} None w
      = Js.Return (inst0, w0) /\
    steps evs (inst0, w0) = Js.Return (inst, w1) /\
    render {| state := lastState s0 evs; particleCount := n |} (Some inst) w1
      = Js.Return (inst, w2) /\
    rng w2 = rng w1 /\
    Heap.extends (heap w1) (heap w2).
Proof.
  intros Hevs.
  destruct (mount_intact s0 n w) as (inst0 & w0 & E & Hs & He & Hl & Ha).
  destruct (steps_intact n (particleData inst0) (positionsRef inst0)
              (heap w0) Hl Ha evs Hevs (inst0, w0) Hs)
    as ([inst w1] & Es & (_ & Hm & _) & Hlast).
  cbn [fst snd] in *.
  exists inst0, w0, inst, w1.
  unfold render at 2. cbn [particleCount state].
  rewrite Hm, Nat.eqb_refl.
  pose proof (copyTreePositions_fresh (particleData inst) (heap w1)) as Hc.
  cbv zeta in Hc.
  destruct (copyTreePositions (particleData inst) (heap w1)) as [copies hp].
  cbn [fst snd] in Hc. destruct Hc as (_ & Hext & _).
  rewrite Hlast, He.
  destruct (TreeState_eqb_spec (lastState s0 evs) (lastState s0 evs))
    as [_|Hne]; [|contradiction].
  cbn [orb negb rng heap].
  exists {| rng := rng w1; heap := hp |}.
  split; [exact E|]. split; [exact Es|].
  split; [|split; [reflexivity|exact Hext]].
  rewrite <- Hm. destruct inst. cbn in *. rewrite Hlast, He. reflexivity.
Qed.

End ParticleCount.

Lemma frame_draws_particles_in_place_witness :
  exists drawn,
    ParticleFrame.useFrame true 0.016%R 1%R MoreSamples.oneParticle
      (Particles.heap Samples.emptyWorld)
      = Js.Return ((1 + 0.016)%R, drawn) /\
    length drawn = 1%nat.
Proof.
  destruct (frame_draws_particles_in_place 0.016 1 MoreSamples.oneParticle
              (Particles.heap Samples.emptyWorld) eq_refl)
    as (drawn & E & Hl & _).
  exists drawn. split; [exact E|exact Hl].
Defined.

Lemma same_mode_render_is_idle_witness :
  exists inst0 w0 inst w1 w2,
    Particles.render
      {| Particles.state := tree; Particles.particleCount := 2 |}
      None Samples.emptyWorld = Js.Return (inst0, w0) /\
    Particles.steps Samples.roundTrip (inst0, w0) = Js.Return (inst, w1) /\
    Particles.render
      {| Particles.state := tree; Particles.particleCount := 2 |}
      (Some inst) w1 = Js.Return (inst, w2) /\
    Random.cursor (Particles.rng w2) = Random.cursor (Particles.rng w1).
Proof.
  destruct (same_mode_render_is_idle tree 2 Samples.emptyWorld
              Samples.roundTrip)
    as (inst0 & w0 & inst & w1 & w2 & E & Es & Er & Hr & _).
  - repeat constructor.
  - exists inst0, w0, inst, w1, w2.
    split; [exact E|]. split; [exact Es|]. split; [exact Er|].
    now rewrite Hr.
Defined.

Lemma fewer_particles_throws_witness :
  exists inst0 w0,
    Particles.render
      {| Particles.state := tree; Particles.particleCount := 2 |}
      None Samples.emptyWorld = Js.Return (inst0, w0) /\
    Particles.render
      {| Particles.state := galaxy; Particles.particleCount := 1 |}
      (Some inst0) w0 = Js.Raise Js.TypeError.
Proof.
  apply (fewer_particles_throws tree galaxy 2 1 Samples.emptyWorld). lia.
Defined.

Lemma more_particles_throw_on_frame_witness :
  exists inst0 w0 inst1 w1,
    Particles.render
      {| Particles.state := tree; Particles.particleCount := 1 |}
      None Samples.emptyWorld = Js.Return (inst0, w0) /\
    Particles.render
      {| Particles.state := tree; Particles.particleCount := 2 |}
      (Some inst0) w0 = Js.Return (inst1, w1) /\
    ParticleFrame.useFrame true 0.016%R 0%R inst1 (Particles.heap w1)
      = Js.Raise Js.TypeError.
Proof.
  destruct (more_particles_throw_on_frame tree tree 1 2 Samples.emptyWorld)
    as (inst0 & w0 & inst1 & w1 & E0 & E1 & _ & _ & Hf); [lia|].
  exists inst0, w0, inst1, w1. split; [exact E0|]. split; [exact E1|].
  apply Hf.
Defined.
